(** * Sankhya sales-force application: the authenticated-request and caching core

    A shallow embedding of [src/unnamed/part_002] (class [CacheService]),
    [src/lib/redis-cache-service.ts] (class [RedisCacheService]),
    [src/lib/produtos-service.ts] (token manager, request executor, record
    normaliser, price / stock / product queries) and
    [src/app/api/sankhya/produtos/batch-info/route.ts] (batch endpoint),
    followed by the properties of the specification stated over it.

    Conventions of the embedding.
    - A JavaScript value is a [JsVal]; a JavaScript number is a binary64
      [float], so [+] is [PrimFloat.add] and [NaN] is [nan].
    - A JavaScript string is held as the bytes of its UTF-8 encoding, one
      [ascii] per byte: a character outside ASCII takes two or three bytes.
    - [Date.now()] and the ttl of a cache entry are whole milliseconds in [Z].
    - A [Map<string, _>] is a [gmap string _].
    - An [async] function is a state transformer over [World]; the replies of
      the ERP are given by an oracle indexed by the number of the HTTP call.
    - Where calls of [async] functions are in progress side by side (the
      batch endpoint), each is kept with its [await]s and an event loop
      resumes them in turns; which call goes on next is a parameter, the
      scheduler. *)

From Stdlib Require Import ZArith Floats Ascii String List Lia Bool.
From stdpp Require Import gmap strings list fin_maps pretty.

Set Warnings "-register-all,-clear-no-such-hyp".

Local Open Scope string_scope.
Local Open Scope list_scope.
Local Open Scope Z_scope.

(* ===================================================================== *)
(** ** JavaScript values *)
(* ===================================================================== *)

Module Js.

(** JSON-shaped values, with [undefined]. An object is the list of its
    properties in insertion order and is read by first match. *)
Inductive JsVal : Type :=
| JUndefined
| JNull
| JBool (b : bool)
| JNum (x : float)
| JStr (s : string)
| JArr (items : list JsVal)
| JObj (props : list (string * JsVal)).

(** ToBoolean. *)
Definition truthy (v : JsVal) : bool :=
  match v with
  | JUndefined | JNull => false
  | JBool b => b
  | JNum x => negb (PrimFloat.is_zero x || PrimFloat.is_nan x)
  | JStr s => negb (String.eqb s "")
  | JArr _ | JObj _ => true
  end.

(** [a || b] *)
Definition or_else (a b : JsVal) : JsVal := if truthy a then a else b.

(** [v !== null] *)
Definition not_null (v : JsVal) : bool :=
  match v with JNull => false | _ => true end.

(** [Array.isArray(v)] *)
Definition isArray (v : JsVal) : bool :=
  match v with JArr _ => true | _ => false end.

(** Own property [k] of an object, [undefined] when there is none. *)
Fixpoint obj_lookup (k : string) (props : list (string * JsVal)) : JsVal :=
  match props with
  | [] => JUndefined
  | (k', v) :: rest => if String.eqb k k' then v else obj_lookup k rest
  end.

(** [o[k] = v] on an object: overwrite in place, or append. *)
Fixpoint obj_set (k : string) (v : JsVal) (props : list (string * JsVal))
  : list (string * JsVal) :=
  match props with
  | [] => [(k, v)]
  | (k', v') :: rest =>
      if String.eqb k k' then (k, v) :: rest else (k', v') :: obj_set k v rest
  end.

(** [v.k] for a value that is neither [undefined] nor [null]. The keys read
    by the program are names of JSON members; none of them is an own
    property of an array, a string, a number or a boolean. *)
Definition member (v : JsVal) (k : string) : JsVal :=
  match v with
  | JObj props => obj_lookup k props
  | _ => JUndefined
  end.

(** [v?.k] *)
Definition opt_member (v : JsVal) (k : string) : JsVal := member v k.

(** [v[0]] of an array. *)
Definition first_item (v : JsVal) : JsVal :=
  match v with
  | JArr (x :: _) => x
  | _ => JUndefined
  end.

(** *** Numbers *)

(** The binary64 nearest to [m * 2^e] (ties to even). *)
Definition Z2F (m e : Z) : float := SF2Prim (binary_normalize prec emax m e false).

(** The binary64 nearest to [m * 10^e10] for [0 <= m]: an integer is rounded
    once; a proper fraction is first cut to at least 63 bits with a sticky
    last bit, so that the final rounding sees on which side of a midpoint
    the decimal lies. *)
Definition dec2float (m e10 : Z) : float :=
  if m =? 0 then 0%float
  else if 0 <=? e10 then Z2F (m * 10 ^ e10) 0
  else
    let d := 10 ^ (- e10) in
    let s := Z.max 0 (64 + Z.log2 d - Z.log2 m) in
    let n := m * 2 ^ s in
    let q := n / d in
    Z2F (if n mod d =? 0 then q else Z.lor q 1) (- s).

(** The ASCII white space and line terminators: TAB, LF, VT, FF, CR, SP. *)
Definition is_space (c : ascii) : bool :=
  let n := nat_of_ascii c in
  (Nat.eqb n 32 || (Nat.leb 9 n && Nat.leb n 13))%bool.

(** The white space and line terminators outside ASCII, by their UTF-8
    bytes: U+00A0 is [C2 A0]; U+1680 is [E1 9A 80]; U+2000 to U+200A, U+2028,
    U+2029 and U+202F are [E2 80 xx]; U+205F is [E2 81 9F]; U+3000 is
    [E3 80 80]; U+FEFF is [EF BB BF]. *)
Definition is_space2 (a b : ascii) : bool :=
  (Nat.eqb (nat_of_ascii a) 194 && Nat.eqb (nat_of_ascii b) 160)%bool.

Definition is_space3 (a b c : ascii) : bool :=
  let '(x, y, z) := (nat_of_ascii a, nat_of_ascii b, nat_of_ascii c) in
  ((Nat.eqb x 225 && Nat.eqb y 154 && Nat.eqb z 128)
   || (Nat.eqb x 226 && Nat.eqb y 128
       && ((Nat.leb 128 z && Nat.leb z 138) || Nat.eqb z 168 || Nat.eqb z 169
           || Nat.eqb z 175))
   || (Nat.eqb x 226 && Nat.eqb y 129 && Nat.eqb z 159)
   || (Nat.eqb x 227 && Nat.eqb y 128 && Nat.eqb z 128)
   || (Nat.eqb x 239 && Nat.eqb y 187 && Nat.eqb z 191))%bool.

(** The string without the white space and line terminators it starts
    with. *)
Fixpoint trim_start (s : string) : string :=
  match s with
  | String a r =>
      if is_space a then trim_start r
      else
        match r with
        | String b r' =>
            if is_space2 a b then trim_start r'
            else
              match r' with
              | String c r'' => if is_space3 a b c then trim_start r'' else s
              | EmptyString => s
              end
        | EmptyString => s
        end
  | EmptyString => s
  end.

Definition digit_val (c : ascii) : option Z :=
  let n := Z.of_nat (nat_of_ascii c) in
  if (48 <=? n) && (n <=? 57) then Some (n - 48) else None.

(** Reads the longest run of decimal digits at the head of [s], continuing
    the number [acc]; returns the number, how many digits were read, and the
    rest of the string. *)
Fixpoint read_digits (s : string) (acc n : Z) : Z * Z * string :=
  match s with
  | String c r =>
      match digit_val c with
      | Some d => read_digits r (10 * acc + d) (n + 1)
      | None => (acc, n, s)
      end
  | EmptyString => (acc, n, s)
  end.

(** The exponent part [e±ddd] at the head of [s], 0 when there is none. *)
Definition read_exponent (s : string) : Z :=
  match s with
  | String c r =>
      if (Ascii.eqb c "e" || Ascii.eqb c "E")%bool then
        let '(sg, r') :=
          match r with
          | String "+" r' => (1, r')
          | String "-" r' => (-1, r')
          | _ => (1, r)
          end in
        let '(ev, ne, _) := read_digits r' 0 0 in
        if ne =? 0 then 0 else sg * ev
      else 0
  | EmptyString => 0
  end.

(** The longest prefix of [s] that is an unsigned decimal literal
    ([Infinity], or digits with an optional fraction and exponent);
    [None] when no prefix is one. *)
Definition parse_unsigned (s : string) : option float :=
  if String.prefix "Infinity" s then Some infinity
  else
    let '(ip, ni, r1) := read_digits s 0 0 in
    let '(m, nf, r2) :=
      match r1 with
      | String "." r => read_digits r ip 0
      | _ => (ip, 0, r1)
      end in
    if ni + nf =? 0 then None
    else Some (dec2float m (read_exponent r2 - nf)).

(** [parseFloat] of a string: leading white space is dropped, a sign and
    the longest decimal prefix are read, anything after it is ignored; [NaN]
    when there is no such prefix. *)
Definition parse_float_str (s : string) : float :=
  let s := trim_start s in
  let '(neg, s) :=
    match s with
    | String "-" r => (true, r)
    | String "+" r => (false, r)
    | _ => (false, s)
    end in
  match parse_unsigned s with
  | Some x => if neg then (- x)%float else x
  | None => nan
  end.

(** [parseFloat(v)]: the argument is first converted to a string. A number
    prints to a decimal that reads back as itself ([-0] prints as ["0"]); an
    array prints its items separated by commas, so only the first item is
    read; [undefined], [null], booleans and objects print to text that is
    not a number. *)
Fixpoint parseFloat (v : JsVal) : float :=
  match v with
  | JStr s => parse_float_str s
  | JNum x => if PrimFloat.is_zero x then 0%float else x
  | JArr (x :: _) =>
      match x with
      | JUndefined | JNull => nan
      | _ => parseFloat x
      end
  | _ => nan
  end.

(** [key.includes(pattern)]: [pattern] occurs in [key] as a literal run of
    characters. *)
Fixpoint starts_with (s p : string) {struct p} : bool :=
  match p, s with
  | EmptyString, _ => true
  | String a p', String b s' => if Ascii.eqb a b then starts_with s' p' else false
  | String _ _, EmptyString => false
  end.

Fixpoint includes (key pattern : string) : bool :=
  (starts_with key pattern ||
   match key with
   | EmptyString => false
   | String _ key' => includes key' pattern
   end)%bool.

(** [v === undefined || v === null] *)
Definition nullish (v : JsVal) : bool :=
  match v with JUndefined | JNull => true | _ => false end.

Section ToString.

(** Number::toString, the shortest decimal that reads back: taken as
    given. *)
Variable Number_toString : float -> string.

(** [String(v)], also the conversion done by a template literal and by a
    computed property key. *)
Fixpoint js_String (v : JsVal) : string :=
  match v with
  | JUndefined => "undefined"
  | JNull => "null"
  | JBool true => "true"
  | JBool false => "false"
  | JNum x => Number_toString x
  | JStr s => s
  | JArr items =>
      let item x :=
        match x with
        | JUndefined | JNull => ""
        | _ => js_String x
        end in
      (fix join (l : list JsVal) : string :=
         match l with
         | [] => ""
         | [x] => item x
         | x :: rest => item x +:+ "," +:+ join rest
         end) items
  | JObj _ => "[object Object]"
  end.

End ToString.

End Js.

Import Js.

(* ===================================================================== *)
(** ** [CacheService]: the in-process response cache *)
(* ===================================================================== *)

Module CacheService.

Record CacheEntry : Type := mkEntry {
  data : JsVal;
  timestamp : Z;
  ttl : Z  (* Time to live em milissegundos *)
}.

(** [private cache: Map<string, CacheEntry<any>>] *)
Abbreviation Cache := (gmap string CacheEntry).

(** TTL padrão: 5 minutos *)
Definition defaultTTL : Z := 5 * 60 * 1000.

(** [ttl || this.defaultTTL] for the optional argument [ttl?: number]. *)
Definition ttl_or_default (t : option Z) : Z :=
  match t with
  | Some t => if t =? 0 then defaultTTL else t
  | None => defaultTTL
  end.

(** [set(key, data, ttl?)], at the time [now] read by [Date.now()]. *)
Definition set (now : Z) (key : string) (d : JsVal) (t : option Z) (c : Cache) : Cache :=
  <[key := mkEntry d now (ttl_or_default t)]> c.

(** [get(key)], at the time [now] read by [Date.now()]: the value returned
    ([null] for absent) and the map afterwards. *)
Definition get (now : Z) (key : string) (c : Cache) : JsVal * Cache :=
  match c !! key with
  | None => (JNull, c)
  | Some entry =>
      let age := now - timestamp entry in
      if age >? ttl entry then (JNull, delete key c)
      else (data entry, c)
  end.

(** [has(key)] *)
Definition has (now : Z) (key : string) (c : Cache) : bool * Cache :=
  let '(d, c') := get now key c in (not_null d, c').

(** [delete(key)] *)
Definition delete (key : string) (c : Cache) : Cache := base.delete key c.

(** [clear()] *)
Definition clear (c : Cache) : Cache := ∅.

(** One turn of the loop over [this.cache.keys()] in [invalidatePattern]. *)
Definition invalidate_step (pattern : string) (st : nat * Cache) (key : string)
  : nat * Cache :=
  let '(count, c) := st in
  if includes key pattern then (S count, base.delete key c) else (count, c).

(** [invalidatePattern(pattern)]: the count returned and the map afterwards.
    The loop deletes only the key it is visiting, so it visits every key the
    map had on entry. *)
Definition invalidatePattern (pattern : string) (c : Cache) : nat * Cache :=
  foldl (invalidate_step pattern) (0%nat, c) (map_to_list c).*1.

(** One turn of the loop over [this.cache.entries()] in [cleanup]. *)
Definition cleanup_step (now : Z) (c : Cache) (kv : string * CacheEntry) : Cache :=
  let '(key, entry) := kv in
  let age := now - timestamp entry in
  if age >? ttl entry then base.delete key c else c.

(** [cleanup()] *)
Definition cleanup (now : Z) (c : Cache) : Cache :=
  foldl (cleanup_step now) c (map_to_list c).

Definition invalidateParceiros := invalidatePattern "parceiros".
Definition invalidateProdutos := invalidatePattern "produtos".
Definition invalidateEstoque := invalidatePattern "estoque".
Definition invalidatePrecos := invalidatePattern "preco".

End CacheService.

(* ===================================================================== *)
(** ** [RedisCacheService]: the cache with an optional Redis store *)
(* ===================================================================== *)

Module RedisCacheService.

Import CacheService.

Section Client.

(** The node-redis client is an external collaborator: its database is
    any type and its two commands used by [invalidatePattern] are any
    functions; [None] stands for a rejected promise. *)
Variable Redis : Type.
Variable redis_keys : string -> Redis -> option (list string) * Redis.
Variable redis_del : list string -> Redis -> option unit * Redis.

Record State : Type := mkState {
  memoryCache : gmap string CacheEntry;
  redisClient : option Redis;
  useRedis : bool
}.

(** The [if (this.useRedis && this.redisClient) { try { ... } catch ... }]
    block of [invalidatePattern]: the count so far and the client. *)
Definition invalidate_redis (pattern : string) (st : State) : nat * option Redis :=
  match useRedis st, redisClient st with
  | true, Some r =>
      match redis_keys ("*" +:+ pattern +:+ "*") r with
      | (Some keys, r1) =>
          if (0 <? length keys)%nat then
            match redis_del keys r1 with
            | (Some _, r2) => (length keys, Some r2)
            | (None, r2) => (0%nat, Some r2)
            end
          else (0%nat, Some r1)
      | (None, r1) => (0%nat, Some r1)
      end
  | _, client => (0%nat, client)
  end.

(** [invalidatePattern(pattern)] *)
Definition invalidatePattern (pattern : string) (st : State) : nat * State :=
  let '(count, client) := invalidate_redis pattern st in
  (* Também limpar da memória *)
  let '(count, mem) :=
    foldl (invalidate_step pattern) (count, memoryCache st)
          (map_to_list (memoryCache st)).*1 in
  (count, mkState mem client (useRedis st)).

End Client.

End RedisCacheService.

(* ===================================================================== *)
(** ** [produtos-service.ts] *)
(* ===================================================================== *)

Module ProdutosService.

(** [erro.response] of an axios error. *)
Record HttpResponse : Type := mkResponse {
  status : Z;
  body : JsVal          (* erro.response.data *)
}.

(** A thrown value: the members of it that the handlers read. *)
Record Exn : Type := mkExn {
  code : option string;
  message : string;
  response : option HttpResponse
}.

(** [new Error(msg)] *)
Definition Error (msg : string) : Exn := mkExn None msg None.

(** The TypeError of reading member [k] of [undefined] or [null]
    (V8 wording). *)
Definition TypeError_read (v : JsVal) (k : string) : Exn :=
  Error ("Cannot read properties of "
         +:+ (match v with JNull => "null" | _ => "undefined" end)
         +:+ " (reading '" +:+ k +:+ "')").

(** How a call ends: it returns, it throws, or the bound on the depth of
    the recursion given to the model was too small. *)
Inductive Res (A : Type) : Type :=
| Ret (a : A)
| Throw (e : Exn)
| OutOfFuel.
Arguments Ret {A} a.
Arguments Throw {A} e.
Arguments OutOfFuel {A}.

(** What axios makes of one HTTP exchange: the promise resolves with
    [resposta.data] (status 2xx) or rejects with an error. *)
Inductive Reply : Type :=
| Resolved (data : JsVal)
| Rejected (e : Exn).

Record Exchange : Type := mkExchange {
  took : Z;           (* milliseconds until the promise settles *)
  reply : Reply
}.

(** What the program does to the outside, most recent first. *)
Inductive Event : Type :=
| EvLogin                       (* axios.post(ENDPOINT_LOGIN, ...) *)
| EvQuery                       (* axios(config), the loadRecords service *)
| EvPreco (codProd : string)    (* axios.get(URL_PRECOS, ...) *)
| EvSleep (ms : Z).             (* await new Promise(r => setTimeout(r, ms)) *)

(** The module state: [cachedToken], the [cacheService] singleton, the
    clock, the number of HTTP calls made so far, and the trace. *)
Record World : Type := mkWorld {
  cachedToken : JsVal;
  cache : gmap string CacheService.CacheEntry;
  now : Z;
  calls : nat;
  trace : list Event
}.

Definition M (A : Type) : Type := World -> Res A * World.

Definition ret {A} (a : A) : M A := fun w => (Ret a, w).
Definition throw {A} (e : Exn) : M A := fun w => (Throw e, w).
Definition out_of_fuel {A} : M A := fun w => (OutOfFuel, w).

Definition bind {A B} (m : M A) (k : A -> M B) : M B :=
  fun w =>
    match m w with
    | (Ret a, w') => k a w'
    | (Throw e, w') => (Throw e, w')
    | (OutOfFuel, w') => (OutOfFuel, w')
    end.

(** [try { m } catch (erro) { handler erro }] *)
Definition try_catch {A} (m : M A) (handler : Exn -> M A) : M A :=
  fun w =>
    match m w with
    | (Throw e, w') => handler e w'
    | r => r
    end.

Declare Scope js_scope.
Delimit Scope js_scope with js.
Notation "'let*' x ':=' m 'in' k" := (bind m (fun x => k))
  (at level 10, x pattern, m at level 100, k at level 200) : js_scope.
Notation "m ';;' k" := (bind m (fun _ => k))
  (at level 100, k at level 200, right associativity) : js_scope.
Local Open Scope js_scope.

(** The world with [cachedToken = t]. *)
Definition with_token (t : JsVal) (w : World) : World :=
  mkWorld t (cache w) (now w) (calls w) (trace w).

(** The world with the map of [cacheService] replaced by [c]. *)
Definition with_cache (c : gmap string CacheService.CacheEntry) (w : World) : World :=
  mkWorld (cachedToken w) c (now w) (calls w) (trace w).

(** The world [ms] milliseconds later, after a timer. *)
Definition slept (ms : Z) (w : World) : World :=
  mkWorld (cachedToken w) (cache w) (now w + ms) (calls w) (EvSleep ms :: trace w).

Definition set_cachedToken (t : JsVal) : M unit :=
  fun w => (Ret tt, with_token t w).

(** [await new Promise(resolve => setTimeout(resolve, ms))] *)
Definition sleep (ms : Z) : M unit :=
  fun w => (Ret tt, slept ms w).

(** [cacheService.get(key)] *)
Definition cache_get (key : string) : M JsVal :=
  fun w =>
    let '(v, c) := CacheService.get (now w) key (cache w) in
    (Ret v, with_cache c w).

(** [cacheService.set(key, data, ttl)] *)
Definition cache_set (key : string) (d : JsVal) (t : option Z) : M unit :=
  fun w =>
    (Ret tt, with_cache (CacheService.set (now w) key d t (cache w)) w).

(** [v.k], a TypeError when [v] is [undefined] or [null]. *)
Definition prop (v : JsVal) (k : string) : M JsVal :=
  if nullish v then throw (TypeError_read v k) else ret (member v k).

(** [erro.response?.status === n] *)
Definition status_is (erro : Exn) (n : Z) : bool :=
  match response erro with
  | Some r => status r =? n
  | None => false
  end.

(** [erro.response?.status >= 500] *)
Definition status_ge_500 (erro : Exn) : bool :=
  match response erro with
  | Some r => 500 <=? status r
  | None => false
  end.

(** [erro.code === c] *)
Definition code_is (erro : Exn) (c : string) : bool :=
  match code erro with
  | Some c' => String.eqb c' c
  | None => false
  end.

(** [erro.response?.data] *)
Definition response_data (erro : Exn) : JsVal :=
  match response erro with
  | Some r => body r
  | None => JUndefined
  end.

Section Env.

(** The ERP: the exchange that answers the [n]-th HTTP call. *)
Variable net : nat -> Exchange.

(** Built-ins taken as given: Number::toString, [parseInt], [Math.ceil]. *)
Variable Number_toString : float -> string.
Variable parseInt : JsVal -> float.
Variable Math_ceil : float -> float.

Abbreviation String_ := (js_String Number_toString).

(** The world after the HTTP call [ev]: the clock has advanced by the time
    the exchange took. *)
Definition called (ev : Event) (w : World) : World :=
  mkWorld (cachedToken w) (cache w) (now w + took (net (calls w))) (S (calls w))
          (ev :: trace w).

(** One HTTP call through axios: the next exchange of the ERP. *)
Definition http (ev : Event) : M JsVal :=
  fun w =>
    match reply (net (calls w)) with
    | Resolved d => (Ret d, called ev w)
    | Rejected e => (Throw e, called ev w)
    end.

(** *** Obter Token *)

Definition LOGIN_MAX_RETRIES : nat := 3.
Definition LOGIN_RETRY_DELAY : Z := 1000.

Fixpoint obterToken_rec (fuel retryCount : nat) : M JsVal :=
  fun w =>
    if truthy (cachedToken w) then (Ret (cachedToken w), w)
    else
      match fuel with
      | O => (OutOfFuel, w)
      | S fuel' =>
          try_catch
            (let* data := http EvLogin in
             let* bearerToken := prop data "bearerToken" in
             let* token_ := prop data "token" in
             let token := or_else bearerToken token_ in
             if negb (truthy token) then
               throw (Error "Resposta de login do Sankhya não continha o token esperado.")
             else
               set_cachedToken token ;;
               ret token)
            (fun erro =>
               if status_is erro 500 && (retryCount <? LOGIN_MAX_RETRIES)%nat then
                 sleep (LOGIN_RETRY_DELAY * (Z.of_nat retryCount + 1)) ;;
                 obterToken_rec fuel' (S retryCount)
               else
                 set_cachedToken JNull ;;
                 if status_is erro 500 then
                   throw (Error "Serviço Sankhya temporariamente indisponível. Tente novamente em instantes.")
                 else
                   throw (Error ("Falha na autenticação Sankhya: " +:+
                                 String_ (or_else (opt_member (response_data erro) "error")
                                                  (JStr (message erro))))))
            w
      end.

(** [obterToken(retryCount)]: a call made with [retryCount] is followed by
    at most [LOGIN_MAX_RETRIES - retryCount] nested calls. *)
Definition obterToken_from (retryCount : nat) : M JsVal :=
  obterToken_rec (S (LOGIN_MAX_RETRIES - retryCount)) retryCount.

Definition obterToken : M JsVal := obterToken_from 0.

(** *** Requisição Autenticada Genérica *)

Definition REQ_MAX_RETRIES : nat := 2.
Definition REQ_RETRY_DELAY : Z := 1000.

Fixpoint fazerRequisicaoAutenticada_rec (fuel retryCount : nat) : M JsVal :=
  match fuel with
  | O => out_of_fuel
  | S fuel' =>
      try_catch
        (let* token := obterToken in
         http EvQuery)
        (fun erro =>
           if status_is erro 401 || status_is erro 403 then
             set_cachedToken JNull ;;
             if (retryCount <? 1)%nat then
               sleep 500 ;;
               fazerRequisicaoAutenticada_rec fuel' (S retryCount)
             else
               throw (Error "Sessão expirada. Tente novamente.")
           else if (code_is erro "ECONNABORTED" || code_is erro "ENOTFOUND"
                    || status_ge_500 erro)
                   && (retryCount <? REQ_MAX_RETRIES)%nat then
             sleep (REQ_RETRY_DELAY * (Z.of_nat retryCount + 1)) ;;
             fazerRequisicaoAutenticada_rec fuel' (S retryCount)
           else if code_is erro "ECONNABORTED" then
             throw (Error "Tempo de resposta excedido. Tente novamente.")
           else if status_ge_500 erro then
             throw (Error "Serviço temporariamente indisponível. Tente novamente.")
           else
             throw (Error (String_
               (or_else (opt_member (response_data erro) "statusMessage")
                  (or_else (JStr (message erro))
                           (JStr "Erro na comunicação com o servidor"))))))
  end.

(** [fazerRequisicaoAutenticada(fullUrl, method, data, retryCount = 0)].
    The request itself (URL, method, payload) does not appear: the ERP
    answers by the order of the calls. *)
Definition fazerRequisicaoAutenticada_from (retryCount : nat) : M JsVal :=
  fazerRequisicaoAutenticada_rec (S (REQ_MAX_RETRIES - retryCount)) retryCount.

Definition fazerRequisicaoAutenticada : M JsVal := fazerRequisicaoAutenticada_from 0.

(** *** Mapeamento genérico de entidades *)

(** [field.map((f: any) => f.name)] *)
Fixpoint field_names (fields : list JsVal) : M (list JsVal) :=
  match fields with
  | [] => ret []
  | f :: rest =>
      let* name := prop f "name" in
      let* names := field_names rest in
      ret (name :: names)
  end.

(** The [for (let i = 0; i < fieldNames.length; i++)] loop, from [i] on;
    [fieldNames] is what is left of the list at [i]. *)
Fixpoint fill_fields (rawEntity : JsVal) (fieldNames : list JsVal) (i : nat)
         (cleanObject : list (string * JsVal)) : M (list (string * JsVal)) :=
  match fieldNames with
  | [] => ret cleanObject
  | fieldName :: rest =>
      let fieldKey := "f" +:+ pretty i in
      let* slot := prop rawEntity fieldKey in
      let cleanObject :=
        if truthy slot then obj_set (String_ fieldName) (member slot "$") cleanObject
        else cleanObject in
      fill_fields rawEntity rest (S i) cleanObject
  end.

(** The callback of [entityArray.map]. *)
Definition map_entity (fieldNames : list JsVal) (rawEntity : JsVal) (index : nat)
  : M JsVal :=
  let* cleanObject := fill_fields rawEntity fieldNames 0 [] in
  let CODPROD := obj_lookup "CODPROD" cleanObject in
  let _id := if truthy CODPROD then String_ CODPROD else pretty index in
  ret (JObj (obj_set "_id" (JStr _id) cleanObject)).

Fixpoint map_entities (fieldNames : list JsVal) (entityArray : list JsVal) (index : nat)
  : M (list JsVal) :=
  match entityArray with
  | [] => ret []
  | rawEntity :: rest =>
      let* o := map_entity fieldNames rawEntity index in
      let* os := map_entities fieldNames rest (S index) in
      ret (o :: os)
  end.

(** [Array.isArray(entity) ? entity : [entity]] *)
Definition entity_rows (entity : JsVal) : list JsVal :=
  match entity with
  | JArr rows => rows
  | _ => [entity]
  end.

Definition mapearEntidades (entities : JsVal) : M (list JsVal) :=
  let* metadata := prop entities "metadata" in
  let* fields := prop metadata "fields" in
  let* field := prop fields "field" in
  let* fieldNames :=
    match field with
    | JArr fs => field_names fs
    | JUndefined | JNull => throw (TypeError_read field "map")
    | _ => throw (Error "entities.metadata.fields.field.map is not a function")
    end in
  let* entity := prop entities "entity" in
  let entityArray := entity_rows entity in
  map_entities fieldNames entityArray 0.

(** *** Buscar Preço do Produto via API *)

(** [x || 0] on a number *)
Definition num_or_zero (x : float) : float :=
  if truthy (JNum x) then x else 0%float.

(** [let preco = 0; if (resposta.data && ... .length > 0) { ... }] *)
Definition extrair_preco (data : JsVal) : M float :=
  let produtos := member data "produtos" in
  if truthy data && truthy produtos && isArray produtos
     && match produtos with JArr l => (0 <? length l)%nat | _ => false end
  then
    let produto := first_item produtos in
    let* valor := prop produto "valor" in
    ret (num_or_zero (parseFloat valor))
  else ret 0%float.

Definition PRECO_MAX_RETRIES : nat := 1.
Definition PRECO_TTL : Z := 10 * 60 * 1000.

Fixpoint buscarPrecoProduto_rec (fuel : nat) (codProd : string) (retryCount : nat)
  : M JsVal :=
  (* Verificar cache primeiro (TTL: 10 minutos) *)
  let cacheKey := "preco:" +:+ codProd in
  let* cachedPrice := cache_get cacheKey in
  if not_null cachedPrice then ret cachedPrice
  else
    match fuel with
    | O => out_of_fuel
    | S fuel' =>
        try_catch
          (let* token := obterToken in
           let* data := http (EvPreco codProd) in
           (* Extrair o preço da resposta *)
           let* preco := extrair_preco data in
           (* Salvar no cache (TTL: 10 minutos) *)
           cache_set cacheKey (JNum preco) (Some PRECO_TTL) ;;
           ret (JNum preco))
          (fun erro =>
             let auth := status_is erro 401 || status_is erro 403 in
             (* Se token expirou, limpar cache e tentar novamente *)
             (if auth then set_cachedToken JNull else ret tt) ;;
             if auth && (retryCount <? 1)%nat then
               sleep 500 ;;
               buscarPrecoProduto_rec fuel' codProd (S retryCount)
             (* Retry para erros temporários *)
             else if (code_is erro "ECONNABORTED" || status_ge_500 erro)
                     && (retryCount <? PRECO_MAX_RETRIES)%nat then
               sleep 500 ;;
               buscarPrecoProduto_rec fuel' codProd (S retryCount)
             else ret (JNum 0%float))
    end.

Definition buscarPrecoProduto_from (codProd : string) (retryCount : nat) : M JsVal :=
  buscarPrecoProduto_rec (S (PRECO_MAX_RETRIES - retryCount)) codProd retryCount.

(** [buscarPrecoProduto(codProd, retryCount = 0)] *)
Definition buscarPrecoProduto (codProd : string) : M JsVal :=
  buscarPrecoProduto_from codProd 0.

(** *** Consultar Produtos com Paginação *)

(** A count or a page number as a JavaScript number. *)
Definition num (z : Z) : JsVal := JNum (Z2F z 0).

(** [respostaCompleta?.responseBody?.entities] *)
Definition entities_of (respostaCompleta : JsVal) : JsVal :=
  opt_member (opt_member respostaCompleta "responseBody") "entities".

Definition empty_page (page pageSize : Z) : JsVal :=
  JObj [("produtos", JArr []); ("total", num 0); ("page", num page);
        ("pageSize", num pageSize); ("totalPages", num 0)].

(** [l.slice(0, pageSize)] *)
Definition slice0 (l : list JsVal) (pageSize : Z) : list JsVal :=
  if pageSize <? 0 then firstn (Z.to_nat (Z.of_nat (length l) + pageSize)) l
  else firstn (Z.to_nat pageSize) l.

(** [{ ...produto, ESTOQUE: '0', VLRCOMERC: produto.VLRCOMERC || '0' }] *)
Definition com_estoque (produto : JsVal) : JsVal :=
  let props := match produto with JObj props => props | _ => [] end in
  JObj (obj_set "VLRCOMERC" (or_else (member produto "VLRCOMERC") (JStr "0"))
          (obj_set "ESTOQUE" (JStr "0") props)).

(** [consultarProdutos(page, pageSize, searchName, searchCode)]: the search
    terms only shape the payload of the request. *)
Definition consultarProdutos (page pageSize : Z) : M JsVal :=
  let* respostaCompleta := fazerRequisicaoAutenticada in
  (* Verificar se a resposta tem a estrutura esperada *)
  if negb (truthy (entities_of respostaCompleta)) then
    ret (empty_page page pageSize)
  else
    let entities := entities_of respostaCompleta in
    if negb (truthy entities) || negb (truthy (member entities "entity")) then
      ret (empty_page page pageSize)
    else
      let* listaProdutosLimpa := mapearEntidades entities in
      (* Limitar ao pageSize solicitado (a API pode retornar mais) *)
      let listaProdutosLimpa :=
        if pageSize <? Z.of_nat (length listaProdutosLimpa)
        then slice0 listaProdutosLimpa pageSize
        else listaProdutosLimpa in
      let produtosComEstoque := map com_estoque listaProdutosLimpa in
      let total := member entities "total" in
      ret (JObj
        [("produtos", JArr produtosComEstoque);
         ("total", if truthy total then JNum (parseInt total)
                   else num (Z.of_nat (length produtosComEstoque)));
         ("page", num page);
         ("pageSize", num pageSize);
         ("totalPages", if truthy total
                        then JNum (Math_ceil (parseInt total / Z2F pageSize 0))
                        else num 1)]).

(** *** Consultar Estoque de um Produto *)

Definition ESTOQUE_TTL : Z := 5 * 60 * 1000.

(** The callback of [listaEstoquesLimpa.reduce]. *)
Definition soma_estoque (acc : float) (estoque : JsVal) : float :=
  let quantidade := parseFloat (or_else (member estoque "ESTOQUE") (JStr "0")) in
  (acc + quantidade)%float.

(** Calcular estoque total *)
Definition estoqueTotal (listaEstoquesLimpa : list JsVal) : float :=
  foldl soma_estoque 0%float listaEstoquesLimpa.

Definition estoque_vazio : JsVal :=
  JObj [("estoques", JArr []); ("total", num 0); ("estoqueTotal", num 0)].

Definition consultarEstoqueProduto (codProd searchLocal : string) : M JsVal :=
  (* Verificar cache primeiro (TTL: 5 minutos) *)
  let cacheKey := "estoque:" +:+ codProd +:+ ":" +:+ searchLocal in
  let* cachedEstoque := cache_get cacheKey in
  if not_null cachedEstoque then ret cachedEstoque
  else
    let* respostaCompleta := fazerRequisicaoAutenticada in
    if negb (truthy (entities_of respostaCompleta)) then ret estoque_vazio
    else
      let entities := entities_of respostaCompleta in
      if negb (truthy entities) || negb (truthy (member entities "entity")) then
        ret estoque_vazio
      else
        let* listaEstoquesLimpa := mapearEntidades entities in
        let resultado :=
          JObj [("estoques", JArr listaEstoquesLimpa);
                ("total", num (Z.of_nat (length listaEstoquesLimpa)));
                ("estoqueTotal", JNum (estoqueTotal listaEstoquesLimpa))] in
        (* Salvar no cache (TTL: 5 minutos) *)
        cache_set cacheKey resultado (Some ESTOQUE_TTL) ;;
        ret resultado.

End Env.

End ProdutosService.

(* ===================================================================== *)
(** ** The [async] functions with their [await]s kept *)
(* ===================================================================== *)

(** The functions of [produtos-service.ts] once more, for callers that start
    several of them before any has finished ([Promise.all] in the batch
    endpoint). A call runs until its next [await] and then waits; what other
    calls do to the module state in the meantime is what it finds when it
    goes on. *)
Module Async.

Import ProdutosService.

(** A call that was started, or resumed, in some world: it has settled and
    left the world [w], or it has left the world [w] waiting for something
    that takes [delay] ms; [k] is how it goes on in the world it finds
    then. *)
Inductive Run (A : Type) : Type :=
| Settled (r : Res A) (w : World)
| Awaiting (delay : Z) (w : World) (k : World -> Run A).
Arguments Settled {A} r w.
Arguments Awaiting {A} delay w k.

Definition Async (A : Type) : Type := World -> Run A.

Definition ret {A} (a : A) : Async A := fun w => Settled (Ret a) w.
Definition throw {A} (e : Exn) : Async A := fun w => Settled (Throw e) w.
Definition out_of_fuel {A} : Async A := fun w => Settled OutOfFuel w.

(** Code without an [await]. *)
Definition sync {A} (m : M A) : Async A :=
  fun w => let '(r, w') := m w in Settled r w'.

Fixpoint then_ {A B} (r : Run A) (k : A -> Async B) : Run B :=
  match r with
  | Settled (Ret a) w => k a w
  | Settled (Throw e) w => Settled (Throw e) w
  | Settled OutOfFuel w => Settled OutOfFuel w
  | Awaiting d w c => Awaiting d w (fun w' => then_ (c w') k)
  end.

Definition bind {A B} (m : Async A) (k : A -> Async B) : Async B :=
  fun w => then_ (m w) k.

Fixpoint catch_ {A} (r : Run A) (handler : Exn -> Async A) : Run A :=
  match r with
  | Settled (Throw e) w => handler e w
  | Settled r w => Settled r w
  | Awaiting d w c => Awaiting d w (fun w' => catch_ (c w') handler)
  end.

(** [try { m } catch (erro) { handler erro }] *)
Definition try_catch {A} (m : Async A) (handler : Exn -> Async A) : Async A :=
  fun w => catch_ (m w) handler.

(** The promise of a call has settled; the code that awaits it goes on in a
    later turn of the event loop. *)
Fixpoint later {A} (r : Run A) : Run A :=
  match r with
  | Settled res w => Awaiting 0 w (fun w' => Settled res w')
  | Awaiting d w c => Awaiting d w (fun w' => later (c w'))
  end.

(** [await m] for a call [m] of an [async] function; also [return m] in an
    [async] function, whose promise follows that of [m]. *)
Definition await {A} (m : Async A) : Async A := fun w => later (m w).

Declare Scope async_scope.
Delimit Scope async_scope with async.
Notation "'let*' x ':=' m 'in' k" := (bind m (fun x => k))
  (at level 10, x pattern, m at level 100, k at level 200) : async_scope.
Notation "m ';;' k" := (bind m (fun _ => k))
  (at level 100, k at level 200, right associativity) : async_scope.
Local Open Scope async_scope.

Section Env.

Variable net : nat -> Exchange.
Variable Number_toString : float -> string.

Abbreviation String_ := (js_String Number_toString).

(** The world after the request [ev] has been handed to axios. *)
Definition issued (ev : Event) (w : World) : World :=
  mkWorld (cachedToken w) (cache w) (now w) (S (calls w)) (ev :: trace w).

(** [await axios(...)]: the request goes out now and is answered by the
    next exchange of the ERP; the call goes on when the exchange is over. *)
Definition http (ev : Event) : Async JsVal :=
  fun w =>
    let x := net (calls w) in
    Awaiting (took x) (issued ev w)
      (fun w' =>
         match reply x with
         | Resolved d => Settled (Ret d) w'
         | Rejected e => Settled (Throw e) w'
         end).

(** [await new Promise(resolve => setTimeout(resolve, ms))] *)
Definition sleep (ms : Z) : Async unit :=
  fun w =>
    Awaiting ms
      (mkWorld (cachedToken w) (cache w) (now w) (calls w) (EvSleep ms :: trace w))
      (fun w' => Settled (Ret tt) w').

(** *** Obter Token *)

Fixpoint obterToken_rec (fuel retryCount : nat) : Async JsVal :=
  fun w =>
    if truthy (cachedToken w) then Settled (Ret (cachedToken w)) w
    else
      match fuel with
      | O => Settled OutOfFuel w
      | S fuel' =>
          try_catch
            (let* data := http EvLogin in
             let* bearerToken := sync (prop data "bearerToken") in
             let* token_ := sync (prop data "token") in
             let token := or_else bearerToken token_ in
             if negb (truthy token) then
               throw (Error "Resposta de login do Sankhya não continha o token esperado.")
             else
               sync (set_cachedToken token) ;;
               ret token)
            (fun erro =>
               if status_is erro 500 && (retryCount <? LOGIN_MAX_RETRIES)%nat then
                 sleep (LOGIN_RETRY_DELAY * (Z.of_nat retryCount + 1)) ;;
                 await (obterToken_rec fuel' (S retryCount))
               else
                 sync (set_cachedToken JNull) ;;
                 if status_is erro 500 then
                   throw (Error "Serviço Sankhya temporariamente indisponível. Tente novamente em instantes.")
                 else
                   throw (Error ("Falha na autenticação Sankhya: " +:+
                                 String_ (or_else (opt_member (response_data erro) "error")
                                                  (JStr (message erro))))))
            w
      end.

Definition obterToken_from (retryCount : nat) : Async JsVal :=
  obterToken_rec (S (LOGIN_MAX_RETRIES - retryCount)) retryCount.

Definition obterToken : Async JsVal := obterToken_from 0.

(** *** Requisição Autenticada Genérica *)

Fixpoint fazerRequisicaoAutenticada_rec (fuel retryCount : nat) : Async JsVal :=
  match fuel with
  | O => out_of_fuel
  | S fuel' =>
      try_catch
        (let* token := await obterToken in
         http EvQuery)
        (fun erro =>
           if status_is erro 401 || status_is erro 403 then
             sync (set_cachedToken JNull) ;;
             if (retryCount <? 1)%nat then
               sleep 500 ;;
               await (fazerRequisicaoAutenticada_rec fuel' (S retryCount))
             else
               throw (Error "Sessão expirada. Tente novamente.")
           else if (code_is erro "ECONNABORTED" || code_is erro "ENOTFOUND"
                    || status_ge_500 erro)
                   && (retryCount <? REQ_MAX_RETRIES)%nat then
             sleep (REQ_RETRY_DELAY * (Z.of_nat retryCount + 1)) ;;
             await (fazerRequisicaoAutenticada_rec fuel' (S retryCount))
           else if code_is erro "ECONNABORTED" then
             throw (Error "Tempo de resposta excedido. Tente novamente.")
           else if status_ge_500 erro then
             throw (Error "Serviço temporariamente indisponível. Tente novamente.")
           else
             throw (Error (String_
               (or_else (opt_member (response_data erro) "statusMessage")
                  (or_else (JStr (message erro))
                           (JStr "Erro na comunicação com o servidor"))))))
  end.

Definition fazerRequisicaoAutenticada_from (retryCount : nat) : Async JsVal :=
  fazerRequisicaoAutenticada_rec (S (REQ_MAX_RETRIES - retryCount)) retryCount.

Definition fazerRequisicaoAutenticada : Async JsVal :=
  fazerRequisicaoAutenticada_from 0.

(** *** Buscar Preço do Produto via API *)

Fixpoint buscarPrecoProduto_rec (fuel : nat) (codProd : string) (retryCount : nat)
  : Async JsVal :=
  (* Verificar cache primeiro (TTL: 10 minutos) *)
  let cacheKey := "preco:" +:+ codProd in
  let* cachedPrice := sync (cache_get cacheKey) in
  if not_null cachedPrice then ret cachedPrice
  else
    match fuel with
    | O => out_of_fuel
    | S fuel' =>
        try_catch
          (let* token := await obterToken in
           let* data := http (EvPreco codProd) in
           (* Extrair o preço da resposta *)
           let* preco := sync (extrair_preco data) in
           (* Salvar no cache (TTL: 10 minutos) *)
           sync (cache_set cacheKey (JNum preco) (Some PRECO_TTL)) ;;
           ret (JNum preco))
          (fun erro =>
             let auth := status_is erro 401 || status_is erro 403 in
             (* Se token expirou, limpar cache e tentar novamente *)
             (if auth then sync (set_cachedToken JNull) else ret tt) ;;
             if auth && (retryCount <? 1)%nat then
               sleep 500 ;;
               await (buscarPrecoProduto_rec fuel' codProd (S retryCount))
             (* Retry para erros temporários *)
             else if (code_is erro "ECONNABORTED" || status_ge_500 erro)
                     && (retryCount <? PRECO_MAX_RETRIES)%nat then
               sleep 500 ;;
               await (buscarPrecoProduto_rec fuel' codProd (S retryCount))
             else ret (JNum 0%float))
    end.

Definition buscarPrecoProduto_from (codProd : string) (retryCount : nat) : Async JsVal :=
  buscarPrecoProduto_rec (S (PRECO_MAX_RETRIES - retryCount)) codProd retryCount.

(** [buscarPrecoProduto(codProd, retryCount = 0)] *)
Definition buscarPrecoProduto (codProd : string) : Async JsVal :=
  buscarPrecoProduto_from codProd 0.

(** *** Consultar Estoque de um Produto *)

Definition consultarEstoqueProduto (codProd searchLocal : string) : Async JsVal :=
  (* Verificar cache primeiro (TTL: 5 minutos) *)
  let cacheKey := "estoque:" +:+ codProd +:+ ":" +:+ searchLocal in
  let* cachedEstoque := sync (cache_get cacheKey) in
  if not_null cachedEstoque then ret cachedEstoque
  else
    let* respostaCompleta := await fazerRequisicaoAutenticada in
    if negb (truthy (entities_of respostaCompleta)) then ret estoque_vazio
    else
      let entities := entities_of respostaCompleta in
      if negb (truthy entities) || negb (truthy (member entities "entity")) then
        ret estoque_vazio
      else
        let* listaEstoquesLimpa := sync (mapearEntidades Number_toString entities) in
        let resultado :=
          JObj [("estoques", JArr listaEstoquesLimpa);
                ("total", num (Z.of_nat (length listaEstoquesLimpa)));
                ("estoqueTotal", JNum (estoqueTotal listaEstoquesLimpa))] in
        (* Salvar no cache (TTL: 5 minutos) *)
        sync (cache_set cacheKey resultado (Some ESTOQUE_TTL)) ;;
        ret resultado.

End Env.

(** The world at the time [t], or now when that is later. *)
Definition at_time (t : Z) (w : World) : World :=
  mkWorld (cachedToken w) (cache w) (Z.max (now w) t) (calls w) (trace w).

(** A call that nothing else runs beside: each wait lasts as long as the
    thing waited for. *)
Fixpoint alone {A} (r : Run A) : Res A * World :=
  match r with
  | Settled res w => (res, w)
  | Awaiting d w k => alone (k (at_time (now w + d) w))
  end.

End Async.

(* ===================================================================== *)
(** ** The event loop: calls in progress side by side *)
(* ===================================================================== *)

Module EventLoop.

Import ProdutosService.
Import Async(Run, Settled, Awaiting, at_time).

(** A call that was started: it has settled, or it is parked until the time
    [wake]; [turn] is the turn of the loop in which it was parked. *)
Inductive Task (A : Type) : Type :=
| Done (r : Res A)
| Parked (wake : Z) (turn : nat) (k : World -> Run A).
Arguments Done {A} r.
Arguments Parked {A} wake turn k.

(** The module state, the calls started so far in the order in which they
    were started, and the number of turns taken. *)
Record Loop : Type := mkLoop {
  world : World;
  tasks : list (Task JsVal);
  turns : nat
}.

(** A process in which nothing has been started. *)
Definition idle (w : World) : Loop := mkLoop w [] 0.

(** Which wait is over first is decided by the network and the timers, not
    by the program: a scheduler gives, for the turn of the loop and the waits
    at hand - in the order of [tasks], each with the time it can end at and
    the turn in which it began - the position of the one that goes on. A
    position past the end counts from the start again. *)
Definition Scheduler : Type := nat -> list (Z * nat) -> nat.

(** [a] wakes before [b]: at an earlier time or, at the same time, parked
    in an earlier turn. *)
Definition before (a b : Z * nat) : bool :=
  (a.1 <? b.1) || ((a.1 =? b.1) && (a.2 <? b.2)%nat).

Fixpoint earliest_from (best : nat) (key : Z * nat) (i : nat) (l : list (Z * nat)) : nat :=
  match l with
  | [] => best
  | k :: rest =>
      if before k key then earliest_from i k (S i) rest
      else earliest_from best key (S i) rest
  end.

(** The scheduler of a process in which every wait lasts exactly as long as
    the thing waited for, and calls that can go on at the same time do so in
    the order in which they were parked. *)
Definition earliest : Scheduler :=
  fun _ l =>
    match l with
    | [] => 0%nat
    | k :: rest => earliest_from 0 k 1 rest
    end.

(** The code that drives the loop: it starts calls, waits for them and for
    timers. *)
Definition P (A : Type) : Type := Loop -> Res A * Loop.

Definition ret {A} (a : A) : P A := fun st => (Ret a, st).
Definition throw {A} (e : Exn) : P A := fun st => (Throw e, st).

Definition bind {A B} (m : P A) (k : A -> P B) : P B :=
  fun st =>
    match m st with
    | (Ret a, st') => k a st'
    | (Throw e, st') => (Throw e, st')
    | (OutOfFuel, st') => (OutOfFuel, st')
    end.

(** [try { m } catch (erro) { handler erro }] *)
Definition try_catch {A} (m : P A) (handler : Exn -> P A) : P A :=
  fun st =>
    match m st with
    | (Throw e, st') => handler e st'
    | r => r
    end.

(** Code without an [await]. *)
Definition sync {A} (m : M A) : P A :=
  fun st =>
    let '(r, w) := m (world st) in
    (r, mkLoop w (tasks st) (turns st)).

Declare Scope loop_scope.
Delimit Scope loop_scope with loop.
Notation "'let*' x ':=' m 'in' k" := (bind m (fun x => k))
  (at level 10, x pattern, m at level 100, k at level 200) : loop_scope.
Notation "m ';;' k" := (bind m (fun _ => k))
  (at level 100, k at level 200, right associativity) : loop_scope.
Local Open Scope loop_scope.

(** A call as it stands after a run: settled, or parked in turn [turn]. *)
Definition park {A} (turn : nat) (r : Run A) : Task A * World :=
  match r with
  | Settled res w => (Done res, w)
  | Awaiting d w k => (Parked (now w + d) turn k, w)
  end.

(** Calling an [async] function: the call runs to its first [await] and
    what is returned is its promise, here its position in [tasks]. *)
Definition start (m : Async.Async JsVal) : P nat :=
  fun st =>
    let '(t, w) := park (turns st) (m (world st)) in
    (Ret (length (tasks st)), mkLoop w (tasks st ++ [t]) (S (turns st))).

(** The parked calls from position [i] on: position, time to wake at and
    turn of parking. *)
Fixpoint parked (i : nat) (ts : list (Task JsVal)) : list (nat * (Z * nat)) :=
  match ts with
  | [] => []
  | Done _ :: rest => parked (S i) rest
  | Parked wake turn _ :: rest => (i, (wake, turn)) :: parked (S i) rest
  end.

(** One turn of the loop for the call at position [id]: it goes on, not
    before the time it waited for, and runs to its next [await]. *)
Definition resume (id : nat) (st : Loop) : Loop :=
  match tasks st !! id with
  | Some (Parked wake _ k) =>
      let '(t, w) := park (turns st) (k (at_time wake (world st))) in
      mkLoop w (<[id := t]> (tasks st)) (S (turns st))
  | _ => st
  end.

Section Scheduled.

Variable sched : Scheduler.

(** What goes on next, among the parked calls and the waits [more] of the
    driving code: its position, [None] when nothing waits. *)
Definition next (more : list (nat * (Z * nat))) (st : Loop) : option nat :=
  let waiting := parked 0 (tasks st) ++ more in
  match waiting with
  | [] => None
  | _ => fst <$> waiting !! (sched (turns st) waiting.*2 mod length waiting)%nat
  end.

(** What [Promise.all] of two promises has come to: both values once both
    calls have returned, the first rejection as soon as there is one. *)
Definition all_settled (p s : option (Task JsVal)) : option (Res (JsVal * JsVal)) :=
  match p, s with
  | Some (Done (Ret a)), Some (Done (Ret b)) => Some (Ret (a, b))
  | Some (Done (Throw e)), _ => Some (Throw e)
  | _, Some (Done (Throw e)) => Some (Throw e)
  | Some (Done OutOfFuel), _ | _, Some (Done OutOfFuel) => Some OutOfFuel
  | None, _ | _, None => Some OutOfFuel
  | _, _ => None
  end.

(** [Promise.all([p, s])] until it settles: the loop takes turns, each with
    a parked call, whichever they are. A call that is still parked when
    [Promise.all] rejects stays in the loop. *)
Fixpoint Promise_all (fuel : nat) (p s : nat) : P (JsVal * JsVal) :=
  fun st =>
    match all_settled (tasks st !! p) (tasks st !! s) with
    | Some r => (r, st)
    | None =>
        match fuel with
        | O => (OutOfFuel, st)
        | S fuel' =>
            match next [] st with
            | Some id => Promise_all fuel' p s (resume id st)
            | None => (OutOfFuel, st)
            end
        end
    end.

(** The driving code waits until the time [wake]; it was parked in turn
    [turn]. The loop takes turns with the parked calls until the turn is
    that of the driving code. *)
Fixpoint wait (fuel : nat) (wake : Z) (turn : nat) : P unit :=
  fun st =>
    match fuel with
    | O => (OutOfFuel, st)
    | S fuel' =>
        let me := length (tasks st) in
        match next [(me, (wake, turn))] st with
        | Some id =>
            if (id <? me)%nat then wait fuel' wake turn (resume id st)
            else (Ret tt, mkLoop (at_time wake (world st)) (tasks st) (S (turns st)))
        | None => (OutOfFuel, st)
        end
    end.

(** The bound on the turns of the loop that one wait is given; the calls of
    one request never need as many. *)
Definition TURNS : nat := 2000.

(** [await new Promise(resolve => setTimeout(resolve, ms))] in the driving
    code. *)
Definition sleep (ms : Z) : P unit :=
  fun st =>
    let w := world st in
    wait TURNS (now w + ms) (turns st)
         (mkLoop (mkWorld (cachedToken w) (cache w) (now w) (calls w)
                          (EvSleep ms :: trace w))
                 (tasks st) (S (turns st))).

(** The turn of the loop between the settling of a promise and the code
    that awaits it. *)
Definition tick : P unit :=
  fun st => wait TURNS (now (world st)) (turns st)
                 (mkLoop (world st) (tasks st) (S (turns st))).

(** [await m] in the driving code, for a promise [m] that has settled. *)
Definition await {A} (m : P A) : P A :=
  fun st =>
    let '(r, st1) := m st in
    match tick st1 with
    | (Ret _, st2) => (r, st2)
    | (Throw e, st2) => (Throw e, st2)
    | (OutOfFuel, st2) => (OutOfFuel, st2)
    end.

End Scheduled.

End EventLoop.

(* ===================================================================== *)
(** ** [produtos/batch-info/route.ts] *)
(* ===================================================================== *)

Module BatchInfo.

Import ProdutosService EventLoop.
Local Open Scope loop_scope.

(** [NextResponse.json(body, { status })] *)
Record Response : Type := mkHttp {
  http_status : Z;
  json : JsVal
}.

Section Route.

Variable net : nat -> Exchange.
Variable Number_toString : float -> string.
Variable sched : Scheduler.

Abbreviation String_ := (js_String Number_toString).

(** [{ preco: preco || 0, estoque: estoque.estoqueTotal || 0 }] *)
Definition entry (preco estoqueTotal : JsVal) : JsVal :=
  JObj [("preco", or_else preco (num 0)); ("estoque", or_else estoqueTotal (num 0))].

(** [{ preco: 0, estoque: 0, error: true }] *)
Definition entry_error : JsVal :=
  JObj [("preco", num 0); ("estoque", num 0); ("error", JBool true)].

(** [await Promise.all([buscarPrecoProduto(codProd, 0, true),
    consultarEstoqueProduto(codProd, '', true)])]: both lookups are started,
    the price lookup first, each running to its first [await]; from then on
    they take turns. Both functions use [codProd] only inside template
    literals, that is as [String(codProd)]. *)
Definition fetch_both (codProd : string) : P (JsVal * JsVal) :=
  let* preco := start (Async.buscarPrecoProduto net Number_toString codProd) in
  let* estoque := start (Async.consultarEstoqueProduto net Number_toString codProd "") in
  await sched (Promise_all sched TURNS preco estoque).

(** The body of the [for] loop, for [codProd = codigos[i]]. *)
Definition batch_item (codProd : JsVal) (i limit : nat)
           (results : list (string * JsVal)) : P (list (string * JsVal)) :=
  let key := String_ codProd in
  try_catch
    (let* pe := fetch_both key in
     let* total := sync (prop (snd pe) "estoqueTotal") in
     let results := obj_set key (entry (fst pe) total) results in
     (* Pequeno delay entre produtos *)
     (if Z.of_nat i <? Z.of_nat limit - 1 then sleep sched 100 else ret tt) ;;
     ret results)
    (fun _ => ret (obj_set key entry_error results)).

(** [for (let i = 0; i < limit; i++)], from [i] on, with [todo] turns
    left to go. *)
Fixpoint batch_loop (todo i limit : nat) (codigos : list JsVal)
         (results : list (string * JsVal)) : P (list (string * JsVal)) :=
  match todo with
  | O => ret results
  | S todo' =>
      let codProd := nth i codigos JUndefined in
      let* results := batch_item codProd i limit results in
      batch_loop todo' (S i) limit codigos results
  end.

(** [POST(request)], for the parsed JSON body of the request. *)
Definition POST (requestBody : JsVal) : P Response :=
  try_catch
    (tick sched ;;    (* await request.json() *)
     let* codigos :=
       if nullish requestBody then
         throw (Error "Cannot destructure property 'codigos' of '(intermediate value)' as it is null.")
       else ret (member requestBody "codigos") in
     match codigos with
     | JArr l =>
         (* Processar em lote com limite *)
         let limit := Nat.min (length l) 10 in
         let* results := batch_loop limit 0 limit l [] in
         ret (mkHttp 200 (JObj results))
     | _ =>
         ret (mkHttp 400 (JObj [("error", JStr "Códigos de produtos são obrigatórios")]))
     end)
    (fun error =>
       ret (mkHttp 500
              (JObj [("error", or_else (JStr (message error))
                                       (JStr "Erro ao buscar informações"))]))).

End Route.

End BatchInfo.

(* ===================================================================== *)
(** * Properties *)
(* ===================================================================== *)

Section ParseFloatExamples.

Example parseFloat_3 : parseFloat (JStr "3") = 3%float.
Proof. reflexivity. Qed.

Example parseFloat_2_5 : parseFloat (JStr "2.5") = 2.5%float.
Proof. reflexivity. Qed.

Example parseFloat_12_50 : parseFloat (JStr "12.50") = 12.5%float.
Proof. reflexivity. Qed.

Example parseFloat_abc : parseFloat (JStr "abc") = nan.
Proof. reflexivity. Qed.

(** White space before the number is dropped, also outside ASCII: a
    no-break space (U+00A0), a byte order mark (U+FEFF), a line separator
    (U+2028) and a tab before ["12.5"]. *)
Example parseFloat_unicode_space :
  let b (n : Z) := String (ascii_of_nat (Z.to_nat n)) in
  parseFloat (JStr (b 194 (b 160 "12.5"))) = 12.5%float ∧
  parseFloat (JStr (b 239 (b 187 (b 191 "12.5")))) = 12.5%float ∧
  parseFloat (JStr (b 226 (b 128 (b 168 (b 9 "12.5"))))) = 12.5%float ∧
  parseFloat (JStr (b 226 (b 128 (b 139 "12.5")))) = nan.
Proof. vm_compute. repeat split. Qed.

End ParseFloatExamples.


(* ===================================================================== *)
(** ** The response cache *)
(* ===================================================================== *)

Section CacheFacts.

Import CacheService.

Lemma ttl_or_default_nonzero (t : Z) : t ≠ 0 → ttl_or_default (Some t) = t.
Proof.
  intros Ht. unfold ttl_or_default.
  destruct (Z.eqb_spec t 0); [contradiction | reflexivity].
Qed.

(** A read of [k] directly after a write of [k] compares the age of the
    entry with the ttl that was stored. *)
Lemma get_set_same (now now' : Z) (k : string) (v : JsVal) (t : option Z)
      (c : gmap string CacheEntry) :
  get now' k (set now k v t c) =
    if now' - now >? ttl_or_default t
    then (JNull, base.delete k c)
    else (v, set now k v t c).
Proof.
  unfold get, set. rewrite lookup_insert_eq. simpl.
  destruct (now' - now >? ttl_or_default t); [|reflexivity].
  by rewrite delete_insert_eq.
Qed.

(** Whatever [get] returns other than [null] is the data of an entry of the
    map whose age does not exceed its ttl. *)
Lemma get_fresh (now : Z) (k : string) (c : gmap string CacheEntry) (d : JsVal) :
  (get now k c).1 = d → d ≠ JNull →
  ∃ e, c !! k = Some e ∧ data e = d ∧ now - timestamp e <= ttl e.
Proof.
  unfold get. destruct (c !! k) as [e|] eqn:He; simpl; [|congruence].
  destruct (Z.gtb_spec (now - timestamp e) (ttl e)); simpl; [congruence|].
  intros <- _. exists e. split; [done|]. split; [done | lia].
Qed.

(** [get] never adds or changes an entry: it returns the map it was given, or
    that map without the key it was asked for. *)
Lemma get_store (now : Z) (k : string) (c : gmap string CacheEntry) :
  (get now k c).2 = c ∨ (get now k c).2 = base.delete k c.
Proof.
  unfold get. destruct (c !! k) as [e|]; [|by left].
  destruct (_ >? _); [by right | by left].
Qed.

Lemma get_miss (now : Z) (k : string) (c : gmap string CacheEntry) :
  c !! k = None → get now k c = (JNull, c).
Proof. intros H. unfold get. by rewrite H. Qed.

(** The claim as the specification words it, for every ttl. *)
Definition get_after_set_any_ttl : Prop :=
  ∀ (k : string) (v : JsVal) (t now now' : Z) (c : gmap string CacheEntry),
    (now' - now < t → (get now' k (set now k v (Some t) c)).1 = v) ∧
    (now' - now > t → (get now' k (set now k v (Some t) c)).1 = JNull).

(** C1, counterexample: written with ttl 0 at time 0, the value is still
    returned at time 1, although more than 0 ms have elapsed; so the claim
    does not hold for every ttl. *)
Lemma get_after_set_zero_ttl :
  1 - 0 > 0 ∧
  (get 1 "k" (set 0 "k" (JStr "x") (Some 0) ∅)).1 = JStr "x" ∧
  ¬ get_after_set_any_ttl.
Proof.
  split; [lia|]. split; [reflexivity|].
  intros H. destruct (H "k" (JStr "x") 0 0 1 ∅) as [_ H1].
  specialize (H1 ltac:(lia)). vm_compute in H1. discriminate.
Qed.

(** C1 (amended): after [set(k, v, t)] with a ttl [t] other than 0,
    [get(k)] returns [v] as long as no more than [t] ms have elapsed since
    the write, and returns [null] (removing the entry) once more than [t] ms
    have elapsed; when the ttl is omitted the same holds with the default of
    5 minutes; and no [get] returns the data of an entry older than the ttl
    stored with it. *)
Theorem get_after_set (k : string) (v : JsVal) (t now now' : Z)
        (c : gmap string CacheEntry) :
  t ≠ 0 →
  (now' - now <= t →
     get now' k (set now k v (Some t) c) = (v, set now k v (Some t) c)) ∧
  (now' - now > t →
     get now' k (set now k v (Some t) c) = (JNull, base.delete k c)) ∧
  (now' - now <= 5 * 60 * 1000 →
     get now' k (set now k v None c) = (v, set now k v None c)) ∧
  (now' - now > 5 * 60 * 1000 →
     get now' k (set now k v None c) = (JNull, base.delete k c)) ∧
  (∀ k' d, (get now' k' (set now k v (Some t) c)).1 = d → d ≠ JNull →
     ∃ e, set now k v (Some t) c !! k' = Some e ∧ data e = d ∧
          now' - timestamp e <= ttl e).
Proof.
  intros Ht. rewrite !get_set_same, (ttl_or_default_nonzero t Ht). simpl.
  change defaultTTL with 300000. change (5 * 60 * 1000) with 300000.
  repeat split.
  - intros H. destruct (Z.gtb_spec (now' - now) t); [lia | reflexivity].
  - intros H. destruct (Z.gtb_spec (now' - now) t); [reflexivity | lia].
  - intros H. destruct (Z.gtb_spec (now' - now) 300000); [lia | reflexivity].
  - intros H. destruct (Z.gtb_spec (now' - now) 300000); [reflexivity | lia].
  - intros k' d. apply get_fresh.
Qed.

Lemma get_after_set_witness :
  600000 ≠ 0 ∧
  (get 1599999 "preco:7" (set 1000000 "preco:7" (JNum 12.5) (Some 600000) ∅)).1
    = JNum 12.5 ∧
  (get 1600001 "preco:7" (set 1000000 "preco:7" (JNum 12.5) (Some 600000) ∅)).1
    = JNull.
Proof.
  pose proof (get_after_set "preco:7" (JNum 12.5) 600000 1000000 1599999 ∅
                ltac:(lia)) as (Ha & _).
  pose proof (get_after_set "preco:7" (JNum 12.5) 600000 1000000 1600001 ∅
                ltac:(lia)) as (_ & Hb & _).
  split; [lia|]. split.
  - rewrite Ha; [reflexivity | lia].
  - rewrite Hb; [reflexivity | lia].
Defined.

(** *** [includes] is literal containment *)



(** *** The loop of [invalidatePattern] *)

Lemma invalidate_fold (p : string) (l : list string) :
  ∀ (n : nat) (c : gmap string CacheEntry),
    NoDup l → (∀ k, k ∈ l → is_Some (c !! k)) →
    let r := foldl (invalidate_step p) (n, c) l in
    (∀ k, r.2 !! k = if bool_decide (k ∈ l) && includes k p then None else c !! k) ∧
    (r.1 + size r.2 = n + size c)%nat.
Proof.
  induction l as [|a l IH]; intros n c Hnd Hin; cbn [foldl].
  - split; [|done]. intros k. cbn [fst snd].
    case_bool_decide as Hk; [set_solver | done].
  - apply NoDup_cons in Hnd as [Ha Hnd].
    change (invalidate_step p (n, c) a)
      with (if includes a p then (S n, base.delete a c) else (n, c)).
    destruct (includes a p) eqn:Hap.
    + destruct (IH (S n) (base.delete a c) Hnd) as [Hl Hs].
      { intros k Hk. rewrite lookup_delete_ne; [apply Hin; set_solver|].
        intros ->. contradiction. }
      split.
      * intros k. rewrite Hl. destruct (decide (k = a)) as [->|Hne].
        -- rewrite lookup_delete_eq.
           case_bool_decide; case_bool_decide; try set_solver;
             rewrite ?Hap; by cbn.
        -- rewrite lookup_delete_ne by done.
           case_bool_decide; case_bool_decide; try set_solver; done.
      * rewrite Hs. destruct (Hin a ltac:(set_solver)) as [e He].
        rewrite (map_size_delete_Some a c) by eauto.
        pose proof (map_size_ne_0_lookup_2 c a (ex_intro _ e He)). lia.
    + destruct (IH n c Hnd) as [Hl Hs].
      { intros k Hk. apply Hin. set_solver. }
      split; [|done].
      intros k. rewrite Hl. destruct (decide (k = a)) as [->|Hne].
      * rewrite Hap. by rewrite !andb_false_r.
      * case_bool_decide; case_bool_decide; try set_solver; done.
Qed.

Lemma invalidate_keys (p : string) (n : nat) (c : gmap string CacheEntry) :
  let r := foldl (invalidate_step p) (n, c) (map_to_list c).*1 in
  (∀ k, r.2 !! k = if includes k p then None else c !! k) ∧
  (r.1 + size r.2 = n + size c)%nat.
Proof.
  destruct (invalidate_fold p (map_to_list c).*1 n c) as [Hl Hs].
  - apply NoDup_fst_map_to_list.
  - intros k Hk. apply list_elem_of_fmap in Hk as ([k' e] & -> & Hk).
    apply elem_of_map_to_list in Hk. eauto.
  - split; [|exact Hs]. intros k. rewrite Hl.
    destruct (includes k p); [|by rewrite andb_false_r].
    rewrite andb_true_r. case_bool_decide as Hk; [done|].
    destruct (c !! k) as [e|] eqn:He; [|done].
    exfalso. apply Hk. apply list_elem_of_fmap. exists (k, e).
    split; [done|]. by apply elem_of_map_to_list.
Qed.







End CacheFacts.

(* ===================================================================== *)
(** ** The token manager *)
(* ===================================================================== *)

Section TokenFacts.

Import ProdutosService.
Local Open Scope js_scope.

Variable net : nat -> Exchange.
Variable Number_toString : float -> string.

Local Abbreviation obterToken_rec := (ProdutosService.obterToken_rec net Number_toString).
Local Abbreviation obterToken := (ProdutosService.obterToken net Number_toString).
Local Abbreviation called := (ProdutosService.called net).

(** What one login exchange amounts to inside the [try] block of
    [obterToken]: the credential it carries, or the error that reaches the
    [catch]. *)
Definition login_outcome (x : Exchange) : Exn + JsVal :=
  match reply x with
  | Rejected e => inl e
  | Resolved d =>
      if nullish d then inl (TypeError_read d "bearerToken")
      else
        let token := or_else (member d "bearerToken") (member d "token") in
        if truthy token then inr token
        else inl (Error "Resposta de login do Sankhya não continha o token esperado.")
  end.

(** The upstream message of an error: [erro.response?.data?.error || erro.message]. *)
Definition upstream_message (erro : Exn) : string :=
  js_String Number_toString
    (or_else (opt_member (response_data erro) "error") (JStr (message erro))).

(** What [obterToken] throws for the error [erro] once it gives up. *)
Definition login_failure (erro : Exn) : Exn :=
  if status_is erro 500 then
    Error "Serviço Sankhya temporariamente indisponível. Tente novamente em instantes."
  else Error ("Falha na autenticação Sankhya: " +:+ upstream_message erro).

(** The error carries no HTTP status from 500 to 599. *)
Definition not_5xx (erro : Exn) : Prop :=
  match response erro with
  | Some r => status r < 500 ∨ 599 < status r
  | None => True
  end.

(** The world after [j] login calls, each followed by the back-off of
    [obterToken], the first of them made with [retryCount = rc]. *)
Fixpoint after_500s (j rc : nat) (w : World) : World :=
  match j with
  | O => w
  | S j' =>
      after_500s j' (S rc)
        (slept (LOGIN_RETRY_DELAY * (Z.of_nat rc + 1)) (called EvLogin w))
  end.

(** The delays of the timers in a trace, most recent first. *)
Fixpoint sleeps (t : list Event) : list Z :=
  match t with
  | [] => []
  | EvSleep ms :: t' => ms :: sleeps t'
  | _ :: t' => sleeps t'
  end.

(** The HTTP calls in a trace, most recent first. *)
Fixpoint http_calls (t : list Event) : list Event :=
  match t with
  | [] => []
  | EvSleep _ :: t' => http_calls t'
  | ev :: t' => ev :: http_calls t'
  end.

Lemma obterToken_rec_cached (fuel rc : nat) (w : World) :
  truthy (cachedToken w) = true → obterToken_rec fuel rc w = (Ret (cachedToken w), w).
Proof. intros H. destruct fuel; simpl; by rewrite H. Qed.

(** One call of [obterToken] without a cached credential. *)
Lemma obterToken_rec_step (fuel rc : nat) (w : World) :
  truthy (cachedToken w) = false →
  obterToken_rec (S fuel) rc w =
    match login_outcome (net (calls w)) with
    | inr token => (Ret token, with_token token (called EvLogin w))
    | inl erro =>
        if status_is erro 500 && (rc <? LOGIN_MAX_RETRIES)%nat
        then obterToken_rec fuel (S rc)
               (slept (LOGIN_RETRY_DELAY * (Z.of_nat rc + 1)) (called EvLogin w))
        else (Throw (login_failure erro), with_token JNull (called EvLogin w))
    end.
Proof.
  intros Hno. cbn [ProdutosService.obterToken_rec]. rewrite Hno.
  unfold try_catch, bind, http, login_outcome.
  destruct (reply (net (calls w))) as [d|e].
  - unfold prop. destruct (nullish d) eqn:Hd; cbn [throw ret].
    + unfold login_failure, upstream_message, sleep, set_cachedToken, throw.
      destruct (status_is _ 500 && _); [reflexivity|].
      destruct (status_is _ 500); reflexivity.
    + destruct (truthy (or_else _ _)) eqn:Ht; cbn [negb].
      * reflexivity.
      * unfold login_failure, upstream_message, sleep, set_cachedToken, throw.
        cbn. reflexivity.
  - unfold login_failure, upstream_message, sleep, set_cachedToken, throw.
    destruct (status_is e 500 && _); [reflexivity|].
    destruct (status_is e 500); reflexivity.
Qed.

Lemma after_500s_fields (j : nat) :
  ∀ rc w,
    cachedToken (after_500s j rc w) = cachedToken w ∧
    cache (after_500s j rc w) = cache w ∧
    calls (after_500s j rc w) = (calls w + j)%nat.
Proof.
  induction j as [|j IH]; intros rc w; cbn [after_500s].
  - repeat split. lia.
  - destruct (IH (S rc) (slept (LOGIN_RETRY_DELAY * (Z.of_nat rc + 1)) (called EvLogin w)))
      as (-> & -> & ->).
    repeat split. cbn. lia.
Qed.

Lemma after_500s_sleeps (j : nat) :
  ∀ rc w,
    sleeps (trace (after_500s j rc w))
    = (map (λ a, LOGIN_RETRY_DELAY * Z.of_nat a) (rev (seq (S rc) j))
       ++ sleeps (trace w))%list.
Proof.
  induction j as [|j IH]; intros rc w; cbn [after_500s].
  - reflexivity.
  - rewrite IH.
    replace (rev (seq (S rc) (S j))) with (rev (seq (S (S rc)) j) ++ [S rc])%list
      by reflexivity.
    rewrite map_app, <- app_assoc. f_equal. cbn. f_equal. f_equal. lia.
Qed.

Lemma after_500s_http_calls (j : nat) :
  ∀ rc w,
    http_calls (trace (after_500s j rc w))
    = (repeat EvLogin j ++ http_calls (trace w))%list.
Proof.
  induction j as [|j IH]; intros rc w; cbn [after_500s].
  - reflexivity.
  - rewrite IH. cbn. change (EvLogin :: http_calls (trace w))
      with ([EvLogin] ++ http_calls (trace w)).
    rewrite app_assoc. f_equal. by rewrite <- repeat_cons.
Qed.

(** [j] login calls answered with HTTP 500 are each retried after the
    back-off, as long as the retry count stays below the maximum. *)
Lemma obterToken_rec_retries (j : nat) :
  ∀ fuel rc w,
    truthy (cachedToken w) = false →
    (rc + j <= LOGIN_MAX_RETRIES)%nat →
    (∀ i, (i < j)%nat →
       ∃ e, login_outcome (net (calls w + i)) = inl e ∧ status_is e 500 = true) →
    obterToken_rec (j + fuel) rc w = obterToken_rec fuel (rc + j) (after_500s j rc w).
Proof.
  induction j as [|j IH]; intros fuel rc w Hno Hle H500.
  - cbn. by rewrite Nat.add_0_r.
  - cbn [Nat.add after_500s]. rewrite obterToken_rec_step by done.
    destruct (H500 0%nat ltac:(lia)) as (e & He & Hs). rewrite Nat.add_0_r in He.
    rewrite He, Hs. cbn [andb].
    destruct (Nat.ltb_spec rc LOGIN_MAX_RETRIES); [|lia].
    rewrite IH.
    + f_equal. lia.
    + exact Hno.
    + lia.
    + intros i Hi. destruct (H500 (S i) ltac:(lia)) as (e' & He' & Hs').
      exists e'. split; [|done]. cbn [calls slept ProdutosService.called].
      by replace (S (calls w) + i)%nat with (calls w + S i)%nat by lia.
Qed.

Lemma not_5xx_not_500 (e : Exn) : not_5xx e → status_is e 500 = false.
Proof.
  unfold not_5xx, status_is. destruct (response e) as [r|]; [|done].
  intros H. apply Z.eqb_neq. lia.
Qed.

(** C3 (amended): with no cached credential, a login answered with HTTP 500
    is retried, at most 3 times, the k-th retry after a wait of k times the
    base delay of 1000 ms. If the login number [j] (counting from 0, after
    [j] answers of 500) succeeds, the new credential is cached and returned.
    If it fails otherwise than by an HTTP 5xx, the cached credential is
    cleared and the error thrown carries the upstream message. If the login
    after the third retry is answered with 500 again, the cached credential
    is cleared and the error thrown is the fixed "temporarily unavailable"
    message. *)
Theorem obterToken_policy (w : World) (j : nat) :
  truthy (cachedToken w) = false →
  (j <= 3)%nat →
  (∀ i, (i < j)%nat →
     ∃ e, login_outcome (net (calls w + i)) = inl e ∧ status_is e 500 = true) →
  let wj := after_500s j 0 w in
  let w_end := called EvLogin wj in
  (cache wj = cache w ∧ calls wj = (calls w + j)%nat ∧
   http_calls (trace wj) = (repeat EvLogin j ++ http_calls (trace w))%list ∧
   sleeps (trace wj)
   = (map (λ k, 1000 * Z.of_nat k) (rev (seq 1 j)) ++ sleeps (trace w))%list) ∧
  (∀ token, login_outcome (net (calls w + j)) = inr token →
     obterToken w = (Ret token, with_token token w_end)) ∧
  (∀ e, login_outcome (net (calls w + j)) = inl e → not_5xx e →
     obterToken w =
       (Throw (Error ("Falha na autenticação Sankhya: " +:+ upstream_message e)),
        with_token JNull w_end)) ∧
  (j = 3%nat → ∀ e, login_outcome (net (calls w + j)) = inl e → status_is e 500 = true →
     obterToken w =
       (Throw (Error "Serviço Sankhya temporariamente indisponível. Tente novamente em instantes."),
        with_token JNull w_end)).
Proof.
  intros Hno Hj H500 wj w_end.
  destruct (after_500s_fields j 0 w) as (Htok & Hcache & Hcalls).
  assert (Hrun : obterToken w = obterToken_rec (S (3 - j)) j wj).
  { unfold ProdutosService.obterToken, ProdutosService.obterToken_from.
    change (S (LOGIN_MAX_RETRIES - 0)) with 4%nat.
    replace 4%nat with (j + S (3 - j))%nat by lia.
    rewrite obterToken_rec_retries; [done | done | unfold LOGIN_MAX_RETRIES; lia | done]. }
  assert (Hnoj : truthy (cachedToken wj) = false) by (subst wj; by rewrite Htok).
  rewrite Hrun, obterToken_rec_step by done. fold wj in Hcalls. rewrite Hcalls.
  split; [|split; [|split]].
  - split; [done|]. split; [done|]. split.
    + apply after_500s_http_calls.
    + apply (after_500s_sleeps j 0 w).
  - intros token ->. reflexivity.
  - intros e -> Hnot. rewrite (not_5xx_not_500 e Hnot). cbn [andb].
    unfold login_failure. by rewrite (not_5xx_not_500 e Hnot).
  - intros -> e -> Hs. rewrite Hs. cbn. unfold login_failure. by rewrite Hs.
Qed.

(** What the code does with the other statuses from 501 to 599: like any
    status other than 500 they are not retried. *)
Lemma obterToken_not_500 (w : World) (e : Exn) :
  truthy (cachedToken w) = false →
  login_outcome (net (calls w)) = inl e →
  status_is e 500 = false →
  obterToken w =
    (Throw (Error ("Falha na autenticação Sankhya: " +:+ upstream_message e)),
     with_token JNull (called EvLogin w)).
Proof.
  intros Hno He Hs. unfold ProdutosService.obterToken, ProdutosService.obterToken_from.
  rewrite obterToken_rec_step by done. rewrite He, Hs. cbn [andb].
  unfold login_failure. by rewrite Hs.
Qed.

End TokenFacts.

(* ===================================================================== *)
(** ** Combinators: what every step of a computation preserves *)
(* ===================================================================== *)

Section MonadFacts.

Import ProdutosService.
Local Open Scope js_scope.

(** [m] preserves the relation [R] between the world before and after. *)
Definition keeps {A} (R : World -> World -> Prop) (m : M A) : Prop :=
  ∀ w, R w (m w).2.

(** [m] ends within the recursion depth given to the model. *)
Definition ends {A} (m : M A) : Prop :=
  ∀ w, (m w).1 ≠ OutOfFuel.

(** The cache is untouched and no HTTP call is taken back. *)
Definition cache_kept (w w' : World) : Prop :=
  cache w' = cache w ∧ (calls w <= calls w')%nat.

(** No HTTP call is taken back. *)
Definition calls_grow (w w' : World) : Prop := (calls w <= calls w')%nat.

#[global] Instance cache_kept_preorder : PreOrder cache_kept.
Proof.
  split.
  - intros w. split; [done | lia].
  - intros a b c [H1 H2] [H3 H4]. split; [congruence | lia].
Qed.

#[global] Instance calls_grow_preorder : PreOrder calls_grow.
Proof. split; unfold calls_grow; [intros w; lia | intros a b c; lia]. Qed.

Lemma bind_ret_eq {A B} (m : M A) (k : A -> M B) (w w' : World) (a : A) :
  m w = (Ret a, w') → bind m k w = k a w'.
Proof. intros H. unfold bind. by rewrite H. Qed.

Lemma bind_throw_eq {A B} (m : M A) (k : A -> M B) (w w' : World) (e : Exn) :
  m w = (Throw e, w') → bind m k w = (Throw e, w').
Proof. intros H. unfold bind. by rewrite H. Qed.

Lemma try_catch_ret_eq {A} (m : M A) (h : Exn -> M A) (w w' : World) (a : A) :
  m w = (Ret a, w') → try_catch m h w = (Ret a, w').
Proof. intros H. unfold try_catch. by rewrite H. Qed.

Lemma try_catch_throw_eq {A} (m : M A) (h : Exn -> M A) (w w' : World) (e : Exn) :
  m w = (Throw e, w') → try_catch m h w = h e w'.
Proof. intros H. unfold try_catch. by rewrite H. Qed.

Lemma prop_ok (v : JsVal) (k : string) (w : World) :
  nullish v = false → prop v k w = (Ret (member v k), w).
Proof. intros H. unfold prop. by rewrite H. Qed.

Context {R : World -> World -> Prop} `{!PreOrder R}.

Lemma keeps_ret {A} (a : A) : keeps R (ret a).
Proof. intros w. reflexivity. Qed.

Lemma keeps_throw {A} (e : Exn) : keeps R (@throw A e).
Proof. intros w. reflexivity. Qed.

Lemma keeps_out_of_fuel {A} : keeps R (@out_of_fuel A).
Proof. intros w. reflexivity. Qed.

Lemma keeps_bind {A B} (m : M A) (k : A -> M B) :
  keeps R m → (∀ a, keeps R (k a)) → keeps R (bind m k).
Proof.
  intros Hm Hk w. unfold bind. specialize (Hm w).
  destruct (m w) as [[a|e|] w1]; cbn in *; [|done|done].
  etransitivity; [exact Hm | apply Hk].
Qed.

Lemma keeps_try_catch {A} (m : M A) (h : Exn -> M A) :
  keeps R m → (∀ e, keeps R (h e)) → keeps R (try_catch m h).
Proof.
  intros Hm Hh w. unfold try_catch. specialize (Hm w).
  destruct (m w) as [[a|e|] w1]; cbn in *; [done| |done].
  etransitivity; [exact Hm | apply Hh].
Qed.

Lemma keeps_prop (v : JsVal) (k : string) : keeps R (prop v k).
Proof. unfold prop. destruct (nullish v); [apply keeps_throw | apply keeps_ret]. Qed.

Lemma ends_ret {A} (a : A) : ends (ret a).
Proof. intros w. discriminate. Qed.

Lemma ends_throw {A} (e : Exn) : ends (@throw A e).
Proof. intros w. discriminate. Qed.

Lemma ends_bind {A B} (m : M A) (k : A -> M B) :
  ends m → (∀ a, ends (k a)) → ends (bind m k).
Proof.
  intros Hm Hk w. unfold bind. specialize (Hm w).
  destruct (m w) as [[a|e|] w1]; cbn in *; [apply Hk | discriminate | done].
Qed.

Lemma ends_try_catch {A} (m : M A) (h : Exn -> M A) :
  ends m → (∀ e, ends (h e)) → ends (try_catch m h).
Proof.
  intros Hm Hh w. unfold try_catch. specialize (Hm w).
  destruct (m w) as [[a|e|] w1]; cbn in *; [discriminate | apply Hh | done].
Qed.

Lemma ends_prop (v : JsVal) (k : string) : ends (prop v k).
Proof. unfold prop. destruct (nullish v); [apply ends_throw | apply ends_ret]. Qed.

End MonadFacts.

(* ===================================================================== *)
(** ** The authenticated request executor *)
(* ===================================================================== *)

Section RequestFacts.

Import ProdutosService.
Local Open Scope js_scope.

Variable net : nat -> Exchange.
Variable Number_toString : float -> string.

Local Abbreviation obterToken_rec := (ProdutosService.obterToken_rec net Number_toString).
Local Abbreviation obterToken := (ProdutosService.obterToken net Number_toString).
Local Abbreviation fazerRequisicaoAutenticada_rec :=
  (ProdutosService.fazerRequisicaoAutenticada_rec net Number_toString).
Local Abbreviation fazerRequisicaoAutenticada :=
  (ProdutosService.fazerRequisicaoAutenticada net Number_toString).
Local Abbreviation http := (ProdutosService.http net).
Local Abbreviation called := (ProdutosService.called net).

(** The [try] block of [fazerRequisicaoAutenticada]: obtain the credential,
    then issue the request. *)
Definition req_attempt : M JsVal :=
  let* token := obterToken in http EvQuery.

(** [erro.response && (status === 401 || status === 403)] *)
Definition is_auth_failure (erro : Exn) : bool :=
  status_is erro 401 || status_is erro 403.

Lemma keeps_http (ev : Event) : keeps cache_kept (http ev).
Proof.
  intros w. unfold ProdutosService.http.
  destruct (reply (net (calls w))); (split; [done | cbn; lia]).
Qed.

Lemma keeps_sleep (ms : Z) : keeps cache_kept (sleep ms).
Proof. intros w. split; [done | cbn; lia]. Qed.

Lemma keeps_set_cachedToken (t : JsVal) : keeps cache_kept (set_cachedToken t).
Proof. intros w. split; [done | cbn; lia]. Qed.

Lemma ends_http (ev : Event) : ends (http ev).
Proof. intros w. unfold ProdutosService.http. by destruct (reply _). Qed.

(** [obterToken] leaves the response cache alone. *)
Lemma keeps_obterToken_rec (fuel : nat) : ∀ rc, keeps cache_kept (obterToken_rec fuel rc).
Proof.
  induction fuel as [|fuel IH]; intros rc w.
  - cbn. destruct (truthy (cachedToken w)); reflexivity.
  - destruct (truthy (cachedToken w)) eqn:Hc.
    + rewrite obterToken_rec_cached by done. reflexivity.
    + rewrite obterToken_rec_step by done.
      destruct (login_outcome (net (calls w))) as [e|token].
      * destruct (status_is e 500 && _).
        -- etransitivity; [|apply IH]. split; [done | cbn; lia].
        -- split; [done | cbn; lia].
      * split; [done | cbn; lia].
Qed.

(** With the depth its entry point gives it, [obterToken] ends. *)
Lemma ends_obterToken_rec (fuel : nat) :
  ∀ rc, (0 < fuel)%nat → (LOGIN_MAX_RETRIES < fuel + rc)%nat →
        ends (obterToken_rec fuel rc).
Proof.
  induction fuel as [|fuel IH]; intros rc H0 Hf w; [lia|].
  destruct (truthy (cachedToken w)) eqn:Hc.
  - rewrite obterToken_rec_cached by done. discriminate.
  - rewrite obterToken_rec_step by done.
    destruct (login_outcome (net (calls w))) as [e|token]; [|discriminate].
    destruct (Nat.ltb_spec rc LOGIN_MAX_RETRIES) as [Hlt|Hge].
    + destruct (status_is e 500); cbn [andb]; [|discriminate].
      apply IH; lia.
    + rewrite andb_false_r. discriminate.
Qed.

Lemma ends_obterToken : ends obterToken.
Proof. apply ends_obterToken_rec; unfold LOGIN_MAX_RETRIES; lia. Qed.

Lemma keeps_obterToken : keeps cache_kept obterToken.
Proof. apply keeps_obterToken_rec. Qed.

(** A credential returned when none was cached was obtained by a login
    call, and is the one now cached. *)
Lemma obterToken_rec_fresh (fuel : nat) :
  ∀ rc w token w',
    truthy (cachedToken w) = false →
    obterToken_rec fuel rc w = (Ret token, w') →
    (calls w < calls w')%nat ∧ cachedToken w' = token ∧ truthy token = true
    ∧ ∃ t, trace w' = EvLogin :: t.
Proof.
  induction fuel as [|fuel IH]; intros rc w token w' Hno Hrun.
  - cbn in Hrun. rewrite Hno in Hrun. discriminate.
  - rewrite obterToken_rec_step in Hrun by done.
    unfold login_outcome in Hrun.
    destruct (reply (net (calls w))) as [d|e] eqn:Hrep.
    + destruct (nullish d).
      * cbn in Hrun. discriminate.
      * destruct (truthy (or_else _ _)) eqn:Ht.
        -- injection Hrun as <- <-. cbn. repeat split; [lia | done | eauto].
        -- cbn in Hrun. discriminate.
    + destruct (status_is e 500 && _); [|discriminate].
      apply IH in Hrun; [|done].
      destruct Hrun as (Hc & Htok & Htr & Hev). cbn in Hc.
      repeat split; [lia | done | done | done].
Qed.

Lemma req_attempt_ok (fuel rc : nat) (w w1 : World) (d : JsVal) :
  req_attempt w = (Ret d, w1) →
  fazerRequisicaoAutenticada_rec (S fuel) rc w = (Ret d, w1).
Proof.
  intros H. cbn [ProdutosService.fazerRequisicaoAutenticada_rec].
  unfold try_catch. fold req_attempt. by rewrite H.
Qed.

(** The handler of [fazerRequisicaoAutenticada] on HTTP 401 or 403. *)
Lemma req_attempt_auth (fuel rc : nat) (w w1 : World) (e : Exn) :
  req_attempt w = (Throw e, w1) →
  is_auth_failure e = true →
  fazerRequisicaoAutenticada_rec (S fuel) rc w =
    if (rc <? 1)%nat
    then fazerRequisicaoAutenticada_rec fuel (S rc) (slept 500 (with_token JNull w1))
    else (Throw (Error "Sessão expirada. Tente novamente."), with_token JNull w1).
Proof.
  intros H Ha. cbn [ProdutosService.fazerRequisicaoAutenticada_rec].
  unfold try_catch. fold req_attempt. rewrite H.
  unfold is_auth_failure in Ha. rewrite Ha.
  unfold bind, set_cachedToken, sleep. by destruct (rc <? 1)%nat.
Qed.

(** C4 (amended): when the request of [fazerRequisicaoAutenticada] fails
    with HTTP 401 or 403 the cached credential is invalidated; if no retry of
    any kind has yet been made for this call (retry count 0) the call waits
    500 ms and is retried once, and that retry has no cached credential, so it
    logs in afresh; if a retry has already been made - after a 401/403 or
    after a 5xx or network error - the call fails with "Sessão expirada".
    In particular two consecutive 401/403 answers end in that error. *)
Theorem fazerRequisicaoAutenticada_auth_failure (w w1 : World) (e : Exn) :
  req_attempt w = (Throw e, w1) →
  is_auth_failure e = true →
  let w2 := slept 500 (with_token JNull w1) in
  (∀ fuel,
     fazerRequisicaoAutenticada_rec (S fuel) 0 w
     = fazerRequisicaoAutenticada_rec fuel 1 w2) ∧
  (∀ fuel rc, (1 <= rc)%nat →
     fazerRequisicaoAutenticada_rec (S fuel) rc w
     = (Throw (Error "Sessão expirada. Tente novamente."), with_token JNull w1)) ∧
  (∀ d w3, req_attempt w2 = (Ret d, w3) →
     fazerRequisicaoAutenticada w = (Ret d, w3) ∧
     ∃ token w', obterToken w2 = (Ret token, w') ∧ (calls w2 < calls w')%nat ∧
                 cachedToken w' = token ∧ http EvQuery w' = (Ret d, w3)) ∧
  (∀ e2 w3, req_attempt w2 = (Throw e2, w3) → is_auth_failure e2 = true →
     fazerRequisicaoAutenticada w
     = (Throw (Error "Sessão expirada. Tente novamente."), with_token JNull w3)).
Proof.
  intros H Ha w2. split; [|split; [|split]].
  - intros fuel. by rewrite (req_attempt_auth fuel 0 w w1 e).
  - intros fuel rc Hrc. rewrite (req_attempt_auth fuel rc w w1 e) by done.
    destruct (Nat.ltb_spec rc 1); [lia | done].
  - intros d w3 H2. split.
    + unfold ProdutosService.fazerRequisicaoAutenticada,
        ProdutosService.fazerRequisicaoAutenticada_from.
      change (S (REQ_MAX_RETRIES - 0)) with 3%nat.
      rewrite (req_attempt_auth 2 0 w w1 e) by done.
      change (0 <? 1)%nat with true. cbv iota.
      by apply req_attempt_ok.
    + unfold req_attempt, bind in H2.
      destruct (obterToken w2) as [[token| |] w'] eqn:Hob; [|discriminate|discriminate].
      exists token, w'. split; [done|].
      apply obterToken_rec_fresh in Hob as (Hc & Ht & _); [|done].
      done.
  - intros e2 w3 H2 Ha2.
    unfold ProdutosService.fazerRequisicaoAutenticada,
      ProdutosService.fazerRequisicaoAutenticada_from.
    change (S (REQ_MAX_RETRIES - 0)) with 3%nat.
    rewrite (req_attempt_auth 2 0 w w1 e) by done.
    change (0 <? 1)%nat with true. cbv iota. fold w2.
    by rewrite (req_attempt_auth 1 1 w2 w3 e2).
Qed.

(** [fazerRequisicaoAutenticada] leaves the response cache alone. *)
Lemma keeps_fazerRequisicaoAutenticada_rec (fuel : nat) :
  ∀ rc, keeps cache_kept (fazerRequisicaoAutenticada_rec fuel rc).
Proof.
  induction fuel as [|fuel IH]; intros rc; cbn [ProdutosService.fazerRequisicaoAutenticada_rec].
  - apply keeps_out_of_fuel.
  - apply keeps_try_catch.
    + apply keeps_bind; [apply keeps_obterToken | intros _; apply keeps_http].
    + intros e.
      repeat first
        [ apply IH | apply keeps_throw | apply keeps_sleep | apply keeps_set_cachedToken
        | apply keeps_bind; [|intros ?]
        | match goal with |- keeps _ (if ?b then _ else _) => destruct b end ].
Qed.

(** With the depth its entry point gives it, [fazerRequisicaoAutenticada]
    ends. *)
Lemma ends_fazerRequisicaoAutenticada_rec (fuel : nat) :
  ∀ rc, (0 < fuel)%nat → (REQ_MAX_RETRIES < fuel + rc)%nat →
        ends (fazerRequisicaoAutenticada_rec fuel rc).
Proof.
  induction fuel as [|fuel IH]; intros rc H0 Hf; [lia|].
  cbn [ProdutosService.fazerRequisicaoAutenticada_rec].
  apply ends_try_catch.
  - apply ends_bind; [apply ends_obterToken | intros _; apply ends_http].
  - intros e. unfold REQ_MAX_RETRIES in *.
    destruct (status_is e 401 || status_is e 403).
    + apply ends_bind; [intros w; discriminate | intros _].
      destruct (Nat.ltb_spec rc 1).
      * apply ends_bind; [intros w; discriminate | intros _]. apply IH; lia.
      * apply ends_throw.
    + destruct (Nat.ltb_spec rc 2).
      * rewrite andb_true_r.
        destruct (_ || _).
        -- apply ends_bind; [intros w; discriminate | intros _]. apply IH; lia.
        -- repeat first [ apply ends_throw
             | match goal with |- ends (if ?b then _ else _) => destruct b end ].
      * rewrite andb_false_r.
        repeat first [ apply ends_throw
             | match goal with |- ends (if ?b then _ else _) => destruct b end ].
Qed.

Lemma ends_fazerRequisicaoAutenticada : ends fazerRequisicaoAutenticada.
Proof. apply ends_fazerRequisicaoAutenticada_rec; unfold REQ_MAX_RETRIES; lia. Qed.

Lemma keeps_fazerRequisicaoAutenticada : keeps cache_kept fazerRequisicaoAutenticada.
Proof. apply keeps_fazerRequisicaoAutenticada_rec. Qed.

End RequestFacts.

(* ===================================================================== *)
(** ** The record normaliser *)
(* ===================================================================== *)

Section NormalizerFacts.

Import ProdutosService.
Local Open Scope js_scope.

Variable Number_toString : float -> string.

Local Abbreviation String_ := (js_String Number_toString).
Local Abbreviation mapearEntidades := (ProdutosService.mapearEntidades Number_toString).
Local Abbreviation fill_fields := (ProdutosService.fill_fields Number_toString).
Local Abbreviation map_entity := (ProdutosService.map_entity Number_toString).
Local Abbreviation map_entities := (ProdutosService.map_entities Number_toString).

(** The normalisation in the words of the specification: the slots
    [f<j>], [f<j+1>], ... of a row that hold a value, each under the name
    declared for its position. *)
Fixpoint named_slots (names : list string) (row : JsVal) (j : nat)
  : list (string * JsVal) :=
  match names with
  | [] => []
  | name :: rest =>
      let slot := member row ("f" +:+ pretty j) in
      (if truthy slot then [(name, member slot "$")] else [])
        ++ named_slots rest row (S j)
  end.

(** The record of a row: its named slots, then the identity field - the
    product code when the row has one, else the position of the row, as a
    string. *)
Definition normalized_record (names : list string) (row : JsVal) (index : nat) : JsVal :=
  let fields := named_slots names row 0 in
  let code := obj_lookup "CODPROD" fields in
  JObj (fields ++ [("_id", JStr (if truthy code then String_ code else pretty index))]).

Definition normalized (names : list string) (rows : list JsVal) : list JsVal :=
  imap (λ index row, normalized_record names row index) rows.

Lemma obj_set_fresh (k : string) (v : JsVal) (o : list (string * JsVal)) :
  k ∉ o.*1 → obj_set k v o = o ++ [(k, v)].
Proof.
  induction o as [|[k' v'] o IH]; intros Hk; cbn; [done|].
  destruct (String.eqb_spec k k') as [->|Hne]; [set_solver|].
  rewrite IH; [done | set_solver].
Qed.




Lemma named_slots_keys (names : list string) (row : JsVal) :
  ∀ j k, k ∈ (named_slots names row j).*1 → k ∈ names.
Proof.
  induction names as [|name rest IH]; intros j k; cbn [named_slots]; [done|].
  rewrite fmap_app, elem_of_app. intros [Hk|Hk].
  - destruct (truthy _); set_solver.
  - apply IH in Hk. set_solver.
Qed.

(** The loop over the field names appends, for names that were not used
    before. *)
Lemma fill_fields_spec (row : JsVal) (fieldNames : list JsVal) :
  ∀ i acc w,
    nullish row = false →
    NoDup (acc.*1 ++ map String_ fieldNames) →
    fill_fields row fieldNames i acc w
    = (Ret (acc ++ named_slots (map String_ fieldNames) row i), w).
Proof.
  induction fieldNames as [|name rest IH]; intros i acc w Hrow Hnd; cbn.
  - by rewrite app_nil_r.
  - unfold bind, prop. rewrite Hrow. cbn [ret].
    apply NoDup_app in Hnd as (Hacc & Hdisj & Hrest).
    apply NoDup_cons in Hrest as [Hname Hrest].
    destruct (truthy (member row ("f" +:+ pretty i))) eqn:Hslot.
    + rewrite obj_set_fresh by (intros Hin; apply (Hdisj _ Hin); set_solver).
      rewrite IH; [by rewrite <- app_assoc | done |].
      rewrite fmap_app. cbn. rewrite <- app_assoc. cbn.
      apply NoDup_app. split; [done|]. split; [|by apply NoDup_cons].
      done.
    + rewrite IH; [done | done |].
      apply NoDup_app. split; [done|]. split; [|done].
      intros k Hk Hk'. apply (Hdisj k Hk). set_solver.
Qed.

Lemma map_entity_spec (fieldNames : list JsVal) (row : JsVal) (index : nat) (w : World) :
  nullish row = false →
  NoDup (map String_ fieldNames) →
  "_id" ∉ map String_ fieldNames →
  map_entity fieldNames row index w
  = (Ret (normalized_record (map String_ fieldNames) row index), w).
Proof.
  intros Hrow Hnd Hid. unfold ProdutosService.map_entity, bind.
  rewrite fill_fields_spec by done. cbn [app ret].
  unfold normalized_record. rewrite obj_set_fresh; [done|].
  intros Hin. apply named_slots_keys in Hin. done.
Qed.

Lemma map_entities_spec (fieldNames : list JsVal) (rows : list JsVal) :
  ∀ index w,
    Forall (λ row, nullish row = false) rows →
    NoDup (map String_ fieldNames) →
    "_id" ∉ map String_ fieldNames →
    map_entities fieldNames rows index w
    = (Ret (imap (λ i row, normalized_record (map String_ fieldNames) row (index + i)) rows),
       w).
Proof.
  induction rows as [|row rows IH]; intros index w Hrows Hnd Hid; cbn; [done|].
  apply Forall_cons in Hrows as [Hrow Hrows].
  unfold bind. rewrite map_entity_spec by done.
  rewrite IH by done. unfold ret. rewrite Nat.add_0_r. do 3 f_equal.
  apply imap_ext. intros i x _. cbn. f_equal. lia.
Qed.

Lemma field_names_spec (fields : list JsVal) (w : World) :
  Forall (λ f, nullish f = false) fields →
  field_names fields w = (Ret (map (λ f, member f "name") fields), w).
Proof.
  induction fields as [|f fields IH]; intros Hf; cbn; [done|].
  apply Forall_cons in Hf as [Hf Hfs].
  unfold bind, prop. rewrite Hf. cbn [ret]. by rewrite IH.
Qed.




End NormalizerFacts.

(* ===================================================================== *)
(** ** The price lookup *)
(* ===================================================================== *)

Section PriceFacts.

Import ProdutosService.
Local Open Scope js_scope.

Variable net : nat -> Exchange.
Variable Number_toString : float -> string.

Local Abbreviation obterToken_rec := (ProdutosService.obterToken_rec net Number_toString).
Local Abbreviation obterToken := (ProdutosService.obterToken net Number_toString).
Local Abbreviation buscarPrecoProduto_rec :=
  (ProdutosService.buscarPrecoProduto_rec net Number_toString).
Local Abbreviation buscarPrecoProduto :=
  (ProdutosService.buscarPrecoProduto net Number_toString).
Local Abbreviation http := (ProdutosService.http net).
Local Abbreviation called := (ProdutosService.called net).

(** [`preco:${codProd}`] *)
Definition preco_key (codProd : string) : string := "preco:" +:+ codProd.

(** The [try] block of [buscarPrecoProduto]. *)
Definition preco_attempt (codProd : string) : M JsVal :=
  let* token := obterToken in
  let* data := http (EvPreco codProd) in
  let* preco := extrair_preco data in
  cache_set (preco_key codProd) (JNum preco) (Some PRECO_TTL) ;;
  ret (JNum preco).

(** The [catch] block of [buscarPrecoProduto], with [fuel] levels of
    recursion left. *)
Definition preco_handler (fuel : nat) (codProd : string) (retryCount : nat) (erro : Exn)
  : M JsVal :=
  let auth := status_is erro 401 || status_is erro 403 in
  (if auth then set_cachedToken JNull else ret tt) ;;
  if auth && (retryCount <? 1)%nat then
    sleep 500 ;;
    buscarPrecoProduto_rec fuel codProd (S retryCount)
  else if (code_is erro "ECONNABORTED" || status_ge_500 erro)
          && (retryCount <? PRECO_MAX_RETRIES)%nat then
    sleep 500 ;;
    buscarPrecoProduto_rec fuel codProd (S retryCount)
  else ret (JNum 0%float).

(** The world after [cacheService.get(key)]. *)
Definition after_get (key : string) (w : World) : World :=
  with_cache (CacheService.get (now w) key (cache w)).2 w.

(** A read of [key] finds nothing to serve, now and at any later time:
    there is no entry, or an entry that holds [null]. *)
Definition misses (key : string) (c : gmap string CacheService.CacheEntry) : Prop :=
  match c !! key with
  | None => True
  | Some e => CacheService.data e = JNull
  end.

(** Every HTTP call from the [n]-th on fails. *)
Definition all_rejected_from (n : nat) : Prop :=
  ∀ i, (n <= i)%nat → ∃ e, reply (net i) = Rejected e.

(** The map [c'] is [c], or [c] without an entry of [key] removed on a
    read. *)
Definition expired_only (key : string) (c c' : gmap string CacheService.CacheEntry) : Prop :=
  c' = c ∨ c' = base.delete key c.

Lemma buscarPrecoProduto_rec_unfold (fuel : nat) (codProd : string) (rc : nat) (w : World) :
  buscarPrecoProduto_rec (S fuel) codProd rc w =
    let cached := (CacheService.get (now w) (preco_key codProd) (cache w)).1 in
    if not_null cached then (Ret cached, after_get (preco_key codProd) w)
    else try_catch (preco_attempt codProd) (preco_handler fuel codProd rc)
                   (after_get (preco_key codProd) w).
Proof.
  cbn [ProdutosService.buscarPrecoProduto_rec]. unfold bind at 1, cache_get, after_get.
  fold (preco_key codProd).
  destruct (CacheService.get (now w) (preco_key codProd) (cache w)) as [v c].
  cbn [fst snd]. destruct (not_null v); reflexivity.
Qed.

Lemma with_cache_same (w : World) : with_cache (cache w) w = w.
Proof. by destruct w. Qed.

Lemma misses_get (key : string) (c : gmap string CacheService.CacheEntry) (t : Z) :
  misses key c →
  (CacheService.get t key c).1 = JNull ∧
  misses key (CacheService.get t key c).2 ∧
  expired_only key c (CacheService.get t key c).2.
Proof.
  unfold misses, CacheService.get, expired_only. destruct (c !! key) as [e|] eqn:He.
  - intros Hd. destruct (_ >? _); cbn.
    + rewrite lookup_delete_eq. auto.
    + rewrite He. auto.
  - intros _. cbn. rewrite He. auto.
Qed.

Lemma get_null_misses (key : string) (c : gmap string CacheService.CacheEntry) (t : Z) :
  (CacheService.get t key c).1 = JNull →
  misses key (CacheService.get t key c).2 ∧
  expired_only key c (CacheService.get t key c).2.
Proof.
  unfold misses, CacheService.get, expired_only. destruct (c !! key) as [e|] eqn:He.
  - destruct (_ >? _); cbn.
    + rewrite lookup_delete_eq. auto.
    + rewrite He. auto.
  - intros _. cbn. rewrite He. auto.
Qed.

Lemma expired_only_trans (key : string) (c1 c2 c3 : gmap string CacheService.CacheEntry) :
  expired_only key c1 c2 → expired_only key c2 c3 → expired_only key c1 c3.
Proof.
  unfold expired_only. intros [->| ->] [->| ->]; auto.
  right. apply map_eq. intros k. destruct (decide (k = key)) as [->|Hne].
  - by rewrite !lookup_delete_eq.
  - by rewrite !lookup_delete_ne.
Qed.

Lemma insert_expired_only (key : string) (c c' : gmap string CacheService.CacheEntry)
      (e : CacheService.CacheEntry) :
  expired_only key c c' → <[key := e]> c' = <[key := e]> c.
Proof. intros [->| ->]; [done|]. by rewrite insert_delete_eq. Qed.

(** [extrair_preco] reads the reply and nothing else. *)
Lemma extrair_preco_pure (d : JsVal) (w : World) :
  extrair_preco d w = ((extrair_preco d w).1, w).
Proof.
  unfold extrair_preco.
  destruct (truthy d && _ && _ && _); [|reflexivity].
  unfold bind, prop. destruct (nullish _); reflexivity.
Qed.

Lemma extrair_preco_ends (d : JsVal) (w : World) :
  (extrair_preco d w).1 ≠ OutOfFuel.
Proof.
  unfold extrair_preco.
  destruct (truthy d && _ && _ && _); [|discriminate].
  unfold bind, prop. destruct (nullish _); discriminate.
Qed.

(** The price carried by a reply: the first product's [valor], parsed, or 0
    when it does not parse to a number other than 0. *)
Lemma extrair_preco_present (d produto : JsVal) (rest : list JsVal) (w : World) :
  member d "produtos" = JArr (produto :: rest) →
  nullish produto = false →
  extrair_preco d w = (Ret (num_or_zero (parseFloat (member produto "valor"))), w).
Proof.
  intros Hp Hn. unfold extrair_preco. rewrite Hp.
  assert (truthy d = true) as ->.
  { destruct d; try discriminate Hp. reflexivity. }
  cbn. unfold bind, prop. by rewrite Hn.
Qed.

Lemma extrair_preco_absent (d : JsVal) (w : World) :
  (∀ produto rest, member d "produtos" ≠ JArr (produto :: rest)) →
  extrair_preco d w = (Ret 0%float, w).
Proof.
  intros Hp. unfold extrair_preco.
  destruct (member d "produtos") as [| | | | |[|produto rest]|] eqn:Hm;
    rewrite ?andb_false_r; try reflexivity.
  exfalso. by eapply Hp.
Qed.

Lemma extrair_preco_indep (d : JsVal) (w w' : World) :
  (extrair_preco d w).1 = (extrair_preco d w').1.
Proof.
  unfold extrair_preco.
  destruct (truthy d && _ && _ && _); [|reflexivity].
  unfold bind, prop. destruct (nullish _); reflexivity.
Qed.

(** The [try] block either throws, leaving the cache as it was, or returns
    the price of a reply that was received and has written it to the cache. *)
Lemma preco_attempt_cases (codProd : string) (w : World) :
  ∃ r w', preco_attempt codProd w = (r, w') ∧ (calls w <= calls w')%nat ∧
    match r with
    | Ret v =>
        ∃ n d p, (calls w <= n < calls w')%nat ∧ reply (net n) = Resolved d ∧
                 (extrair_preco d w).1 = Ret p ∧ v = JNum p ∧
                 cache w' = <[preco_key codProd :=
                               CacheService.mkEntry (JNum p) (now w') PRECO_TTL]> (cache w)
    | Throw e => cache w' = cache w
    | OutOfFuel => False
    end.
Proof.
  unfold preco_attempt, bind.
  pose proof (keeps_obterToken net Number_toString w) as [Hc Hn].
  pose proof (ends_obterToken net Number_toString w) as He.
  destruct (obterToken w) as [[tok|e|] w1]; cbn [fst snd] in *; [| |done].
  - unfold ProdutosService.http.
    destruct (reply (net (calls w1))) as [d|e] eqn:Hrep.
    + rewrite extrair_preco_pure.
      pose proof (extrair_preco_ends d (called (EvPreco codProd) w1)) as Hends.
      destruct (extrair_preco d (called (EvPreco codProd) w1)).1 as [p|e|] eqn:Hp;
        [| |done].
      * eexists _, _. split; [reflexivity|]. cbn. split; [lia|].
        exists (calls w1), d, p. split; [lia|]. split; [done|].
        split; [by rewrite (extrair_preco_indep d w (called (EvPreco codProd) w1))|].
        split; [done|]. unfold CacheService.set. by rewrite Hc.
      * eexists _, _. split; [reflexivity|]. cbn. split; [lia | done].
    + eexists _, _. split; [reflexivity|]. cbn. split; [lia | done].
  - eexists _, _. split; [reflexivity|]. split; [lia | done].
Qed.

Lemma preco_handler_eq (fuel : nat) (codProd : string) (rc : nat) (erro : Exn) (w : World) :
  preco_handler fuel codProd rc erro w =
    let w1 := if is_auth_failure erro then with_token JNull w else w in
    if (is_auth_failure erro || code_is erro "ECONNABORTED" || status_ge_500 erro)
       && (rc <? 1)%nat
    then buscarPrecoProduto_rec fuel codProd (S rc) (slept 500 w1)
    else (Ret (JNum 0%float), w1).
Proof.
  unfold preco_handler, is_auth_failure, PRECO_MAX_RETRIES.
  destruct (status_is erro 401 || status_is erro 403); cbn [orb andb];
    destruct (rc <? 1)%nat; rewrite ?andb_true_r, ?andb_false_r;
    try reflexivity.
  destruct (code_is erro "ECONNABORTED" || status_ge_500 erro); reflexivity.
Qed.

(** A call of [buscarPrecoProduto] that the cache cannot serve returns a
    number and never throws. Either it returns 0 and has written nothing -
    the map is the one it was given, up to the removal of an expired entry of
    this key - or it returns the price of a reply it received, and has
    written that price under the key with a ttl of 10 minutes. *)
Lemma buscarPrecoProduto_rec_cases (codProd : string) (fuel : nat) :
  ∀ rc w,
    (0 < fuel)%nat → (PRECO_MAX_RETRIES < fuel + rc)%nat →
    (CacheService.get (now w) (preco_key codProd) (cache w)).1 = JNull →
    ∃ v w', buscarPrecoProduto_rec fuel codProd rc w = (Ret v, w') ∧
      (calls w <= calls w')%nat ∧
      ((v = JNum 0%float ∧ expired_only (preco_key codProd) (cache w) (cache w') ∧
        misses (preco_key codProd) (cache w')) ∨
       (∃ n d p, (calls w <= n < calls w')%nat ∧ reply (net n) = Resolved d ∧
                 (extrair_preco d w).1 = Ret p ∧ v = JNum p ∧
                 cache w' = <[preco_key codProd :=
                               CacheService.mkEntry (JNum p) (now w') PRECO_TTL]> (cache w))).
Proof.
  unfold PRECO_MAX_RETRIES.
  induction fuel as [|fuel IH]; intros rc w H0 Hf Hmiss; [lia|].
  rewrite buscarPrecoProduto_rec_unfold. cbn zeta.
  destruct (get_null_misses _ _ _ Hmiss) as (Hmiss0 & Hexp0).
  rewrite Hmiss. cbn [not_null].
  set (w0 := after_get (preco_key codProd) w) in *.
  assert (Hw0 : calls w0 = calls w) by reflexivity.
  change (CacheService.get (now w) (preco_key codProd) (cache w)).2
    with (cache w0) in Hmiss0, Hexp0.
  unfold try_catch.
  destruct (preco_attempt_cases codProd w0) as (r & w1 & -> & Hn1 & Hr).
  destruct r as [v|e|]; [| |done].
  - destruct Hr as (n & d & p & Hn & Hrep & Hp & -> & Hcache).
    exists (JNum p), w1. split; [done|]. split; [lia|]. right.
    exists n, d, p. split; [lia|]. split; [done|].
    split; [by rewrite (extrair_preco_indep d w w0)|]. split; [done|].
    rewrite Hcache. by apply insert_expired_only.
  - rewrite preco_handler_eq. cbn zeta.
    set (w2 := if is_auth_failure e then with_token JNull w1 else w1).
    assert (Hw2 : cache w2 = cache w1 ∧ calls w2 = calls w1).
    { subst w2. by destruct (is_auth_failure e). }
    destruct Hw2 as [Hc2 Hn2].
    destruct ((is_auth_failure e || code_is e "ECONNABORTED" || status_ge_500 e)
              && (rc <? 1)%nat) eqn:Hretry.
    + apply andb_true_iff in Hretry as [_ Hrc]. apply Nat.ltb_lt in Hrc.
      destruct (IH (S rc) (slept 500 w2)) as (v & w' & Hrun & Hn' & Hcases);
        [lia | lia | |].
      { cbn [cache slept]. rewrite Hc2, Hr. by apply misses_get. }
      exists v, w'. split; [done|]. cbn in Hn'. split; [lia|].
      cbn [cache slept] in Hcases. rewrite Hc2, Hr in Hcases.
      destruct Hcases as [(-> & Hexp & Hm) | (n & d & p & Hn & Hrep & Hp & -> & Hcache)].
      * left. split; [done|]. split; [|done]. by eapply expired_only_trans.
      * right. exists n, d, p. cbn in Hn. split; [lia|]. split; [done|].
        split; [by rewrite (extrair_preco_indep d w (slept 500 w2))|]. split; [done|].
        rewrite Hcache. by apply insert_expired_only.
    + exists (JNum 0%float), w2. split; [done|]. split; [lia|]. left.
      rewrite Hc2, Hr. done.
Qed.

(** [buscarPrecoProduto] never throws, whatever the cache holds and
    whatever the ERP answers. *)
Lemma buscarPrecoProduto_total (codProd : string) (w : World) :
  ∃ v w', buscarPrecoProduto codProd w = (Ret v, w').
Proof.
  unfold ProdutosService.buscarPrecoProduto, ProdutosService.buscarPrecoProduto_from.
  destruct (not_null (CacheService.get (now w) (preco_key codProd) (cache w)).1) eqn:Hnn.
  - cbn [Nat.sub]. rewrite buscarPrecoProduto_rec_unfold. cbn zeta. rewrite Hnn. eauto.
  - destruct (buscarPrecoProduto_rec_cases codProd (S (PRECO_MAX_RETRIES - 0)) 0 w)
      as (v & w' & Hrun & _);
      [lia | unfold PRECO_MAX_RETRIES; lia | | eauto].
    by destruct (CacheService.get _ _ _).1.
Qed.

(** The path on which the credential is available and the price request is
    answered. *)
Lemma buscarPrecoProduto_resolved (codProd : string) (w w1 : World) (tok d : JsVal)
      (p : float) :
  cache w !! preco_key codProd = None →
  obterToken w = (Ret tok, w1) →
  reply (net (calls w1)) = Resolved d →
  (extrair_preco d w).1 = Ret p →
  let w2 := called (EvPreco codProd) w1 in
  buscarPrecoProduto codProd w =
    (Ret (JNum p),
     with_cache (<[preco_key codProd := CacheService.mkEntry (JNum p) (now w2) (10 * 60 * 1000)]>
                   (cache w)) w2).
Proof.
  intros Hnone Hob Hrep Hp w2.
  unfold ProdutosService.buscarPrecoProduto, ProdutosService.buscarPrecoProduto_from.
  cbn [Nat.sub]. rewrite buscarPrecoProduto_rec_unfold. cbn zeta.
  unfold after_get. rewrite (get_miss _ _ _ Hnone). cbn [fst snd not_null].
  rewrite with_cache_same. unfold try_catch, preco_attempt.
  rewrite (bind_ret_eq _ _ _ _ _ Hob).
  assert (Hhttp : http (EvPreco codProd) w1 = (Ret d, w2)).
  { unfold ProdutosService.http. by rewrite Hrep. }
  rewrite (bind_ret_eq _ _ _ _ _ Hhttp).
  assert (Hex : extrair_preco d w2 = (Ret p, w2)).
  { rewrite extrair_preco_pure. by rewrite (extrair_preco_indep d w2 w), Hp. }
  rewrite (bind_ret_eq _ _ _ _ _ Hex).
  unfold bind, cache_set, ret, CacheService.set.
  change (CacheService.ttl_or_default (Some PRECO_TTL)) with (10 * 60 * 1000).
  pose proof (keeps_obterToken net Number_toString w) as [Hc _].
  rewrite Hob in Hc. cbn [snd] in Hc.
  by replace (cache w2) with (cache w) by (subst w2; by cbn).
Qed.

(** When every HTTP call fails the price is 0 and nothing is written. *)
Lemma buscarPrecoProduto_all_rejected (codProd : string) (w : World) :
  (CacheService.get (now w) (preco_key codProd) (cache w)).1 = JNull →
  all_rejected_from (calls w) →
  ∃ w', buscarPrecoProduto codProd w = (Ret (JNum 0%float), w') ∧
        expired_only (preco_key codProd) (cache w) (cache w') ∧
        misses (preco_key codProd) (cache w').
Proof.
  intros Hmiss Hall.
  destruct (buscarPrecoProduto_rec_cases codProd (S (PRECO_MAX_RETRIES - 0)) 0 w)
    as (v & w' & Hrun & _ & Hcases);
    [lia | unfold PRECO_MAX_RETRIES; lia | done |].
  destruct Hcases as [(-> & Hexp & Hm) | (n & d & p & Hn & Hrep & _)].
  - by exists w'.
  - destruct (Hall n ltac:(lia)) as [e He]. congruence.
Qed.

Lemma keeps_calls_of_cache {A} (m : M A) : keeps cache_kept m → keeps calls_grow m.
Proof. intros H w. by destruct (H w). Qed.

Lemma keeps_calls_cache_get (key : string) : keeps calls_grow (cache_get key).
Proof.
  intros w. unfold cache_get. destruct (CacheService.get _ _ _). cbn.
  unfold calls_grow. cbn. lia.
Qed.

Lemma keeps_calls_cache_set (key : string) (d : JsVal) (t : option Z) :
  keeps calls_grow (cache_set key d t).
Proof. intros w. unfold calls_grow. cbn. lia. Qed.

Lemma keeps_calls_extrair_preco (d : JsVal) : keeps calls_grow (extrair_preco d).
Proof. intros w. rewrite extrair_preco_pure. unfold calls_grow. cbn. lia. Qed.

Lemma keeps_calls_preco_attempt (codProd : string) :
  keeps calls_grow (preco_attempt codProd).
Proof.
  unfold preco_attempt.
  apply keeps_bind; [apply keeps_calls_of_cache, keeps_obterToken | intros _].
  apply keeps_bind; [apply keeps_calls_of_cache, keeps_http | intros d].
  apply keeps_bind; [apply keeps_calls_extrair_preco | intros p].
  apply keeps_bind; [apply keeps_calls_cache_set | intros _; apply keeps_ret].
Qed.

Lemma keeps_calls_buscarPrecoProduto_rec (codProd : string) (fuel : nat) :
  ∀ rc, keeps calls_grow (buscarPrecoProduto_rec fuel codProd rc).
Proof.
  induction fuel as [|fuel IH]; intros rc; cbn [ProdutosService.buscarPrecoProduto_rec].
  - apply keeps_bind; [apply keeps_calls_cache_get | intros v].
    destruct (not_null v); [apply keeps_ret | apply keeps_out_of_fuel].
  - apply keeps_bind; [apply keeps_calls_cache_get | intros v].
    destruct (not_null v); [apply keeps_ret|].
    apply keeps_try_catch; [apply keeps_calls_preco_attempt | intros e].
    apply keeps_bind.
    { destruct (_ || _); [apply keeps_calls_of_cache, keeps_set_cachedToken | apply keeps_ret]. }
    intros _.
    repeat first
      [ apply IH | apply keeps_ret
      | apply keeps_bind; [apply keeps_calls_of_cache, keeps_sleep | intros _]
      | match goal with |- keeps _ (if ?b then _ else _) => destruct b end ].
Qed.

(** Without a cached credential [obterToken] makes an HTTP call. *)
Lemma obterToken_contacts (w : World) :
  truthy (cachedToken w) = false → (calls w < calls (obterToken w).2)%nat.
Proof.
  intros Hno. unfold ProdutosService.obterToken, ProdutosService.obterToken_from.
  rewrite obterToken_rec_step by done.
  destruct (login_outcome (net (calls w))) as [e|tok]; [|cbn; lia].
  destruct (status_is e 500 && _); [|cbn; lia].
  pose proof (keeps_obterToken_rec net Number_toString (LOGIN_MAX_RETRIES - 0) 1
                (slept (LOGIN_RETRY_DELAY * (Z.of_nat 0 + 1)) (called EvLogin w)))
    as [_ Hn].
  cbn in Hn. cbn. lia.
Qed.

(** The [try] block of [buscarPrecoProduto] makes an HTTP call. *)
Lemma preco_attempt_contacts (codProd : string) (w : World) :
  (calls w < calls (preco_attempt codProd w).2)%nat.
Proof.
  unfold preco_attempt. unfold bind at 1.
  destruct (truthy (cachedToken w)) eqn:Htok.
  - unfold ProdutosService.obterToken, ProdutosService.obterToken_from.
    rewrite obterToken_rec_cached by done.
    unfold bind at 1. unfold ProdutosService.http at 1.
    destruct (reply (net (calls w))) as [d|e]; [|cbn; lia].
    assert (keeps calls_grow
              (let* preco := extrair_preco d in
               cache_set (preco_key codProd) (JNum preco) (Some PRECO_TTL) ;;
               ret (JNum preco))) as Hk.
    { apply keeps_bind; [apply keeps_calls_extrair_preco | intros p].
      apply keeps_bind; [apply keeps_calls_cache_set | intros _; apply keeps_ret]. }
    specialize (Hk (called (EvPreco codProd) w)). unfold calls_grow in Hk.
    cbn in Hk. cbn. lia.
  - pose proof (obterToken_contacts w Htok) as Hlt.
    destruct (obterToken w) as [[tok|e|] w1]; cbn [snd] in *; [|done|done].
    assert (keeps calls_grow
              (let* data := http (EvPreco codProd) in
               let* preco := extrair_preco data in
               cache_set (preco_key codProd) (JNum preco) (Some PRECO_TTL) ;;
               ret (JNum preco))) as Hk.
    { apply keeps_bind; [apply keeps_calls_of_cache, keeps_http | intros d].
      apply keeps_bind; [apply keeps_calls_extrair_preco | intros p].
      apply keeps_bind; [apply keeps_calls_cache_set | intros _; apply keeps_ret]. }
    specialize (Hk w1). unfold calls_grow in Hk. lia.
Qed.

(** A call of [buscarPrecoProduto] that the cache cannot serve contacts the
    ERP. *)
Lemma buscarPrecoProduto_contacts (codProd : string) (w : World) :
  (CacheService.get (now w) (preco_key codProd) (cache w)).1 = JNull →
  (calls w < calls (buscarPrecoProduto codProd w).2)%nat.
Proof.
  intros Hmiss.
  unfold ProdutosService.buscarPrecoProduto, ProdutosService.buscarPrecoProduto_from.
  cbn [Nat.sub]. rewrite buscarPrecoProduto_rec_unfold. cbn zeta.
  rewrite Hmiss. cbn [not_null]. unfold try_catch.
  pose proof (preco_attempt_contacts codProd (after_get (preco_key codProd) w)) as Hlt.
  destruct (preco_attempt codProd (after_get (preco_key codProd) w)) as [[v|e|] w1];
    cbn [snd] in *; [done| |done].
  assert (keeps calls_grow (preco_handler (PRECO_MAX_RETRIES - 0) codProd 0 e)) as Hk.
  { unfold preco_handler. apply keeps_bind.
    { destruct (_ || _); [apply keeps_calls_of_cache, keeps_set_cachedToken | apply keeps_ret]. }
    intros _.
    repeat first
      [ apply keeps_calls_buscarPrecoProduto_rec | apply keeps_ret
      | apply keeps_bind; [apply keeps_calls_of_cache, keeps_sleep | intros _]
      | match goal with |- keeps _ (if ?b then _ else _) => destruct b end ]. }
  specialize (Hk w1). unfold calls_grow in Hk. cbn in Hlt. lia.
Qed.

(** C5: [buscarPrecoProduto] never throws. For a code with no cached price,
    when the credential is available and the price request is answered, it
    returns the [valor] of the first product of the answer parsed as a
    number, and 0 when the parse gives [NaN] or zero - as it does when the
    product has no [valor]; it returns 0 when the answer lists no product;
    when the request fails with an error that is not retried, and when every
    HTTP call fails, it returns 0. *)
Theorem buscarPrecoProduto_returns (codProd : string) (w : World) :
  (∃ v w', buscarPrecoProduto codProd w = (Ret v, w')) ∧
  (cache w !! preco_key codProd = None →
   (∀ tok w1 d, obterToken w = (Ret tok, w1) → reply (net (calls w1)) = Resolved d →
      (∀ produto rest,
         member d "produtos" = JArr (produto :: rest) → nullish produto = false →
         let x := parseFloat (member produto "valor") in
         (buscarPrecoProduto codProd w).1
         = Ret (JNum (if PrimFloat.is_nan x || PrimFloat.is_zero x then 0%float else x)) ∧
         (nullish (member produto "valor") = true →
          (buscarPrecoProduto codProd w).1 = Ret (JNum 0%float))) ∧
      ((∀ produto rest, member d "produtos" ≠ JArr (produto :: rest)) →
         (buscarPrecoProduto codProd w).1 = Ret (JNum 0%float))) ∧
   (∀ e w1, preco_attempt codProd w = (Throw e, w1) →
      is_auth_failure e = false → code_is e "ECONNABORTED" = false →
      status_ge_500 e = false →
      buscarPrecoProduto codProd w = (Ret (JNum 0%float), w1)) ∧
   (all_rejected_from (calls w) →
      (buscarPrecoProduto codProd w).1 = Ret (JNum 0%float))).
Proof.
  split; [apply buscarPrecoProduto_total|].
  intros Hnone. split; [|split].
  - intros tok w1 d Hob Hrep. split.
    + intros produto rest Hp Hn x.
      assert (Hrun : (buscarPrecoProduto codProd w).1
                     = Ret (JNum (if PrimFloat.is_nan x || PrimFloat.is_zero x
                                  then 0%float else x))).
      { erewrite buscarPrecoProduto_resolved; [reflexivity | done | done | done |].
        rewrite (extrair_preco_present d produto rest) by done.
        cbn [fst]. unfold num_or_zero, truthy. fold x.
        by destruct (PrimFloat.is_nan x), (PrimFloat.is_zero x). }
      split; [exact Hrun|].
      intros Hv. rewrite Hrun. subst x.
      by destruct (member produto "valor").
    + intros Habs.
      erewrite buscarPrecoProduto_resolved; [reflexivity | done | done | done |].
      by rewrite extrair_preco_absent.
  - intros e w1 Hatt Ha Hc Hs.
    unfold ProdutosService.buscarPrecoProduto, ProdutosService.buscarPrecoProduto_from.
    cbn [Nat.sub]. rewrite buscarPrecoProduto_rec_unfold. cbn zeta.
    unfold after_get. rewrite (get_miss _ _ _ Hnone). cbn [fst snd not_null].
    rewrite with_cache_same. unfold try_catch. rewrite Hatt.
    rewrite preco_handler_eq. cbn zeta. by rewrite Ha, Hc, Hs.
  - intros Hall.
    destruct (buscarPrecoProduto_all_rejected codProd w) as (w' & -> & _); [|done|done].
    by rewrite (get_miss _ _ _ Hnone).
Qed.

(** C9: a call of [buscarPrecoProduto] that the cache cannot serve ends in
    one of two ways. Either it returns 0 and has written nothing (the map is
    the one it was given, at most without an expired entry of this key, and
    exactly the one it was given when the key had no entry), and then any
    later call that finds this map contacts the ERP again. Or it has received
    an answer to a price request, returns the price it extracted from it -
    0 when the answer carries none - and has written that value under the key
    with a ttl of 10 minutes. When every HTTP call fails it ends the first
    way. *)
Theorem buscarPrecoProduto_cache_writes (codProd : string) (w : World) :
  (CacheService.get (now w) (preco_key codProd) (cache w)).1 = JNull →
  ∃ v w', buscarPrecoProduto codProd w = (Ret v, w') ∧
    ((v = JNum 0%float ∧
      expired_only (preco_key codProd) (cache w) (cache w') ∧
      (cache w !! preco_key codProd = None → cache w' = cache w) ∧
      (∀ w'', cache w'' = cache w' →
         (calls w'' < calls (buscarPrecoProduto codProd w'').2)%nat)) ∨
     (∃ n d p, (calls w <= n < calls w')%nat ∧ reply (net n) = Resolved d ∧
               (extrair_preco d w).1 = Ret p ∧ v = JNum p ∧
               ((∀ produto rest, member d "produtos" ≠ JArr (produto :: rest)) →
                  p = 0%float) ∧
               cache w' = <[preco_key codProd :=
                             CacheService.mkEntry (JNum p) (now w') (10 * 60 * 1000)]>
                            (cache w))) ∧
    (all_rejected_from (calls w) → v = JNum 0%float ∧
       expired_only (preco_key codProd) (cache w) (cache w')).
Proof.
  intros Hmiss.
  destruct (buscarPrecoProduto_rec_cases codProd (S (PRECO_MAX_RETRIES - 0)) 0 w)
    as (v & w' & Hrun & Hn & Hcases);
    [lia | unfold PRECO_MAX_RETRIES; lia | done |].
  exists v, w'. split; [exact Hrun|]. split.
  - destruct Hcases as [(-> & Hexp & Hm) | (n & d & p & Hnd & Hrep & Hp & -> & Hcache)].
    + left. split; [done|]. split; [done|]. split.
      * intros Hnone. destruct Hexp as [->| ->]; [done|].
        by apply delete_id.
      * intros w'' Hc. apply buscarPrecoProduto_contacts.
        rewrite Hc. by apply misses_get.
    + right. exists n, d, p. split; [done|]. split; [done|]. split; [done|].
      split; [done|]. split; [|done].
      intros Habs. rewrite (extrair_preco_absent d w Habs) in Hp. cbn in Hp. congruence.
  - intros Hall.
    destruct Hcases as [(-> & Hexp & Hm) | (n & d & p & Hnd & Hrep & _)]; [done|].
    destruct (Hall n ltac:(lia)) as [e He]. congruence.
Qed.

End PriceFacts.

(* ===================================================================== *)
(** ** Product listing and stock lookup *)
(* ===================================================================== *)

Section QueryFacts.

Import ProdutosService.
Local Open Scope js_scope.

Variable net : nat -> Exchange.
Variable Number_toString : float -> string.
Variable parseInt : JsVal -> float.
Variable Math_ceil : float -> float.

Local Abbreviation fazerRequisicaoAutenticada :=
  (ProdutosService.fazerRequisicaoAutenticada net Number_toString).
Local Abbreviation mapearEntidades := (ProdutosService.mapearEntidades Number_toString).
Local Abbreviation consultarProdutos :=
  (ProdutosService.consultarProdutos net Number_toString parseInt Math_ceil).
Local Abbreviation consultarEstoqueProduto :=
  (ProdutosService.consultarEstoqueProduto net Number_toString).

(** [`estoque:${codProd}:${searchLocal}`] *)
Definition estoque_key (codProd searchLocal : string) : string :=
  "estoque:" +:+ codProd +:+ ":" +:+ searchLocal.

(** The answer carries no entities object, or one without an [entity]
    member (absent, [null], or otherwise falsy). *)
Definition lacks_entities (respostaCompleta : JsVal) : Prop :=
  truthy (entities_of respostaCompleta) = false ∨
  truthy (member (entities_of respostaCompleta) "entity") = false.

Lemma ends_field_names (fields : list JsVal) : ends (field_names fields).
Proof.
  induction fields as [|f fields IH]; cbn; [apply ends_ret|].
  apply ends_bind; [apply ends_prop | intros n].
  apply ends_bind; [apply IH | intros ns; apply ends_ret].
Qed.

Lemma ends_fill_fields (row : JsVal) (names : list JsVal) :
  ∀ i acc, ends (fill_fields Number_toString row names i acc).
Proof.
  induction names as [|n names IH]; intros i acc; cbn; [apply ends_ret|].
  apply ends_bind; [apply ends_prop | intros slot; apply IH].
Qed.

Lemma ends_map_entities (names rows : list JsVal) :
  ∀ index, ends (map_entities Number_toString names rows index).
Proof.
  induction rows as [|row rows IH]; intros index; cbn; [apply ends_ret|].
  apply ends_bind.
  - unfold map_entity. apply ends_bind; [apply ends_fill_fields | intros o; apply ends_ret].
  - intros o. apply ends_bind; [apply IH | intros os; apply ends_ret].
Qed.

Lemma ends_mapearEntidades (entities : JsVal) : ends (mapearEntidades entities).
Proof.
  unfold ProdutosService.mapearEntidades.
  apply ends_bind; [apply ends_prop | intros metadata].
  apply ends_bind; [apply ends_prop | intros fields].
  apply ends_bind; [apply ends_prop | intros field].
  apply ends_bind.
  { destruct field; try apply ends_throw. apply ends_field_names. }
  intros names. apply ends_bind; [apply ends_prop | intros entity].
  apply ends_map_entities.
Qed.

Lemma ends_consultarEstoqueProduto (codProd searchLocal : string) :
  ends (consultarEstoqueProduto codProd searchLocal).
Proof.
  unfold ProdutosService.consultarEstoqueProduto.
  apply ends_bind.
  { intros w. unfold cache_get. by destruct (CacheService.get _ _ _). }
  intros cached. destruct (not_null cached); [apply ends_ret|].
  apply ends_bind; [apply ends_fazerRequisicaoAutenticada | intros resp].
  destruct (negb _); [apply ends_ret|].
  destruct (_ || _); [apply ends_ret|].
  apply ends_bind; [apply ends_mapearEntidades | intros lista].
  apply ends_bind; [intros w; discriminate | intros _; apply ends_ret].
Qed.

(** C10 (amended): when the request of a product listing succeeds and the
    answer has no entities object, or an entities object without an [entity]
    member, [consultarProdutos] does not throw and returns the empty page:
    no products, total 0 and 0 pages, for the page and page size asked. *)
Theorem consultarProdutos_empty_page (page pageSize : Z) (w w1 : World) (resp : JsVal) :
  fazerRequisicaoAutenticada w = (Ret resp, w1) →
  lacks_entities resp →
  consultarProdutos page pageSize w = (Ret (empty_page page pageSize), w1) ∧
  member (empty_page page pageSize) "produtos" = JArr [] ∧
  member (empty_page page pageSize) "total" = num 0 ∧
  member (empty_page page pageSize) "totalPages" = num 0 ∧
  member (empty_page page pageSize) "page" = num page ∧
  member (empty_page page pageSize) "pageSize" = num pageSize.
Proof.
  intros Hreq Hlack. split; [|by repeat split].
  unfold ProdutosService.consultarProdutos.
  rewrite (bind_ret_eq _ _ _ _ _ Hreq).
  destruct (truthy (entities_of resp)) eqn:He; cbn [negb]; [|reflexivity].
  destruct Hlack as [Hl|Hl]; [congruence|].
  by rewrite Hl.
Qed.

(** The stock lookup on the path where the request is answered with rows:
    the total is the sum computed by [estoqueTotal] over the normalised
    rows, and the result is cached for 5 minutes. *)
Lemma consultarEstoqueProduto_rows (codProd searchLocal : string) (w w1 : World)
      (resp : JsVal) (lista : list JsVal) :
  cache w !! estoque_key codProd searchLocal = None →
  fazerRequisicaoAutenticada w = (Ret resp, w1) →
  truthy (entities_of resp) = true →
  truthy (member (entities_of resp) "entity") = true →
  mapearEntidades (entities_of resp) w1 = (Ret lista, w1) →
  let resultado :=
    JObj [("estoques", JArr lista);
          ("total", num (Z.of_nat (length lista)));
          ("estoqueTotal", JNum (estoqueTotal lista))] in
  consultarEstoqueProduto codProd searchLocal w =
    (Ret resultado,
     with_cache (CacheService.set (now w1) (estoque_key codProd searchLocal) resultado
                   (Some (5 * 60 * 1000)) (cache w1)) w1).
Proof.
  intros Hnone Hreq He Hent Hmap resultado.
  unfold ProdutosService.consultarEstoqueProduto. fold (estoque_key codProd searchLocal).
  unfold bind at 1, cache_get. rewrite (get_miss _ _ _ Hnone). cbn [not_null].
  rewrite with_cache_same.
  rewrite (bind_ret_eq _ _ _ _ _ Hreq). rewrite He, Hent. cbn [negb orb].
  rewrite (bind_ret_eq _ _ _ _ _ Hmap). reflexivity.
Qed.

(** A row without a quantity - no [ESTOQUE] member, or an empty or
    otherwise falsy one - adds [parseFloat('0')], that is 0, to the sum. *)
Lemma soma_estoque_missing (acc : float) (estoque : JsVal) :
  truthy (member estoque "ESTOQUE") = false →
  soma_estoque acc estoque = (acc + 0)%float.
Proof. intros H. unfold soma_estoque, or_else. by rewrite H. Qed.

(** A row with a quantity adds whatever [parseFloat] makes of it. *)
Lemma soma_estoque_present (acc : float) (estoque : JsVal) :
  truthy (member estoque "ESTOQUE") = true →
  soma_estoque acc estoque = (acc + parseFloat (member estoque "ESTOQUE"))%float.
Proof. intros H. unfold soma_estoque, or_else. by rewrite H. Qed.

End QueryFacts.

(* ===================================================================== *)
(** ** Calls in progress: how they end, whatever runs beside them *)
(* ===================================================================== *)

Section AsyncFacts.

Import ProdutosService.
Import Async(Run, Settled, Awaiting).

(** Every way the call can go on, whatever worlds it is resumed in, takes it
    to its end within [n] waits, and every end satisfies [P]. *)
Inductive within {A : Type} (P : Res A → Prop) : nat → Run A → Prop :=
| within_settled n r w : P r → within P n (Settled r w)
| within_awaiting n d w k : (∀ w', within P n (k w')) → within P (S n) (Awaiting d w k).

(** The call has not run out of the fuel of the model. *)
Definition finished {A : Type} (r : Res A) : Prop := r ≠ OutOfFuel.

(** The call has returned. *)
Definition returned {A : Type} (r : Res A) : Prop := ∃ a, r = Ret a.

Lemma returned_finished {A : Type} (r : Res A) : returned r → finished r.
Proof. intros [a ->]. discriminate. Qed.

Lemma within_mono {A : Type} (P Q : Res A → Prop) (n m : nat) (r : Run A) :
  within P n r → (n <= m)%nat → (∀ x, P x → Q x) → within Q m r.
Proof.
  intros H. revert m. induction H as [n r w Hr | n d w k _ IH]; intros m Hle HPQ.
  - constructor. auto.
  - destruct m as [|m]; [lia|]. constructor. intros w'. apply IH; [lia | done].
Qed.

Lemma within_then {A B : Type} (Q : Res A → Prop) (P : Res B → Prop) (n m : nat)
      (r : Run A) (k : A → Async.Async B) :
  within Q n r →
  (∀ a w, Q (Ret a) → within P m (k a w)) →
  (∀ e, Q (Throw e) → P (Throw e)) →
  (Q OutOfFuel → P OutOfFuel) →
  within P (n + m) (Async.then_ r k).
Proof.
  intros H Hk He Ho. induction H as [n r w Hr | n d w c _ IH].
  - destruct r as [a|e|]; cbn.
    + eapply within_mono; [by apply Hk | lia | done].
    + constructor. auto.
    + constructor. auto.
  - cbn. constructor. exact IH.
Qed.

Lemma within_catch {A : Type} (Q P : Res A → Prop) (n m : nat)
      (r : Run A) (h : Exn → Async.Async A) :
  within Q n r →
  (∀ e w, Q (Throw e) → within P m (h e w)) →
  (∀ a, Q (Ret a) → P (Ret a)) →
  (Q OutOfFuel → P OutOfFuel) →
  within P (n + m) (Async.catch_ r h).
Proof.
  intros H Hh Ha Ho. induction H as [n r w Hr | n d w c _ IH].
  - destruct r as [a|e|]; cbn.
    + constructor. auto.
    + eapply within_mono; [by apply Hh | lia | done].
    + constructor. auto.
  - cbn. constructor. exact IH.
Qed.

Lemma within_later {A : Type} (P : Res A → Prop) (n : nat) (r : Run A) :
  within P n r → within P (S n) (Async.later r).
Proof.
  induction 1 as [n r w Hr | n d w c _ IH]; cbn.
  - constructor. intros w'. by constructor.
  - constructor. exact IH.
Qed.

Lemma within_bind {A B : Type} (Q : Res A → Prop) (P : Res B → Prop) (n m : nat)
      (c : Async.Async A) (k : A → Async.Async B) (w : World) :
  within Q n (c w) →
  (∀ a w, Q (Ret a) → within P m (k a w)) →
  (∀ e, Q (Throw e) → P (Throw e)) →
  (Q OutOfFuel → P OutOfFuel) →
  within P (n + m) (Async.bind c k w).
Proof. apply within_then. Qed.

Lemma within_try_catch {A : Type} (Q P : Res A → Prop) (n m : nat)
      (c : Async.Async A) (h : Exn → Async.Async A) (w : World) :
  within Q n (c w) →
  (∀ e w, Q (Throw e) → within P m (h e w)) →
  (∀ a, Q (Ret a) → P (Ret a)) →
  (Q OutOfFuel → P OutOfFuel) →
  within P (n + m) (Async.try_catch c h w).
Proof. apply within_catch. Qed.

Lemma within_await {A : Type} (P : Res A → Prop) (n : nat) (c : Async.Async A) (w : World) :
  within P n (c w) → within P (S n) (Async.await c w).
Proof. apply within_later. Qed.

Lemma within_sync {A : Type} (P : Res A → Prop) (n : nat) (m : M A) (w : World) :
  P (m w).1 → within P n (Async.sync m w).
Proof. unfold Async.sync. destruct (m w) as [r w']. by constructor. Qed.

Lemma within_ret {A : Type} (P : Res A → Prop) (n : nat) (a : A) (w : World) :
  P (Ret a) → within P n (Async.ret a w).
Proof. by constructor. Qed.

Lemma within_throw {A : Type} (P : Res A → Prop) (n : nat) (e : Exn) (w : World) :
  P (Throw e) → within P n (Async.throw e w).
Proof. by constructor. Qed.

Variable net : nat -> Exchange.
Variable Number_toString : float -> string.

Lemma within_http (ev : Event) (w : World) :
  within finished 1 (Async.http net ev w).
Proof.
  unfold Async.http. constructor. intros w'.
  destruct (reply _); by constructor.
Qed.

Lemma within_sleep (ms : Z) (w : World) : within returned 1 (Async.sleep ms w).
Proof. constructor. intros w'. constructor. by eexists. Qed.

Lemma returned_not_throw {A : Type} (P : Prop) (e : Exn) : @returned A (Throw e) → P.
Proof. intros [a H]. discriminate. Qed.

Lemma returned_not_out_of_fuel {A : Type} (P : Prop) : @returned A OutOfFuel → P.
Proof. intros [a H]. discriminate. Qed.

Lemma finished_not_out_of_fuel {A : Type} (P : Prop) : @finished A OutOfFuel → P.
Proof. intros H. by destruct H. Qed.

Lemma obterToken_rec_within (fuel retryCount : nat) (w : World) :
  (0 < fuel)%nat →
  (LOGIN_MAX_RETRIES < fuel + retryCount)%nat →
  within finished (3 * fuel) (Async.obterToken_rec net Number_toString fuel retryCount w).
Proof.
  revert retryCount w. induction fuel as [|fuel IH]; intros rc w Hpos Hfuel; [lia|].
  cbn [Async.obterToken_rec].
  destruct (truthy (cachedToken w)); [by constructor|].
  replace (3 * S fuel)%nat with (1 + (2 + 3 * fuel))%nat by lia.
  apply within_try_catch with (Q := finished); [| |done|done].
  - replace 1%nat with (1 + 0)%nat by lia.
    apply within_bind with (Q := finished); [apply within_http | |done|done].
    intros data w1 _. replace 0%nat with (0 + 0)%nat by lia.
    apply within_bind with (Q := finished); [|intros bearerToken w2 _|done|done].
    { apply within_sync. unfold prop. by destruct (nullish data). }
    replace 0%nat with (0 + 0)%nat by lia.
    apply within_bind with (Q := finished); [|intros token_ w3 _|done|done].
    { apply within_sync. unfold prop. by destruct (nullish data). }
    destruct (negb _); [by constructor|].
    replace 0%nat with (0 + 0)%nat by lia.
    apply within_bind with (Q := finished); [|intros _ w4 _|done|done].
    { by apply within_sync. }
    by constructor.
  - intros erro w1 _.
    destruct (status_is erro 500 && (rc <? LOGIN_MAX_RETRIES)%nat) eqn:Hretry.
    + apply andb_prop in Hretry as [_ Hlt]. apply Nat.ltb_lt in Hlt.
      replace (2 + 3 * fuel)%nat with (1 + (S (3 * fuel)))%nat by lia.
      apply within_bind with (Q := returned);
      [apply within_sleep | | intros e; apply returned_not_throw | apply returned_not_out_of_fuel].
      intros _ w2 _. apply within_await. apply IH; lia.
    + replace (2 + 3 * fuel)%nat with (0 + (2 + 3 * fuel))%nat by lia.
      apply within_bind with (Q := finished); [|intros _ w2 _|done|done].
      { by apply within_sync. }
      destruct (status_is erro 500); by constructor.
Qed.

Lemma obterToken_within (w : World) :
  within finished 12 (Async.obterToken net Number_toString w).
Proof.
  apply (obterToken_rec_within 4 0 w); [lia | unfold LOGIN_MAX_RETRIES; lia].
Qed.

Lemma fazerRequisicaoAutenticada_rec_within (fuel retryCount : nat) (w : World) :
  (0 < fuel)%nat →
  (REQ_MAX_RETRIES < fuel + retryCount)%nat →
  within finished (16 * fuel)
         (Async.fazerRequisicaoAutenticada_rec net Number_toString fuel retryCount w).
Proof.
  revert retryCount w. induction fuel as [|fuel IH]; intros rc w Hpos Hfuel; [lia|].
  cbn [Async.fazerRequisicaoAutenticada_rec].
  assert (Hretry : ∀ ms w1, (rc < REQ_MAX_RETRIES)%nat →
            within finished (2 + 16 * fuel)
              (Async.bind (Async.sleep ms)
                 (λ _, Async.await
                         (Async.fazerRequisicaoAutenticada_rec net Number_toString fuel
                            (S rc))) w1)).
  { intros ms w1 Hlt.
    replace (2 + 16 * fuel)%nat with (1 + (S (16 * fuel)))%nat by lia.
    apply within_bind with (Q := returned);
      [apply within_sleep | | intros e; apply returned_not_throw | apply returned_not_out_of_fuel].
    intros _ w2 _. apply within_await. apply IH; lia. }
  replace (16 * S fuel)%nat with (14 + (2 + 16 * fuel))%nat by lia.
  apply within_try_catch with (Q := finished); [| |done|done].
  - replace 14%nat with (13 + 1)%nat by lia.
    apply within_bind with (Q := finished); [|intros token w1 _|done|done].
    { apply within_await, obterToken_within. }
    apply within_http.
  - intros erro w1 _.
    destruct (status_is erro 401 || status_is erro 403).
    + replace (2 + 16 * fuel)%nat with (0 + (2 + 16 * fuel))%nat by lia.
      apply within_bind with (Q := finished); [|intros _ w2 _|done|done].
      { by apply within_sync. }
      destruct (rc <? 1)%nat eqn:Hlt; [|by constructor].
      apply Nat.ltb_lt in Hlt. apply Hretry. unfold REQ_MAX_RETRIES. lia.
    + destruct ((_ || _ || _) && (rc <? REQ_MAX_RETRIES)%nat) eqn:Hr.
      * apply andb_prop in Hr as [_ Hlt]. apply Nat.ltb_lt in Hlt. by apply Hretry.
      * destruct (code_is erro "ECONNABORTED"); [by constructor|].
        destruct (status_ge_500 erro); by constructor.
Qed.

Lemma fazerRequisicaoAutenticada_within (w : World) :
  within finished 48 (Async.fazerRequisicaoAutenticada net Number_toString w).
Proof.
  apply (fazerRequisicaoAutenticada_rec_within 3 0 w);
    [lia | unfold REQ_MAX_RETRIES; lia].
Qed.

(** Whatever runs beside it, the price lookup returned: no end of it is a
    throw. *)
Lemma buscarPrecoProduto_rec_within (fuel : nat) (codProd : string) (retryCount : nat)
      (w : World) :
  (0 < fuel)%nat →
  (PRECO_MAX_RETRIES < fuel + retryCount)%nat →
  within returned (16 * fuel)
         (Async.buscarPrecoProduto_rec net Number_toString fuel codProd retryCount w).
Proof.
  revert retryCount w. induction fuel as [|fuel IH]; intros rc w Hpos Hfuel; [lia|].
  cbn [Async.buscarPrecoProduto_rec].
  replace (16 * S fuel)%nat with (0 + (16 * S fuel))%nat by lia.
  apply within_bind with (Q := returned);
    [| | intros e; apply returned_not_throw | apply returned_not_out_of_fuel].
  { apply within_sync. unfold cache_get. destruct (CacheService.get _ _ _). by eexists. }
  intros cachedPrice w0 _.
  destruct (not_null cachedPrice); [constructor; by eexists|].
  assert (Hretry : ∀ w1, (rc < PRECO_MAX_RETRIES)%nat →
            within returned (2 + 16 * fuel)
              (Async.bind (Async.sleep 500)
                 (λ _, Async.await
                         (Async.buscarPrecoProduto_rec net Number_toString fuel codProd
                            (S rc))) w1)).
  { intros w1 Hlt.
    replace (2 + 16 * fuel)%nat with (1 + (S (16 * fuel)))%nat by lia.
    apply within_bind with (Q := returned);
      [apply within_sleep | | intros e; apply returned_not_throw | apply returned_not_out_of_fuel].
    intros _ w2 _. apply within_await. apply IH; lia. }
  replace (16 * S fuel)%nat with (14 + (2 + 16 * fuel))%nat by lia.
  apply within_try_catch with (Q := finished);
    [| | by eexists | apply finished_not_out_of_fuel].
  - replace 14%nat with (13 + 1)%nat by lia.
    apply within_bind with (Q := finished); [|intros token w1 _|done|done].
    { apply within_await, obterToken_within. }
    replace 1%nat with (1 + 0)%nat by lia.
    apply within_bind with (Q := finished); [apply within_http | |done|done].
    intros data w2 _. replace 0%nat with (0 + 0)%nat by lia.
    apply within_bind with (Q := finished); [|intros preco w3 _|done|done].
    { apply within_sync, extrair_preco_ends. }
    replace 0%nat with (0 + 0)%nat by lia.
    apply within_bind with (Q := finished); [|intros _ w4 _|done|done].
    { by apply within_sync. }
    by constructor.
  - intros erro w1 _.
    replace (2 + 16 * fuel)%nat with (0 + (2 + 16 * fuel))%nat by lia.
    apply within_bind with (Q := returned);
      [| intros _ w2 _ | intros e; apply returned_not_throw | apply returned_not_out_of_fuel].
    { destruct (_ || _); [apply within_sync | constructor]; by eexists. }
    destruct ((_ || _) && (rc <? 1)%nat) eqn:Ha.
    { apply andb_prop in Ha as [_ Hlt]. apply Nat.ltb_lt in Hlt.
      apply Hretry. unfold PRECO_MAX_RETRIES. lia. }
    destruct ((_ || _) && (rc <? PRECO_MAX_RETRIES)%nat) eqn:Hr.
    { apply andb_prop in Hr as [_ Hlt]. apply Nat.ltb_lt in Hlt. by apply Hretry. }
    constructor. by eexists.
Qed.

Lemma buscarPrecoProduto_within (codProd : string) (w : World) :
  within returned 32 (Async.buscarPrecoProduto net Number_toString codProd w).
Proof.
  apply (buscarPrecoProduto_rec_within 2 codProd 0 w);
    [lia | unfold PRECO_MAX_RETRIES; lia].
Qed.

Lemma consultarEstoqueProduto_within (codProd searchLocal : string) (w : World) :
  within finished 49 (Async.consultarEstoqueProduto net Number_toString codProd searchLocal w).
Proof.
  unfold Async.consultarEstoqueProduto.
  replace 49%nat with (0 + 49)%nat by lia.
  apply within_bind with (Q := finished); [| |done|done].
  { apply within_sync. unfold cache_get. by destruct (CacheService.get _ _ _). }
  intros cachedEstoque w0 _.
  destruct (not_null cachedEstoque); [by constructor|].
  replace 49%nat with (49 + 0)%nat by lia.
  apply within_bind with (Q := finished); [| |done|done].
  { apply within_await, fazerRequisicaoAutenticada_within. }
  intros respostaCompleta w1 _.
  destruct (negb _); [by constructor|].
  destruct (_ || _); [by constructor|].
  replace 0%nat with (0 + 0)%nat by lia.
  apply within_bind with (Q := finished); [| |done|done].
  { apply within_sync, ends_mapearEntidades. }
  intros lista w2 _. replace 0%nat with (0 + 0)%nat by lia.
  apply within_bind with (Q := finished); [| |done|done].
  { by apply within_sync. }
  intros _ w3 _. by constructor.
Qed.

End AsyncFacts.

(* ===================================================================== *)
(** ** A call that nothing runs beside *)
(* ===================================================================== *)

Section AloneFacts.

Import ProdutosService.
Import Async(Run, Settled, Awaiting, at_time, alone).

Lemma at_time_tick (w : World) : at_time (now w + 0) w = w.
Proof. destruct w. unfold at_time. cbn. f_equal. lia. Qed.

Lemma alone_then {A B : Type} (r : Run A) (k : A → Async.Async B) :
  alone (Async.then_ r k)
  = match alone r with
    | (Ret a, w) => alone (k a w)
    | (Throw e, w) => (Throw e, w)
    | (OutOfFuel, w) => (OutOfFuel, w)
    end.
Proof.
  induction r as [[a|e|] w | d w c IH]; cbn; try reflexivity. apply IH.
Qed.

Lemma alone_catch {A : Type} (r : Run A) (h : Exn → Async.Async A) :
  alone (Async.catch_ r h)
  = match alone r with
    | (Throw e, w) => alone (h e w)
    | x => x
    end.
Proof.
  induction r as [[a|e|] w | d w c IH]; cbn; try reflexivity. apply IH.
Qed.

Lemma alone_later {A : Type} (r : Run A) : alone (Async.later r) = alone r.
Proof.
  induction r as [res w | d w c IH]; cbn; [by rewrite at_time_tick | apply IH].
Qed.

Lemma alone_bind {A B : Type} (c : Async.Async A) (k : A → Async.Async B) (w : World) :
  alone (Async.bind c k w) = bind (λ w, alone (c w)) (λ a w, alone (k a w)) w.
Proof. unfold Async.bind, bind. rewrite alone_then. by destruct (alone (c w)) as [[a|e|] w']. Qed.

Lemma alone_try_catch {A : Type} (c : Async.Async A) (h : Exn → Async.Async A) (w : World) :
  alone (Async.try_catch c h w)
  = try_catch (λ w, alone (c w)) (λ e w, alone (h e w)) w.
Proof.
  unfold Async.try_catch, try_catch. rewrite alone_catch.
  by destruct (alone (c w)) as [[a|e|] w'].
Qed.

Lemma alone_await {A : Type} (c : Async.Async A) (w : World) :
  alone (Async.await c w) = alone (c w).
Proof. apply alone_later. Qed.

Lemma alone_sync {A : Type} (m : M A) (w : World) : alone (Async.sync m w) = m w.
Proof. unfold Async.sync. by destruct (m w). Qed.

Lemma bind_ext {A B : Type} (m m' : M A) (k k' : A → M B) (w : World) :
  (∀ w, m w = m' w) → (∀ a w, k a w = k' a w) → bind m k w = bind m' k' w.
Proof. intros Hm Hk. unfold bind. rewrite Hm. destruct (m' w) as [[a|e|] w']; auto. Qed.

Lemma try_catch_ext {A : Type} (m m' : M A) (h h' : Exn → M A) (w : World) :
  (∀ w, m w = m' w) → (∀ e w, h e w = h' e w) → try_catch m h w = try_catch m' h' w.
Proof.
  intros Hm Hh. unfold try_catch. rewrite Hm. destruct (m' w) as [[a|e|] w']; auto.
Qed.

Variable net : nat -> Exchange.
Variable Number_toString : float -> string.

(** No exchange takes a negative time. *)
Hypothesis took_nonneg : ∀ n, 0 <= took (net n).

Lemma alone_http (ev : Event) (w : World) :
  alone (Async.http net ev w) = http net ev w.
Proof.
  unfold Async.http, http, called. cbn [alone]. unfold at_time, Async.issued.
  cbn [now calls cachedToken cache trace].
  rewrite Z.max_r by (specialize (took_nonneg (calls w)); lia).
  by destruct (reply (net (calls w))).
Qed.

Lemma alone_sleep (ms : Z) (w : World) :
  0 <= ms → alone (Async.sleep ms w) = sleep ms w.
Proof.
  intros Hms. unfold Async.sleep, sleep, slept. cbn [alone]. unfold at_time.
  cbn [now calls cachedToken cache trace]. by rewrite Z.max_r by lia.
Qed.

(** Both sides are built from the same parts in the same way. *)
Ltac same_parts IH :=
  repeat first
    [ reflexivity
    | apply alone_sync
    | apply alone_http
    | apply alone_sleep;
      unfold LOGIN_RETRY_DELAY, REQ_RETRY_DELAY; lia
    | apply IH
    | rewrite alone_await
    | rewrite alone_bind; apply bind_ext; [intros ? | intros ? ?]; cbv beta
    | rewrite alone_try_catch; apply try_catch_ext; [intros ? | intros ? ?]; cbv beta
    | match goal with
      | |- alone ((if ?b then _ else _) _) = _ => destruct b
      end ].

Lemma obterToken_rec_alone (fuel retryCount : nat) (w : World) :
  alone (Async.obterToken_rec net Number_toString fuel retryCount w)
  = obterToken_rec net Number_toString fuel retryCount w.
Proof.
  revert retryCount w. induction fuel as [|fuel IH]; intros rc w;
    cbn [Async.obterToken_rec obterToken_rec].
  - by destruct (truthy (cachedToken w)).
  - destruct (truthy (cachedToken w)); [reflexivity|].
    same_parts IH.
Qed.

Lemma obterToken_alone (w : World) :
  alone (Async.obterToken net Number_toString w) = obterToken net Number_toString w.
Proof. apply obterToken_rec_alone. Qed.

Lemma fazerRequisicaoAutenticada_rec_alone (fuel retryCount : nat) (w : World) :
  alone (Async.fazerRequisicaoAutenticada_rec net Number_toString fuel retryCount w)
  = fazerRequisicaoAutenticada_rec net Number_toString fuel retryCount w.
Proof.
  revert retryCount w. induction fuel as [|fuel IH]; intros rc w; [reflexivity|].
  cbn [Async.fazerRequisicaoAutenticada_rec fazerRequisicaoAutenticada_rec].
  pose proof obterToken_alone as Htoken.
  same_parts IH; try apply Htoken.
  all: same_parts IH.
Qed.

Lemma buscarPrecoProduto_rec_alone (fuel : nat) (codProd : string) (retryCount : nat)
      (w : World) :
  alone (Async.buscarPrecoProduto_rec net Number_toString fuel codProd retryCount w)
  = buscarPrecoProduto_rec net Number_toString fuel codProd retryCount w.
Proof.
  revert retryCount w. induction fuel as [|fuel IH]; intros rc w;
    cbn [Async.buscarPrecoProduto_rec buscarPrecoProduto_rec].
  - same_parts IH.
  - pose proof obterToken_alone as Htoken.
    same_parts IH; try apply Htoken.
    all: same_parts IH.
Qed.

Lemma consultarEstoqueProduto_alone (codProd searchLocal : string) (w : World) :
  alone (Async.consultarEstoqueProduto net Number_toString codProd searchLocal w)
  = consultarEstoqueProduto net Number_toString codProd searchLocal w.
Proof.
  unfold Async.consultarEstoqueProduto, consultarEstoqueProduto.
  pose proof (fazerRequisicaoAutenticada_rec_alone 3 0) as Hreq.
  same_parts Hreq.
Qed.

(** X27: run alone, with exchanges that take no negative time, each [async]
    function kept with its [await]s is the function of the same name in
    [ProdutosService]: same result, same world afterwards. *)
Theorem alone_is_sequential (codProd searchLocal : string) (w : World) :
  alone (Async.obterToken net Number_toString w) = obterToken net Number_toString w ∧
  alone (Async.fazerRequisicaoAutenticada net Number_toString w)
  = fazerRequisicaoAutenticada net Number_toString w ∧
  alone (Async.buscarPrecoProduto net Number_toString codProd w)
  = buscarPrecoProduto net Number_toString codProd w ∧
  alone (Async.consultarEstoqueProduto net Number_toString codProd searchLocal w)
  = consultarEstoqueProduto net Number_toString codProd searchLocal w.
Proof.
  split; [apply obterToken_alone|].
  split; [apply fazerRequisicaoAutenticada_rec_alone|].
  split; [apply buscarPrecoProduto_rec_alone | apply consultarEstoqueProduto_alone].
Qed.

End AloneFacts.

(* ===================================================================== *)
(** ** The event loop: every wait of the driving code comes to an end *)
(* ===================================================================== *)

Section LoopFacts.

Import ProdutosService EventLoop.
Import Async(Run, Settled, Awaiting, at_time).

(** What is known of how a call started in the loop ends: whether it can
    only return, and a bound on the waits it has left. *)
Definition outcome_ok (must_return : bool) (r : Res JsVal) : Prop :=
  if must_return then returned r else finished r.

Definition fits (spec : nat * bool) (t : Task JsVal) : Prop :=
  match t with
  | Done r => outcome_ok spec.2 r
  | Parked _ _ k => ∃ m, (m < spec.1)%nat ∧ ∀ w, within (outcome_ok spec.2) m (k w)
  end.

Definition weight (specs : list (nat * bool)) : nat := sum_list specs.*1.

(** The calls in the loop all end, and [n] turns take them all to their
    ends. *)
Definition bounded (n : nat) (st : Loop) : Prop :=
  ∃ specs, Forall2 fits specs (tasks st) ∧ (weight specs <= n)%nat.

Lemma outcome_ok_finished (b : bool) (r : Res JsVal) : outcome_ok b r → finished r.
Proof. destruct b; [apply returned_finished | done]. Qed.

Lemma park_fits (b : bool) (n turn : nat) (r : Run JsVal) :
  within (outcome_ok b) n r → fits (n, b) (park turn r).1.
Proof.
  destruct 1 as [n r w Hr | n d w k Hk]; cbn; [done|].
  exists n. split; [lia | done].
Qed.

Lemma weight_app (l1 l2 : list (nat * bool)) :
  weight (l1 ++ l2) = (weight l1 + weight l2)%nat.
Proof.
  unfold weight. induction l1 as [|[n b] l1 IH]; [done|]. cbn in *. lia.
Qed.

Lemma weight_insert (specs : list (nat * bool)) (id n m : nat) (b : bool) :
  specs !! id = Some (n, b) →
  (weight (<[id := (m, b)]> specs) + n = weight specs + m)%nat.
Proof.
  revert id. induction specs as [|[n0 b0] specs IH]; intros [|id] H; try discriminate.
  - injection H as -> ->. unfold weight. cbn. lia.
  - cbn in H. specialize (IH id H).
    change (<[S id := (m, b)]> ((n0, b0) :: specs))
      with ([(n0, b0)] ++ <[id := (m, b)]> specs).
    change ((n0, b0) :: specs) with ([(n0, b0)] ++ specs).
    rewrite !weight_app. lia.
Qed.

Lemma insert_kinds (specs : list (nat * bool)) (id n m : nat) (b : bool) :
  specs !! id = Some (n, b) → (<[id := (m, b)]> specs).*2 = specs.*2.
Proof.
  intros H. rewrite list_fmap_insert. cbn. apply list_insert_id.
  by rewrite list_lookup_fmap, H.
Qed.

(** One turn of the loop with a parked call brings the calls nearer to
    their ends. *)
Lemma resume_fits (specs : list (nat * bool)) (id : nat) (st : Loop)
      (wake : Z) (turn : nat) (k : World → Run JsVal) :
  Forall2 fits specs (tasks st) →
  tasks st !! id = Some (Parked wake turn k) →
  ∃ specs', Forall2 fits specs' (tasks (resume id st)) ∧
    (weight specs' < weight specs)%nat ∧ specs'.*2 = specs.*2 ∧
    length (tasks (resume id st)) = length (tasks st).
Proof.
  intros Hfits Hid.
  destruct (Forall2_lookup_r _ _ _ _ _ Hfits Hid) as ([n b] & Hspec & m & Hm & Hk).
  cbn [fst snd] in Hm, Hk.
  unfold resume. rewrite Hid.
  pose proof (park_fits b m (turns st) _ (Hk (at_time wake (world st)))) as Hpark.
  destruct (park (turns st) (k (at_time wake (world st)))) as [t w'].
  cbn [tasks fst] in *.
  exists (<[id := (m, b)]> specs). split; [|split; [|split]].
  - by apply Forall2_insert.
  - pose proof (weight_insert specs id n m b Hspec). lia.
  - by eapply insert_kinds.
  - by rewrite length_insert.
Qed.

Lemma parked_elem (ts : list (Task JsVal)) :
  ∀ i id key, (id, key) ∈ parked i ts →
    (i <= id)%nat ∧ ∃ k, ts !! (id - i)%nat = Some (Parked key.1 key.2 k).
Proof.
  induction ts as [|[r|wake turn k] ts IH]; intros i id key H; cbn in H.
  - by apply elem_of_nil in H.
  - destruct (IH _ _ _ H) as [Hle [k Hk]]. split; [lia|]. exists k.
    replace (id - i)%nat with (S (id - S i)) by lia. exact Hk.
  - apply elem_of_cons in H as [H|H].
    + injection H as -> ->. split; [lia|]. exists k. by rewrite Nat.sub_diag.
    + destruct (IH _ _ _ H) as [Hle [k' Hk]]. split; [lia|]. exists k'.
      replace (id - i)%nat with (S (id - S i)) by lia. exact Hk.
Qed.

Lemma parked_nil (ts : list (Task JsVal)) (i : nat) :
  parked i ts = [] ↔ ∀ j wake turn k, ts !! j ≠ Some (Parked wake turn k).
Proof.
  revert i. induction ts as [|[r|wake turn k] ts IH]; intros i; cbn.
  - split; [|done]. intros _ j wake turn k. by rewrite lookup_nil.
  - rewrite IH. split.
    + intros H [|j] wake turn k; [done | apply H].
    + intros H j wake turn k. apply (H (S j)).
  - split; [done|]. intros H. by specialize (H 0%nat wake turn k).
Qed.

Variable sched : Scheduler.

Lemma next_some (more : list (nat * (Z * nat))) (st : Loop) (id : nat) :
  next sched more st = Some id → ∃ key, (id, key) ∈ parked 0 (tasks st) ++ more.
Proof.
  unfold next. destruct (parked 0 (tasks st) ++ more) as [|c l] eqn:Hw; [done|].
  intros H. apply fmap_Some in H as ([id' key] & Hl & ->).
  exists key. by eapply list_elem_of_lookup_2.
Qed.

Lemma next_none (more : list (nat * (Z * nat))) (st : Loop) :
  next sched more st = None → parked 0 (tasks st) ++ more = [].
Proof.
  unfold next. destruct (parked 0 (tasks st) ++ more) as [|c l] eqn:Hw; [done|].
  intros H. apply fmap_None in H. apply lookup_ge_None in H.
  pose proof (Nat.mod_upper_bound (sched (turns st) (c :: l).*2) (length (c :: l))
                ltac:(done)). lia.
Qed.

Lemma all_settled_none (tp ts : Task JsVal) :
  all_settled (Some tp) (Some ts) = None →
  (∃ wake turn k, tp = Parked wake turn k) ∨ (∃ wake turn k, ts = Parked wake turn k).
Proof.
  destruct tp as [[a|e|]|wake turn k]; [| | |left; eauto];
    (destruct ts as [[b|e'|]|wake turn k]; [| | |right; eauto]); done.
Qed.

(** [Promise.all] of two calls in the loop settles, whichever turns the
    loop takes. *)
Lemma Promise_all_settles (fuel p s : nat) :
  ∀ (st : Loop) (specs : list (nat * bool)),
    Forall2 fits specs (tasks st) →
    (p < length (tasks st))%nat → (s < length (tasks st))%nat →
    (weight specs < fuel)%nat →
    ∃ r st' specs',
      Promise_all sched fuel p s st = (r, st') ∧
      all_settled (tasks st' !! p) (tasks st' !! s) = Some r ∧
      r ≠ OutOfFuel ∧
      Forall2 fits specs' (tasks st') ∧
      (weight specs' <= weight specs)%nat ∧ specs'.*2 = specs.*2.
Proof.
  induction fuel as [|fuel IH]; intros st specs Hfits Hp Hs Hfuel; [lia|].
  cbn [Promise_all].
  destruct (lookup_lt_is_Some_2 _ _ Hp) as [tp Htp].
  destruct (lookup_lt_is_Some_2 _ _ Hs) as [ts Hts].
  destruct (all_settled (tasks st !! p) (tasks st !! s)) as [r|] eqn:Hall.
  - exists r, st, specs. split; [done|]. split; [done|]. split; [|done].
    rewrite Htp, Hts in Hall.
    destruct (Forall2_lookup_r _ _ _ _ _ Hfits Htp) as ([np bp] & _ & Hfp).
    destruct (Forall2_lookup_r _ _ _ _ _ Hfits Hts) as ([ns bs] & _ & Hfs).
    intros ->.
    destruct tp as [[a|e|]|wake turn k]; destruct ts as [[b|e'|]|wake' turn' k'];
      cbn in Hall; try discriminate;
      first [ by apply outcome_ok_finished in Hfp
            | by apply outcome_ok_finished in Hfs ].
  - assert (Hparked : parked 0 (tasks st) ≠ []).
    { rewrite Htp, Hts in Hall. intros Hnil.
      destruct (all_settled_none _ _ Hall) as [(wake & turn & k & ->)|(wake & turn & k & ->)].
      - by eapply (proj1 (parked_nil _ _) Hnil).
      - by eapply (proj1 (parked_nil _ _) Hnil). }
    destruct (next sched [] st) as [id|] eqn:Hnext.
    + destruct (next_some _ _ _ Hnext) as [key Hin]. rewrite app_nil_r in Hin.
      destruct (parked_elem _ _ _ _ Hin) as [_ [k Hk]]. rewrite Nat.sub_0_r in Hk.
      destruct (resume_fits specs id st _ _ _ Hfits Hk) as (specs1 & Hfits1 & Hw1 & Hk1 & Hlen).
      destruct (IH (resume id st) specs1 Hfits1 ltac:(lia) ltac:(lia) ltac:(lia))
        as (r & st' & specs' & Hrun & Hall' & Hr & Hfits' & Hw' & Hk').
      exists r, st', specs'. split; [done|]. split; [done|]. split; [done|].
      split; [done|]. split; [lia | congruence].
    + apply next_none in Hnext. rewrite app_nil_r in Hnext. done.
Qed.

(** A wait of the driving code ends, whichever turns the loop takes. *)
Lemma wait_ends (fuel : nat) (wake : Z) (turn : nat) :
  ∀ (st : Loop) (specs : list (nat * bool)),
    Forall2 fits specs (tasks st) →
    (weight specs < fuel)%nat →
    ∃ st' specs',
      wait sched fuel wake turn st = (Ret tt, st') ∧
      Forall2 fits specs' (tasks st') ∧
      (weight specs' <= weight specs)%nat ∧ specs'.*2 = specs.*2 ∧
      length (tasks st') = length (tasks st).
Proof.
  induction fuel as [|fuel IH]; intros st specs Hfits Hfuel; [lia|].
  cbn [wait].
  destruct (next sched [(length (tasks st), (wake, turn))] st) as [id|] eqn:Hnext.
  - destruct (id <? length (tasks st))%nat eqn:Hlt.
    + apply Nat.ltb_lt in Hlt.
      destruct (next_some _ _ _ Hnext) as [key Hin].
      apply elem_of_app in Hin as [Hin|Hin].
      * destruct (parked_elem _ _ _ _ Hin) as [_ [k Hk]]. rewrite Nat.sub_0_r in Hk.
        destruct (resume_fits specs id st _ _ _ Hfits Hk)
          as (specs1 & Hfits1 & Hw1 & Hk1 & Hlen).
        destruct (IH (resume id st) specs1 Hfits1 ltac:(lia))
          as (st' & specs' & Hrun & Hfits' & Hw' & Hk' & Hlen').
        exists st', specs'. split; [done|]. split; [done|].
        split; [lia|]. split; congruence.
      * apply list_elem_of_singleton in Hin. injection Hin as -> _. lia.
    + eexists _, specs. split; [reflexivity|]. cbn [tasks]. done.
  - apply next_none in Hnext. by destruct (parked 0 (tasks st)).
Qed.

End LoopFacts.

(* ===================================================================== *)
(** ** The batch endpoint *)
(* ===================================================================== *)

Section BatchFacts.

Import ProdutosService EventLoop BatchInfo.
Import Async(Run, Settled, Awaiting, at_time).
Local Open Scope loop_scope.

Variable net : nat -> Exchange.
Variable Number_toString : float -> string.
Variable sched : Scheduler.

Local Abbreviation String_ := (js_String Number_toString).
Local Abbreviation batch_item := (BatchInfo.batch_item net Number_toString sched).
Local Abbreviation batch_loop := (BatchInfo.batch_loop net Number_toString sched).
Local Abbreviation POST := (BatchInfo.POST net Number_toString sched).

(** The loop of the endpoint as a left-to-right pass over a list of codes,
    the first of them at position [i]. *)
Fixpoint batch_pass (items : list JsVal) (i limit : nat)
         (results : list (string * JsVal)) : P (list (string * JsVal)) :=
  match items with
  | [] => ret results
  | codProd :: rest =>
      let* results := batch_item codProd i limit results in
      batch_pass rest (S i) limit results
  end.

(** The loop after the two lookups of a code have been started, the price
    lookup first: they are the calls at the positions [length (tasks st)]
    and [S (length (tasks st))]. *)
Definition both_started (codProd : string) (st : Loop) : Loop :=
  (start (Async.consultarEstoqueProduto net Number_toString codProd "")
     (start (Async.buscarPrecoProduto net Number_toString codProd) st).2).2.

(** The entry stored for a code in a turn in which [Promise.all] came to
    [r]. *)
Definition entry_of (r : Res (JsVal * JsVal)) : JsVal :=
  match r with
  | Ret (preco, estoque) =>
      if nullish estoque then entry_error
      else entry preco (member estoque "estoqueTotal")
  | _ => entry_error
  end.

Lemma loop_bind_ret {A B : Type} (m : P A) (k : A → P B) (st st' : Loop) (a : A) :
  m st = (Ret a, st') → bind m k st = k a st'.
Proof. unfold bind. by intros ->. Qed.

Lemma loop_bind_throw {A B : Type} (m : P A) (k : A → P B) (st st' : Loop) (e : Exn) :
  m st = (Throw e, st') → bind m k st = (Throw e, st').
Proof. unfold bind. by intros ->. Qed.

Lemma loop_try_ret {A : Type} (m : P A) (h : Exn → P A) (st st' : Loop) (a : A) :
  m st = (Ret a, st') → try_catch m h st = (Ret a, st').
Proof. unfold try_catch. by intros ->. Qed.

Lemma loop_try_throw {A : Type} (m : P A) (h : Exn → P A) (st st' : Loop) (e : Exn) :
  m st = (Throw e, st') → try_catch m h st = h e st'.
Proof. unfold try_catch. by intros ->. Qed.

Lemma start_fits (m : Async.Async JsVal) (b : bool) (n : nat) (st : Loop)
      (specs : list (nat * bool)) :
  (∀ w, within (outcome_ok b) n (m w)) →
  Forall2 fits specs (tasks st) →
  (start m st).1 = Ret (length (tasks st)) ∧
  length (tasks (start m st).2) = S (length (tasks st)) ∧
  Forall2 fits (specs ++ [(n, b)]) (tasks (start m st).2).
Proof.
  intros Hm Hfits. unfold start.
  pose proof (park_fits b n (turns st) _ (Hm (world st))) as Hpark.
  destruct (park (turns st) (m (world st))) as [t w']. cbn [fst snd tasks] in *.
  split; [done|]. split.
  - rewrite length_app. cbn. lia.
  - apply Forall2_app; [done|]. by constructor.
Qed.

Lemma tick_ends (st : Loop) (specs : list (nat * bool)) :
  Forall2 fits specs (tasks st) →
  (weight specs < TURNS)%nat →
  ∃ st' specs',
    tick sched st = (Ret tt, st') ∧
    Forall2 fits specs' (tasks st') ∧
    (weight specs' <= weight specs)%nat ∧ specs'.*2 = specs.*2 ∧
    length (tasks st') = length (tasks st).
Proof.
  intros Hfits Hw. unfold tick.
  by apply (wait_ends sched TURNS _ _ (mkLoop (world st) (tasks st) (S (turns st))) specs).
Qed.

Lemma sleep_ends (ms : Z) (st : Loop) (specs : list (nat * bool)) :
  Forall2 fits specs (tasks st) →
  (weight specs < TURNS)%nat →
  ∃ st' specs',
    sleep sched ms st = (Ret tt, st') ∧
    Forall2 fits specs' (tasks st') ∧
    (weight specs' <= weight specs)%nat ∧ specs'.*2 = specs.*2 ∧
    length (tasks st') = length (tasks st).
Proof.
  intros Hfits Hw. unfold sleep.
  by apply (wait_ends sched TURNS _ _ (mkLoop _ (tasks st) (S (turns st))) specs).
Qed.

Lemma fetch_both_started (codProd : string) (st : Loop) :
  fetch_both net Number_toString sched codProd st
  = await sched (Promise_all sched TURNS (length (tasks st)) (S (length (tasks st))))
          (both_started codProd st).
Proof.
  unfold fetch_both, both_started, bind, start.
  destruct (park (turns st) _) as [tp w1]. cbn [tasks world turns snd].
  destruct (park (S (turns st)) _) as [ts w2]. cbn [tasks world turns snd].
  rewrite length_app. cbn [length]. by rewrite Nat.add_1_r.
Qed.

Lemma all_settled_ret (tp ts : option (Task JsVal)) (a b : JsVal) :
  all_settled tp ts = Some (Ret (a, b)) →
  tp = Some (Done (Ret a)) ∧ ts = Some (Done (Ret b)).
Proof.
  destruct tp as [[[a'|e|]|wake turn k]|]; destruct ts as [[[b'|e'|]|wake' turn' k']|];
    cbn; intros H; try discriminate. by injection H as -> ->.
Qed.

Lemma all_settled_throw (tp ts : option (Task JsVal)) (e : Exn) :
  all_settled tp ts = Some (Throw e) →
  tp = Some (Done (Throw e)) ∨ ts = Some (Done (Throw e)).
Proof.
  destruct tp as [[[a'|e0|]|wake turn k]|]; destruct ts as [[[b'|e'|]|wake' turn' k']|];
    cbn; intros H; try discriminate; injection H as ->; auto.
Qed.

(** The bound on the waits of the two lookups of one code. *)
Definition LOOKUPS : nat := 81.

(** One turn of the loop of the endpoint, by what [Promise.all] of the two
    lookups comes to: it never throws, and it stores the entry of the code;
    the calls in the loop still end, and the two lookups have added at most
    [LOOKUPS] turns to what they have left. *)
Lemma batch_item_spec (codProd : JsVal) (i limit : nat)
      (results : list (string * JsVal)) (st : Loop) (specs : list (nat * bool)) :
  Forall2 fits specs (tasks st) →
  (weight specs + LOOKUPS < TURNS)%nat →
  let key := String_ codProd in
  let p := length (tasks st) in
  ∃ r st1,
    Promise_all sched TURNS p (S p) (both_started key st) = (r, st1) ∧
    match r with
    | Ret (preco, estoque) =>
        tasks st1 !! p = Some (Done (Ret preco)) ∧
        tasks st1 !! S p = Some (Done (Ret estoque))
    | Throw e => tasks st1 !! S p = Some (Done (Throw e))
    | OutOfFuel => False
    end ∧
    ∃ st2 specs2,
      batch_item codProd i limit results st
      = (Ret (obj_set key (entry_of r) results), st2) ∧
      Forall2 fits specs2 (tasks st2) ∧
      (weight specs2 <= weight specs + LOOKUPS)%nat.
Proof.
  intros Hfits Hw key p. unfold LOOKUPS in *.
  (* the two lookups are started *)
  destruct (start_fits (Async.buscarPrecoProduto net Number_toString key) true 32 st specs)
    as (_ & Hlen1 & Hfits1); [intros w; apply buscarPrecoProduto_within | done |].
  set (st_p := (start (Async.buscarPrecoProduto net Number_toString key) st).2) in *.
  destruct (start_fits (Async.consultarEstoqueProduto net Number_toString key "")
              false 49 st_p (specs ++ [(32%nat, true)]))
    as (_ & Hlen2 & Hfits2); [intros w; apply consultarEstoqueProduto_within | done |].
  subst st_p. fold (both_started key st) in Hlen2, Hfits2.
  set (specs0 := (specs ++ [(32%nat, true)]) ++ [(49%nat, false)]) in *.
  assert (Hw0 : weight specs0 = (weight specs + 81)%nat).
  { subst specs0. rewrite !weight_app. unfold weight. cbn. lia. }
  assert (Hkind : specs0.*2 !! p = Some true).
  { subst specs0. rewrite !fmap_app, <- app_assoc.
    rewrite lookup_app_r; rewrite length_fmap, (Forall2_length _ _ _ Hfits); [|done].
    by rewrite Nat.sub_diag. }
  (* Promise.all settles *)
  assert (Hlen : length (tasks (both_started key st)) = S (S p)) by (unfold p; lia).
  destruct (Promise_all_settles sched TURNS p (S p) (both_started key st) specs0 Hfits2
              ltac:(lia) ltac:(lia) ltac:(lia))
    as (r & st1 & specs1 & Hrun & Hall & Hr & Hfits3 & Hw1 & Hk1).
  exists r, st1. split; [exact Hrun|].
  assert (Hcases : match r with
                   | Ret (preco, estoque) =>
                       tasks st1 !! p = Some (Done (Ret preco)) ∧
                       tasks st1 !! S p = Some (Done (Ret estoque))
                   | Throw e => tasks st1 !! S p = Some (Done (Throw e))
                   | OutOfFuel => False
                   end).
  { destruct r as [[preco estoque]|e|]; [by apply all_settled_ret | | done].
    destruct (all_settled_throw _ _ _ Hall) as [Hp|Hs]; [|done].
    exfalso.
    destruct (Forall2_lookup_r _ _ _ _ _ Hfits3 Hp) as ([n b] & Hspec & Hfit).
    assert (b = true) as ->.
    { rewrite <- Hk1 in Hkind. rewrite list_lookup_fmap, Hspec in Hkind.
      by injection Hkind. }
    cbn in Hfit. destruct Hfit as [a Ha]. discriminate. }
  split; [exact Hcases|].
  (* the driving code goes on one turn later *)
  destruct (tick_ends st1 specs1 Hfits3 ltac:(unfold TURNS in *; lia))
    as (st2 & specs2 & Htick & Hfits4 & Hw2 & _ & _).
  assert (Hfetch : fetch_both net Number_toString sched key st = (r, st2)).
  { rewrite fetch_both_started. unfold await. fold p. by rewrite Hrun, Htick. }
  unfold BatchInfo.batch_item. fold key.
  destruct r as [[preco estoque]|e|]; [| |done].
  - cbn [fst snd entry_of].
    destruct (nullish estoque) eqn:Hn.
    + exists st2, specs2. split; [|split; [done | lia]].
      erewrite loop_try_throw; [reflexivity|].
      rewrite (loop_bind_ret _ _ _ _ _ Hfetch). cbn [fst snd].
      apply loop_bind_throw. unfold sync, prop. rewrite Hn. cbn. by destruct st2.
    + destruct (Z.of_nat i <? Z.of_nat limit - 1) eqn:Hi.
      * destruct (sleep_ends 100 st2 specs2 Hfits4 ltac:(unfold TURNS in *; lia))
          as (st3 & specs3 & Hsleep & Hfits5 & Hw3 & _ & _).
        exists st3, specs3. split; [|split; [done | lia]].
        apply loop_try_ret.
        rewrite (loop_bind_ret _ _ _ _ _ Hfetch). cbn [fst snd].
        erewrite loop_bind_ret; [|unfold sync, prop; rewrite Hn; cbn; by destruct st2].
        by rewrite (loop_bind_ret _ _ _ _ _ Hsleep).
      * exists st2, specs2. split; [|split; [done | lia]].
        apply loop_try_ret.
        rewrite (loop_bind_ret _ _ _ _ _ Hfetch). cbn [fst snd].
        erewrite loop_bind_ret; [|unfold sync, prop; rewrite Hn; cbn; by destruct st2].
        reflexivity.
  - exists st2, specs2. split; [|split; [done | lia]].
    erewrite loop_try_throw; [reflexivity|].
    by apply loop_bind_throw.
Qed.

Lemma obj_set_keys (k : string) (v : JsVal) (o : list (string * JsVal)) (k' : string) :
  k' ∈ (obj_set k v o).*1 ↔ k' = k ∨ k' ∈ o.*1.
Proof.
  induction o as [|[k0 v0] o IH]; cbn.
  - set_solver.
  - destruct (String.eqb_spec k k0) as [->|Hne]; cbn; [set_solver|].
    rewrite !elem_of_cons, IH. tauto.
Qed.

Lemma obj_set_values (k : string) (v : JsVal) (o : list (string * JsVal))
      (kv : string * JsVal) :
  kv ∈ obj_set k v o → kv = (k, v) ∨ kv ∈ o.
Proof.
  induction o as [|[k0 v0] o IH]; cbn.
  - intros H. apply list_elem_of_singleton in H. by left.
  - destruct (String.eqb_spec k k0) as [->|Hne].
    + intros H. apply elem_of_cons in H as [->|H]; [by left | right; by right].
    + intros H. apply elem_of_cons in H as [->|H]; [right; by left|].
      destruct (IH H); [by left | right; by right].
Qed.

Lemma entry_of_cases (r : Res (JsVal * JsVal)) :
  entry_of r = entry_error ∨ ∃ preco total, entry_of r = entry preco total.
Proof.
  destruct r as [[preco estoque]|e|]; cbn; [|by left|by left].
  destruct (nullish estoque); [by left | right; eauto].
Qed.

(** The loop visits the codes at positions [i], [i+1], ..., [i+todo-1]. *)
Lemma batch_loop_pass (codigos : list JsVal) (limit : nat) :
  ∀ todo i results st,
    (i + todo <= length codigos)%nat →
    batch_loop todo i limit codigos results st
    = batch_pass (firstn todo (skipn i codigos)) i limit results st.
Proof.
  induction todo as [|todo IH]; intros i results st Hlen; [reflexivity|].
  cbn [BatchInfo.batch_loop].
  destruct (skipn i codigos) as [|c rest] eqn:Hskip.
  { apply (f_equal length) in Hskip. rewrite length_skipn in Hskip. cbn in Hskip. lia. }
  assert (Hnth : nth i codigos JUndefined = c).
  { rewrite <- (firstn_skipn i codigos) at 1. rewrite Hskip.
    rewrite app_nth2; rewrite length_firstn; [|lia].
    by replace (i - Nat.min i (length codigos))%nat with 0%nat by lia. }
  assert (Hrest : skipn (S i) codigos = rest).
  { change (S i) with (1 + i)%nat. rewrite <- skipn_skipn, Hskip. reflexivity. }
  cbn [firstn batch_pass]. rewrite Hnth. unfold bind.
  destruct (batch_item c i limit results st) as [[r|e|] st']; [|done|done].
  rewrite IH by lia. by rewrite Hrest.
Qed.

(** A pass never throws, whichever turns the loop takes, and what it adds
    to the results are the entries of the codes it was given. *)
Lemma batch_pass_total (limit : nat) (items : list JsVal) :
  ∀ i results st specs,
    Forall2 fits specs (tasks st) →
    (weight specs + LOOKUPS * length items < TURNS)%nat →
    ∃ results' st',
      batch_pass items i limit results st = (Ret results', st') ∧
      (∀ k, k ∈ results'.*1 ↔ k ∈ results.*1 ∨ ∃ c, c ∈ items ∧ k = String_ c) ∧
      (∀ kv, kv ∈ results' →
         kv ∈ results ∨ kv.2 = entry_error ∨ ∃ preco total, kv.2 = entry preco total).
Proof.
  induction items as [|c items IH]; intros i results st specs Hfits Hw;
    cbn [batch_pass].
  - exists results, st. split; [done|]. split; [|auto]. intros k. split; [auto|].
    intros [H|(c & Hc & _)]; [done | set_solver].
  - cbn [length] in Hw.
    destruct (batch_item_spec c i limit results st specs Hfits ltac:(lia))
      as (r & st1 & _ & _ & st2 & specs2 & Hitem & Hfits2 & Hw2).
    rewrite (loop_bind_ret _ _ _ _ _ Hitem).
    destruct (IH (S i) (obj_set (String_ c) (entry_of r) results) st2 specs2 Hfits2
                 ltac:(lia)) as (r' & st' & Hrun & Hkeys & Hvals).
    exists r', st'. split; [done|]. split.
    + intros k. rewrite Hkeys, obj_set_keys. split.
      * intros [[->|H]|(c' & Hc' & ->)]; [right | by left | right].
        -- exists c. split; [set_solver | done].
        -- exists c'. split; [set_solver | done].
      * intros [H|(c' & Hc' & ->)]; [by left; right|].
        apply elem_of_cons in Hc' as [->|Hc']; [by left; left|].
        right. by exists c'.
    + intros kv Hkv. destruct (Hvals kv Hkv) as [Hin|Hnew]; [|by right].
      destruct (obj_set_values _ _ _ _ Hin) as [->|Hold]; [|by left].
      right. apply entry_of_cases.
Qed.

(** A price lookup that the cache cannot serve, started with a credential
    in hand: it waits a turn, hands its request to axios in the world it
    finds then, and when that request is rejected with an error that is not
    retried it returns 0, whatever has happened beside it. *)
Lemma buscarPrecoProduto_rejected (codProd : string) (w : World) :
  truthy (cachedToken w) = true →
  (CacheService.get (now w) (preco_key codProd) (cache w)).1 = JNull →
  ∃ k, Async.buscarPrecoProduto net Number_toString codProd w
       = Awaiting 0 (after_get (preco_key codProd) w) k ∧
    ∀ w1, ∃ k1,
      k w1 = Awaiting (took (net (calls w1))) (Async.issued (EvPreco codProd) w1) k1 ∧
      ∀ e w2,
        reply (net (calls w1)) = Rejected e →
        is_auth_failure e = false →
        code_is e "ECONNABORTED" = false →
        status_ge_500 e = false →
        k1 w2 = Settled (Ret (JNum 0)) w2.
Proof.
  intros Htok Hmiss.
  unfold Async.buscarPrecoProduto, Async.buscarPrecoProduto_from.
  cbn [Nat.sub Async.buscarPrecoProduto_rec]. fold (preco_key codProd).
  unfold Async.bind at 1, Async.sync at 1, cache_get, after_get.
  destruct (CacheService.get (now w) (preco_key codProd) (cache w)) as [v c].
  cbn [fst snd] in *. subst v. cbn [Async.then_ not_null].
  unfold Async.try_catch at 1, Async.bind at 1, Async.await, Async.obterToken,
    Async.obterToken_from.
  cbn [Nat.sub Async.obterToken_rec cachedToken with_cache]. rewrite Htok.
  cbn [Async.later Async.then_ Async.catch_].
  eexists. split; [reflexivity|].
  intros w1. cbn beta. unfold Async.bind at 1, Async.http.
  cbn [Async.then_ Async.catch_].
  eexists. split; [reflexivity|].
  intros e w2 Hrep Hauth Hcode H500. cbn beta. rewrite Hrep.
  cbn [Async.then_ Async.catch_].
  unfold is_auth_failure in Hauth. rewrite Hauth, Hcode, H500.
  reflexivity.
Qed.

(** A request with a list of codes is answered 200 after one pass over the
    first ten of them at most. *)
Lemma POST_array (codigos : list JsVal) (w : World) :
  let limit := Nat.min (length codigos) 10 in
  ∃ results st0 st',
    tick sched (idle w) = (Ret tt, st0) ∧
    POST (JObj [("codigos", JArr codigos)]) (idle w)
    = (Ret (mkHttp 200 (JObj results)), st') ∧
    batch_pass (firstn limit codigos) 0 limit [] st0 = (Ret results, st') ∧
    (∀ k, k ∈ results.*1 ↔ ∃ c, c ∈ firstn limit codigos ∧ k = String_ c) ∧
    (∀ k v, (k, v) ∈ results →
       v = entry_error ∨ ∃ preco total, v = entry preco total).
Proof.
  intros limit.
  destruct (tick_ends (idle w) [] ltac:(constructor) ltac:(unfold TURNS; cbn; lia))
    as (st0 & specs0 & Htick & Hfits0 & Hw0 & _ & Hlen0).
  assert (Hlimit : (limit <= 10)%nat) by (subst limit; lia).
  destruct (batch_pass_total limit (firstn limit codigos) 0 [] st0 specs0 Hfits0)
    as (results & st' & Hrun & Hkeys & Hvals).
  { rewrite length_firstn. unfold weight, LOOKUPS, TURNS in *. cbn in Hw0. lia. }
  exists results, st0, st'. split; [done|]. split; [|split; [done|split]].
  - unfold BatchInfo.POST. apply loop_try_ret.
    rewrite (loop_bind_ret _ _ _ _ _ Htick).
    cbn [nullish member obj_lookup]. cbn [String.eqb Ascii.eqb Bool.eqb].
    unfold bind at 1, ret at 1. fold limit.
    assert (Hloop : batch_loop limit 0 limit codigos [] st0 = (Ret results, st')).
    { rewrite batch_loop_pass by (subst limit; lia). by rewrite skipn_O. }
    by rewrite (loop_bind_ret _ _ _ _ _ Hloop).
  - intros k. rewrite Hkeys. set_solver.
  - intros k v Hkv. destruct (Hvals (k, v) Hkv) as [H|H]; [|done].
    by apply elem_of_nil in H.
Qed.

(** C8 (amended): for a request with a list of n codes the endpoint answers
    200 after one pass over the first min(n, 10) codes, in order, whichever
    turns the event loop takes with the lookups in progress; the results
    hold an entry for each of these codes and for nothing else, and each
    entry is either zero price, zero stock and the error flag, or a price
    and a stock total without a flag. The two lookups of a code are started
    together and awaited with [Promise.all]. The price lookup never throws,
    whatever runs beside it; a price request that is rejected with an error
    that is not retried is answered by it with 0. So [Promise.all] rejects
    only when the stock lookup has thrown, and
    then the entry of the code is the one with the error flag (as it is when
    the stock lookup returns nothing to read the total from); otherwise the
    entry is the price and the stock total that the two lookups returned,
    each replaced by 0 when falsy, without an error flag. A turn of the pass
    never throws, so the pass always goes on to the remaining codes. *)
Theorem POST_batch (codigos : list JsVal) (w : World) :
  let limit := Nat.min (length codigos) 10 in
  (∃ results st0 st',
     tick sched (idle w) = (Ret tt, st0) ∧
     POST (JObj [("codigos", JArr codigos)]) (idle w)
     = (Ret (mkHttp 200 (JObj results)), st') ∧
     batch_pass (firstn limit codigos) 0 limit [] st0 = (Ret results, st') ∧
     (∀ k, k ∈ results.*1 ↔ ∃ c, c ∈ firstn limit codigos ∧ k = String_ c) ∧
     (∀ k v, (k, v) ∈ results →
        v = entry_error ∨ ∃ preco total, v = entry preco total)) ∧
  (∀ codProd w0,
     within returned 32 (Async.buscarPrecoProduto net Number_toString codProd w0)) ∧
  (∀ codProd w0,
     truthy (cachedToken w0) = true →
     (CacheService.get (now w0) (preco_key codProd) (cache w0)).1 = JNull →
     ∃ k, Async.buscarPrecoProduto net Number_toString codProd w0
          = Awaiting 0 (after_get (preco_key codProd) w0) k ∧
       ∀ w1, ∃ k1,
         k w1 = Awaiting (took (net (calls w1))) (Async.issued (EvPreco codProd) w1) k1 ∧
         ∀ e w2,
           reply (net (calls w1)) = Rejected e →
           is_auth_failure e = false →
           code_is e "ECONNABORTED" = false →
           status_ge_500 e = false →
           k1 w2 = Settled (Ret (JNum 0)) w2) ∧
  (∀ codProd i results st,
     bounded (TURNS - LOOKUPS - 1) st →
     let key := String_ codProd in
     let p := length (tasks st) in
     ∃ r st1 st2,
       Promise_all sched TURNS p (S p) (both_started key st) = (r, st1) ∧
       batch_item codProd i limit results st
       = (Ret (obj_set key (entry_of r) results), st2) ∧
       bounded (TURNS - 1) st2 ∧
       match r with
       | Ret (preco, estoque) =>
           tasks st1 !! p = Some (Done (Ret preco)) ∧
           tasks st1 !! S p = Some (Done (Ret estoque)) ∧
           entry_of r = (if nullish estoque then entry_error
                         else entry preco (member estoque "estoqueTotal"))
       | Throw e =>
           tasks st1 !! S p = Some (Done (Throw e)) ∧ entry_of r = entry_error
       | OutOfFuel => False
       end) ∧
  (entry_error = JObj [("preco", JNum 0); ("estoque", JNum 0); ("error", JBool true)] ∧
   ∀ preco total,
     entry preco total
     = JObj [("preco", if truthy preco then preco else JNum 0);
             ("estoque", if truthy total then total else JNum 0)]).
Proof.
  intros limit. split; [apply POST_array|split; [|split; [|split; [|by split]]]].
  - intros codProd w0. apply buscarPrecoProduto_within.
  - intros codProd w0. apply buscarPrecoProduto_rejected.
  - intros codProd i results st (specs & Hfits & Hw) key p.
    destruct (batch_item_spec codProd i limit results st specs Hfits)
      as (r & st1 & Hrun & Hcases & st2 & specs2 & Hitem & Hfits2 & Hw2).
    { unfold TURNS, LOOKUPS in *. lia. }
    exists r, st1, st2. split; [done|]. split; [done|]. split.
    { exists specs2. split; [done|]. unfold TURNS, LOOKUPS in *. lia. }
    destruct r as [[preco estoque]|e|]; [|done|done].
    destruct Hcases as [Hp Hs]. done.
Qed.

End BatchFacts.

(* ===================================================================== *)
(** * Worked examples *)
(* ===================================================================== *)

Module Examples.

Import ProdutosService BatchInfo.

(** The built-ins that the services take as given, for the examples. Only
    integers are printed, only decimal integers are parsed; none of the
    examples below prints, parses or rounds any other number through them. *)
Definition Number_toString_int (x : float) : string :=
  match Prim2SF x with
  | S754_zero _ => "0"
  | S754_infinity s => if s then "-Infinity" else "Infinity"
  | S754_nan => "NaN"
  | S754_finite s m e => (if s then "-" else "") +:+ pretty (Z.shiftl (Zpos m) e)
  end.

Definition parseInt_dec (v : JsVal) : float :=
  match v with
  | JStr s =>
      let '(neg, digits) :=
        match trim_start s with
        | String "-" r => (true, r)
        | String "+" r => (false, r)
        | r => (false, r)
        end in
      let '(m, n, _) := read_digits digits 0 0 in
      if n =? 0 then nan else Z2F (if neg then - m else m) 0
  | _ => nan
  end.

Definition Math_ceil_SF (x : float) : float :=
  match Prim2SF x with
  | S754_finite s m e =>
      if 0 <=? e then x
      else
        let z := if s then Zneg m else Zpos m in
        let q := - ((- z) / 2 ^ (- e)) in
        if q =? 0 then (if s then (-0)%float else 0%float) else Z2F q 0
  | _ => x
  end.

(** An ERP that answers the calls in order with the given exchanges, and
    cannot be reached afterwards. *)
Definition script (xs : list Exchange) : nat -> Exchange :=
  fun n => nth n xs
    (mkExchange 0 (Rejected (mkExn (Some "ENOTFOUND") "getaddrinfo ENOTFOUND" None))).

(** A rejected request with an HTTP status and a body. *)
Definition http_error (s : Z) (d : JsVal) : Exchange :=
  mkExchange 10
    (Rejected (mkExn (Some "ERR_BAD_RESPONSE") "Request failed" (Some (mkResponse s d)))).

Definition answered (d : JsVal) : Exchange := mkExchange 10 (Resolved d).

Definition login_ok : Exchange := answered (JObj [("bearerToken", JStr "tok")]).

(** A fresh process, and one that holds the credential ["T"]. *)
Definition w0 : World := mkWorld JNull ∅ 0 0 [].
Definition wT : World := mkWorld (JStr "T") ∅ 0 0 [].

(** A raw entity response with the given field names and rows. *)
Definition raw_entities (names : list string) (entity : JsVal) : JsVal :=
  JObj [("metadata",
         JObj [("fields", JObj [("field", JArr (map (λ n, JObj [("name", JStr n)]) names))])]);
        ("entity", entity)].

Definition raw_response (names : list string) (entity : JsVal) : JsVal :=
  JObj [("responseBody", JObj [("entities", raw_entities names entity)])].

(** A row with the slots [f0] and [f1]. *)
Definition row2 (a b : string) : JsVal :=
  JObj [("f0", JObj [("$", JStr a)]); ("f1", JObj [("$", JStr b)])].

(** *** The token manager *)

Definition net_500_500_ok : nat -> Exchange :=
  script [http_error 500 JNull; http_error 500 JNull; login_ok].

Lemma obterToken_policy_witness :
  truthy (cachedToken w0) = false ∧
  obterToken net_500_500_ok Number_toString_int w0
  = (Ret (JStr "tok"),
     mkWorld (JStr "tok") ∅ 3030 3 [EvLogin; EvSleep 2000; EvLogin; EvSleep 1000; EvLogin]).
Proof.
  split; [reflexivity|].
  assert (H500 : ∀ i, (i < 2)%nat →
            ∃ e, login_outcome (net_500_500_ok (calls w0 + i)) = inl e ∧
                 status_is e 500 = true).
  { intros i Hi. destruct i as [|[|i]]; [eexists; split; reflexivity.. | lia]. }
  destruct (obterToken_policy net_500_500_ok Number_toString_int w0 2
              eq_refl ltac:(lia) H500) as (_ & Hok & _).
  rewrite (Hok (JStr "tok") eq_refl). reflexivity.
Defined.

(** C3, counterexample: a login answered with HTTP 503 - a 5xx - is not
    retried: one call is made and the error is thrown at once; and after
    four answers of 500 the error thrown is the fixed message, not the
    upstream one ("boom"). *)
Lemma obterToken_503_and_exhaustion :
  let r503 := obterToken (script [http_error 503 (JObj [("error", JStr "bad gateway")]);
                                  login_ok]) Number_toString_int w0 in
  let r500 := obterToken (script [http_error 500 JNull; http_error 500 JNull;
                                  http_error 500 JNull;
                                  http_error 500 (JObj [("error", JStr "boom")])])
                         Number_toString_int w0 in
  (r503.1 = Throw (Error "Falha na autenticação Sankhya: bad gateway") ∧
   calls r503.2 = 1%nat ∧ sleeps (trace r503.2) = []) ∧
  (r500.1 = Throw (Error "Serviço Sankhya temporariamente indisponível. Tente novamente em instantes.") ∧
   calls r500.2 = 4%nat ∧ sleeps (trace r500.2) = [3000; 2000; 1000]).
Proof. vm_compute. repeat split. Qed.

(** *** The request executor *)

Definition net_401_login_ok : nat -> Exchange :=
  script [http_error 401 JNull; login_ok; answered (JStr "data")].

Lemma fazerRequisicaoAutenticada_auth_failure_witness :
  is_auth_failure (mkExn (Some "ERR_BAD_RESPONSE") "Request failed"
                         (Some (mkResponse 401 JNull))) = true ∧
  fazerRequisicaoAutenticada net_401_login_ok Number_toString_int wT
  = (Ret (JStr "data"),
     mkWorld (JStr "tok") ∅ 530 3 [EvQuery; EvLogin; EvSleep 500; EvQuery]).
Proof.
  split; [reflexivity|].
  destruct (fazerRequisicaoAutenticada_auth_failure net_401_login_ok Number_toString_int
              wT (mkWorld (JStr "T") ∅ 10 1 [EvQuery])
              (mkExn (Some "ERR_BAD_RESPONSE") "Request failed" (Some (mkResponse 401 JNull)))
              eq_refl eq_refl) as (_ & _ & Hretry & _).
  destruct (Hretry (JStr "data")
              (mkWorld (JStr "tok") ∅ 530 3 [EvQuery; EvLogin; EvSleep 500; EvQuery])
              eq_refl) as [Hrun _].
  exact Hrun.
Defined.

(** C4, counterexample: the first request fails with HTTP 503 and is
    retried; the retry is answered with 401. This is the first 401 of the
    call, yet it is not retried: the call fails with "Sessão expirada" after
    two requests. *)
Lemma fazerRequisicaoAutenticada_401_after_503 :
  let r := fazerRequisicaoAutenticada
             (script [http_error 503 JNull; http_error 401 JNull; login_ok;
                      answered (JStr "data")])
             Number_toString_int wT in
  r.1 = Throw (Error "Sessão expirada. Tente novamente.") ∧
  http_calls (trace r.2) = [EvQuery; EvQuery] ∧
  calls r.2 = 2%nat.
Proof. vm_compute. repeat split. Qed.

(** *** The record normaliser *)


(** *** The price lookup *)

Definition net_price_12_50 : nat -> Exchange :=
  script [answered (JObj [("produtos", JArr [JObj [("valor", JStr "12.50")]])])].

Lemma buscarPrecoProduto_returns_witness :
  cache wT !! preco_key "7" = None ∧
  (buscarPrecoProduto net_price_12_50 Number_toString_int "7" wT).1 = Ret (JNum 12.5).
Proof.
  split; [reflexivity|].
  destruct (buscarPrecoProduto_returns net_price_12_50 Number_toString_int "7" wT)
    as (_ & H).
  destruct (H eq_refl) as (Hok & _).
  destruct (Hok (JStr "T") wT
              (JObj [("produtos", JArr [JObj [("valor", JStr "12.50")]])])
              eq_refl eq_refl) as (Hprice & _).
  destruct (Hprice (JObj [("valor", JStr "12.50")]) [] eq_refl eq_refl) as [Hx _].
  rewrite Hx. reflexivity.
Defined.

Lemma buscarPrecoProduto_cache_writes_witness :
  (CacheService.get (now wT) (preco_key "7") (cache wT)).1 = JNull ∧
  ∃ v w', buscarPrecoProduto (script [http_error 404 JNull]) Number_toString_int "7" wT
          = (Ret v, w').
Proof.
  split; [reflexivity|].
  destruct (buscarPrecoProduto_cache_writes (script [http_error 404 JNull])
              Number_toString_int "7" wT eq_refl) as (v & w' & Hrun & _).
  exists v, w'. exact Hrun.
Defined.

Example buscarPrecoProduto_failure_not_cached :
  let r := buscarPrecoProduto (script [http_error 404 JNull]) Number_toString_int "7" wT in
  r.1 = Ret (JNum 0) ∧ cache r.2 = ∅ ∧ calls r.2 = 1%nat.
Proof. vm_compute. repeat split. Qed.

Example buscarPrecoProduto_no_price_cached :
  let r := buscarPrecoProduto (script [answered (JObj [("produtos", JArr [])])])
                              Number_toString_int "7" wT in
  r.1 = Ret (JNum 0) ∧
  cache r.2 !! "preco:7" = Some (CacheService.mkEntry (JNum 0) 10 600000).
Proof. vm_compute. repeat split. Qed.

(** *** The stock lookup *)

Definition stock_names : list string := ["ESTOQUE"; "CODPROD"].

(** C2: with the rows of the specification the total is 5.5, and a row
    without a quantity adds 0; but a row whose quantity is not a number makes
    the total [NaN], where the specification has it add 0. *)
Theorem consultarEstoqueProduto_totals :
  let total rows :=
    match (consultarEstoqueProduto
             (script [answered (raw_response stock_names (JArr rows))])
             Number_toString_int "7" "" wT).1 with
    | Ret resultado => member resultado "estoqueTotal"
    | _ => JUndefined
    end in
  total [row2 "3" "7"; row2 "2.5" "7"] = JNum 5.5 ∧
  total [row2 "" "7"; row2 "2" "7"] = JNum 2 ∧
  total [JObj [("f1", JObj [("$", JStr "7")])]; row2 "2" "7"] = JNum 2 ∧
  total [row2 "abc" "7"; row2 "2" "7"] = JNum nan ∧
  estoqueTotal [JObj [("ESTOQUE", JStr "3")]; JObj [("ESTOQUE", JStr "2.5")]] = 5.5%float ∧
  estoqueTotal [JObj [("ESTOQUE", JStr "abc")]; JObj [("ESTOQUE", JStr "2")]] = nan.
Proof. vm_compute. repeat split. Qed.

(** *** The product listing *)

Lemma consultarProdutos_empty_page_witness :
  lacks_entities (JObj []) ∧
  consultarProdutos (script [answered (JObj [])]) Number_toString_int parseInt_dec
                    Math_ceil_SF 1 50 wT
  = (Ret (empty_page 1 50), mkWorld (JStr "T") ∅ 10 1 [EvQuery]).
Proof.
  assert (Hl : lacks_entities (JObj [])) by (left; reflexivity).
  split; [exact Hl|].
  destruct (consultarProdutos_empty_page (script [answered (JObj [])]) Number_toString_int
              parseInt_dec Math_ceil_SF 1 50 wT (mkWorld (JStr "T") ∅ 10 1 [EvQuery])
              (JObj []) eq_refl Hl) as [Hrun _].
  exact Hrun.
Defined.

(** C10, counterexample: an answer whose [entity] is the empty array
    contains no entity rows, yet the page returned has [totalPages] 1, not 0;
    and when such an answer has no metadata the call throws. *)
Lemma consultarProdutos_empty_array :
  let r := consultarProdutos (script [answered (raw_response ["CODPROD"] (JArr []))])
             Number_toString_int parseInt_dec Math_ceil_SF 1 50 wT in
  let r' := consultarProdutos
              (script [answered (JObj [("responseBody",
                          JObj [("entities", JObj [("entity", JArr [])])])])])
              Number_toString_int parseInt_dec Math_ceil_SF 1 50 wT in
  entity_rows (JArr []) = [] ∧
  r.1 = Ret (JObj [("produtos", JArr []); ("total", num 0); ("page", num 1);
                   ("pageSize", num 50); ("totalPages", num 1)]) ∧
  r.1 ≠ Ret (empty_page 1 50) ∧
  r'.1 = Throw (TypeError_read JUndefined "fields").
Proof. vm_compute. repeat split. intros H. discriminate H. Qed.

(** *** The batch endpoint *)

(** C8, counterexample: the price request of code 7 fails (HTTP 404) and
    its stock request succeeds: the entry of 7 has price 0, the stock total
    and no error flag. The stock request of code 8 fails: its entry has the
    error flag, and zero price although its price was fetched. *)
Lemma POST_price_failure_not_flagged :
  let r := POST (script [http_error 404 JNull;
                         answered (raw_response stock_names
                                     (JArr [row2 "3" "7"; row2 "2.5" "7"]));
                         answered (JObj [("produtos", JArr [JObj [("valor", JStr "9")]])]);
                         http_error 400 JNull])
                Number_toString_int EventLoop.earliest
                (JObj [("codigos", JArr [JStr "7"; JStr "8"])]) (EventLoop.idle wT) in
  r.1 = Ret (mkHttp 200
               (JObj [("7", JObj [("preco", JNum 0); ("estoque", JNum 5.5)]);
                      ("8", JObj [("preco", JNum 0); ("estoque", JNum 0);
                                  ("error", JBool true)])])) ∧
  http_calls (trace (EventLoop.world r.2))
  = [EvQuery; EvPreco "8"; EvQuery; EvPreco "7"].
Proof. vm_compute. repeat split. Qed.

Example POST_twelve_codes :
  let codes := map (λ n : nat, JStr (pretty n)) (seq 1 12) in
  let r := POST (script []) Number_toString_int EventLoop.earliest
                (JObj [("codigos", JArr codes)]) (EventLoop.idle wT) in
  match r.1 with
  | Ret resp => match json resp with
                | JObj results => results.*1 = map (λ n : nat, pretty n) (seq 1 10)
                | _ => False
                end
  | _ => False
  end.
Proof. vm_compute. reflexivity. Qed.

(** The two lookups of a code are in progress side by side. On a process
    without a credential both log in before either has one, and the price
    request goes out before the stock request. When the price request is
    answered 500 the stock request is the next call, ahead of the price
    request made again 500 ms later: it is the stock request that gets the
    second answer of the ERP and the price request the third. When the stock
    lookup throws while the price lookup waits to try again, the endpoint
    goes on to the next code, and answers, with that price lookup still in
    progress. *)
Example POST_lookups_side_by_side :
  let price := JObj [("produtos", JArr [JObj [("valor", JStr "12.5")]])] in
  let stock := raw_response stock_names (JArr [row2 "3" "7"]) in
  let run net codes w :=
    POST (script net) Number_toString_int EventLoop.earliest
         (JObj [("codigos", JArr codes)]) (EventLoop.idle w) in
  let fresh := run [login_ok; login_ok; answered price; answered stock] [JStr "7"] w0 in
  let retried := run [http_error 500 JNull; answered price; answered stock] [JStr "7"] wT in
  let left := run [http_error 500 JNull; http_error 400 JNull; answered price;
                   answered stock; answered price] [JStr "7"; JStr "8"] wT in
  (rev (trace (EventLoop.world fresh.2)) = [EvLogin; EvLogin; EvPreco "7"; EvQuery] ∧
   fresh.1 = Ret (mkHttp 200
                    (JObj [("7", JObj [("preco", JNum 12.5); ("estoque", JNum 3)])]))) ∧
  (rev (trace (EventLoop.world retried.2))
   = [EvPreco "7"; EvQuery; EvSleep 500; EvPreco "7"] ∧
   retried.1 = Ret (mkHttp 200
                      (JObj [("7", JObj [("preco", JNum 0); ("estoque", JNum 0)])]))) ∧
  (left.1 = Ret (mkHttp 200
                   (JObj [("7", JObj [("preco", JNum 0); ("estoque", JNum 0);
                                      ("error", JBool true)]);
                          ("8", JObj [("preco", JNum 12.5); ("estoque", JNum 3)])])) ∧
   EventLoop.parked 0 (EventLoop.tasks left.2) = [(0%nat, (510, 6%nat))]).
Proof. vm_compute. repeat split. Qed.

End Examples.

(* ===================================================================== *)
(** * Further properties *)
(* ===================================================================== *)

(* ===================================================================== *)
(** ** The response cache: sweep, frame, bulk invalidation *)
(* ===================================================================== *)

Section CacheMore.

Import CacheService.

(** [age > entry.ttl] at the time [now]. *)
Definition expired (now : Z) (entry : CacheEntry) : bool :=
  now - timestamp entry >? ttl entry.

(** The loop of [cleanup] over a snapshot [l] of the entries: a key listed
    with an expired entry is removed, a key listed only with entries that
    are not expired keeps the binding it had. *)
Lemma cleanup_fold (now : Z) (l : list (string * CacheEntry)) :
  ∀ acc : gmap string CacheEntry,
    NoDup l.*1 →
    (∀ k e, (k, e) ∈ l → expired now e = true →
       foldl (cleanup_step now) acc l !! k = None) ∧
    (∀ k, (∀ e, (k, e) ∈ l → expired now e = false) →
       foldl (cleanup_step now) acc l !! k = acc !! k).
Proof.
  induction l as [|[a e0] l IH]; intros acc Hnd; cbn [foldl].
  - split; [intros k e H; set_solver | done].
  - cbn in Hnd. apply NoDup_cons in Hnd as [Ha Hnd].
    change (cleanup_step now acc (a, e0))
      with (if expired now e0 then base.delete a acc else acc).
    destruct (IH (if expired now e0 then base.delete a acc else acc) Hnd) as [IHa IHb].
    split.
    + intros k e Hin Hexp. apply elem_of_cons in Hin as [Heq|Hin].
      * injection Heq as -> ->. rewrite IHb.
        -- rewrite Hexp. apply lookup_delete_eq.
        -- intros e' He'. exfalso. apply Ha. apply list_elem_of_fmap.
           by exists (a, e').
      * by eapply IHa.
    + intros k Hk. rewrite IHb.
      * destruct (expired now e0) eqn:Hexp; [|done].
        rewrite lookup_delete_ne; [done|]. intros ->.
        specialize (Hk e0 ltac:(set_solver)). congruence.
      * intros e He. apply Hk. set_solver.
Qed.

(** What [get] finds under a key after the sweep. *)
Lemma cleanup_lookup (now : Z) (c : gmap string CacheEntry) (k : string) :
  cleanup now c !! k =
    match c !! k with
    | Some e => if expired now e then None else Some e
    | None => None
    end.
Proof.
  unfold cleanup.
  destruct (cleanup_fold now (map_to_list c) c (NoDup_fst_map_to_list c)) as [Ha Hb].
  destruct (c !! k) as [e|] eqn:He.
  - destruct (expired now e) eqn:Hexp.
    + apply (Ha k e); [by apply elem_of_map_to_list | done].
    + rewrite Hb; [done|]. intros e' He'. apply elem_of_map_to_list in He'.
      congruence.
  - rewrite Hb; [done|]. intros e' He'. apply elem_of_map_to_list in He'.
    congruence.
Qed.

(** X1: [cleanup()] removes exactly the entries that are expired at the time
    of the sweep and keeps every other entry as it is; a second sweep at the
    same time changes nothing. *)
Theorem cleanup_removes_expired (now : Z) (c : gmap string CacheEntry) :
  (∀ k, cleanup now c !! k =
          match c !! k with
          | Some e => if expired now e then None else Some e
          | None => None
          end) ∧
  cleanup now (cleanup now c) = cleanup now c.
Proof.
  split; [apply cleanup_lookup|].
  apply map_eq. intros k. rewrite !cleanup_lookup.
  destruct (c !! k) as [e|]; [|done].
  destruct (expired now e) eqn:Hexp; [done|]. by rewrite Hexp.
Qed.

(** X2: the sweep cannot be observed through [get]: at the time of the sweep
    or later, [get] returns the same value after [cleanup()] as it would
    have returned without it. *)
Theorem cleanup_unobservable (now now' : Z) (c : gmap string CacheEntry) (k : string) :
  now <= now' →
  (get now' k (cleanup now c)).1 = (get now' k c).1.
Proof.
  intros Hle. unfold get. rewrite cleanup_lookup.
  destruct (c !! k) as [e|]; [|done].
  unfold expired. destruct (Z.gtb_spec (now - timestamp e) (ttl e)) as [Hexp|Hfresh].
  - destruct (Z.gtb_spec (now' - timestamp e) (ttl e)); [done | lia].
  - by destruct (now' - timestamp e >? ttl e).
Qed.

Lemma cleanup_unobservable_witness :
  10 <= 20 ∧
  (get 20 "k" (cleanup 10 (set 0 "k" (JStr "x") (Some 5) ∅))).1 = JNull ∧
  (get 20 "j" (cleanup 10 (set 0 "j" (JStr "y") (Some 50) ∅))).1 = JStr "y".
Proof.
  split; [lia|]. split.
  - rewrite (cleanup_unobservable 10 20 _ "k" ltac:(lia)). reflexivity.
  - rewrite (cleanup_unobservable 10 20 _ "j" ltac:(lia)). reflexivity.
Defined.

(** X3: [set(k, ...)] does not change what [get] returns for any other key,
    and a second [set] of the same key replaces the first entry entirely
    (value, time stamp and ttl). *)
Theorem set_frame_and_overwrite (now1 now2 now' : Z) (k k' : string) (v1 v2 : JsVal)
        (t1 t2 : option Z) (c : gmap string CacheEntry) :
  (k ≠ k' → (get now' k' (set now1 k v1 t1 c)).1 = (get now' k' c).1) ∧
  set now2 k v2 t2 (set now1 k v1 t1 c) = set now2 k v2 t2 c.
Proof.
  split.
  - intros Hne. unfold get, set. rewrite lookup_insert_ne by done.
    destruct (c !! k') as [e|]; [|done]. by destruct (_ >? _).
  - unfold set. apply insert_insert_eq.
Qed.

(** X4: right after [set(k, v, t)], [has(k)] is true exactly when the entry
    has not expired and [v] is not [null]: a stored [null] is reported as
    absent. *)
Theorem has_after_set (now now' : Z) (k : string) (v : JsVal) (t : option Z)
        (c : gmap string CacheEntry) :
  (has now' k (set now k v t c)).1
  = negb (now' - now >? ttl_or_default t) && not_null v.
Proof.
  unfold has. rewrite get_set_same. by destruct (_ >? _).
Qed.

(** X5: the empty pattern occurs in every key, so [invalidatePattern('')]
    empties the cache and returns the number of entries it held. *)
Theorem invalidatePattern_empty_pattern (c : gmap string CacheEntry) :
  invalidatePattern "" c = (size c, ∅).
Proof.
  destruct (invalidate_keys "" 0 c) as [Hl Hs]. fold (invalidatePattern "" c) in Hl, Hs.
  destruct (invalidatePattern "" c) as [n c'] eqn:Hr. cbn [fst snd] in *.
  assert (c' = ∅) as ->.
  { apply map_eq. intros k. rewrite Hl, lookup_empty.
    by destruct k. }
  rewrite map_size_empty in Hs. f_equal. lia.
Qed.

(** X6: [invalidatePattern] is idempotent: run again with the same pattern
    on the map it left, it removes nothing and returns 0. *)
Theorem invalidatePattern_idempotent (p : string) (c : gmap string CacheEntry) :
  invalidatePattern p (invalidatePattern p c).2 = (0%nat, (invalidatePattern p c).2).
Proof.
  destruct (invalidate_keys p 0 c) as [Hl _]. fold (invalidatePattern p c) in Hl.
  set (c' := (invalidatePattern p c).2) in *.
  destruct (invalidate_keys p 0 c') as [Hl' Hs']. fold (invalidatePattern p c') in Hl', Hs'.
  destruct (invalidatePattern p c') as [n c''] eqn:Hr. cbn [fst snd] in *.
  assert (c'' = c') as ->.
  { apply map_eq. intros k. rewrite Hl'. destruct (includes k p) eqn:Hk; [|done].
    by rewrite Hl, Hk. }
  f_equal. lia.
Qed.

End CacheMore.

(* ===================================================================== *)
(** ** [RedisCacheService]: [set], [get], [has], [delete], [clear], [cleanup] *)
(* ===================================================================== *)

Module RedisCacheOps.

Import CacheService.

Section Client.

(** The node-redis client and the JSON codec are external: the database is
    any type, the commands are any functions, [None] in the first component
    of a result stands for a rejected promise. [redis_get] answers
    [Some None] when the key has no value. What the store holds under a key
    was written by [set], so [JSON_parse] yields an entry, or [None] when it
    throws. *)
Variable Redis : Type.
Variable redis_setEx : string -> Z -> string -> Redis -> option unit * Redis.
Variable redis_get : string -> Redis -> option (option string) * Redis.
Variable redis_del : list string -> Redis -> option unit * Redis.
Variable redis_flushDb : Redis -> option unit * Redis.
Variable JSON_stringify : CacheEntry -> string.
Variable JSON_parse : string -> option CacheEntry.

Abbreviation State := (RedisCacheService.State Redis).
Abbreviation mkState := (RedisCacheService.mkState Redis).
Abbreviation memoryCache := (RedisCacheService.memoryCache Redis).
Abbreviation redisClient := (RedisCacheService.redisClient Redis).
Abbreviation useRedis := (RedisCacheService.useRedis Redis).

(** The state with the in-memory map replaced. *)
Definition with_memory (m : gmap string CacheEntry) (st : State) : State :=
  mkState m (redisClient st) (useRedis st).

(** The state after a Redis command left the database as [r]. *)
Definition with_redis (r : Redis) (st : State) : State :=
  mkState (memoryCache st) (Some r) (useRedis st).

(** [set(key, data, ttl?)], at the time [now] read by [Date.now()]. *)
Definition set (now : Z) (key : string) (d : JsVal) (t : option Z) (st : State) : State :=
  let entry := mkEntry d now (ttl_or_default t) in
  match useRedis st, redisClient st with
  | true, Some r =>
      let ttlSeconds := ttl_or_default t / 1000 in
      match redis_setEx key ttlSeconds (JSON_stringify entry) r with
      | (Some _, r1) => with_redis r1 st
      | (None, r1) =>
          (* Erro ao salvar no Redis, usando memória *)
          with_memory (<[key := entry]> (memoryCache st)) (with_redis r1 st)
      end
  | _, _ => with_memory (<[key := entry]> (memoryCache st)) st
  end.

(** Fallback para cache em memória *)
Definition get_memory (now : Z) (key : string) (st : State) : JsVal * State :=
  let '(v, m) := CacheService.get now key (memoryCache st) in
  (v, with_memory m st).

(** [get(key)], at the time [now] read by [Date.now()]. *)
Definition get (now : Z) (key : string) (st : State) : JsVal * State :=
  match useRedis st, redisClient st with
  | true, Some r =>
      match redis_get key r with
      | (Some cached, r1) =>
          match cached with
          | None => (JNull, with_redis r1 st)
          | Some text =>
              if String.eqb text "" then (JNull, with_redis r1 st)
              else
                match JSON_parse text with
                | Some entry =>
                    let age := now - timestamp entry in
                    if age >? ttl entry then
                      match redis_del [key] r1 with
                      | (Some _, r2) => (JNull, with_redis r2 st)
                      | (None, r2) => get_memory now key (with_redis r2 st)
                      end
                    else (data entry, with_redis r1 st)
                | None => get_memory now key (with_redis r1 st)
                end
          end
      | (None, r1) => get_memory now key (with_redis r1 st)
      end
  | _, _ => get_memory now key st
  end.

(** [has(key)] *)
Definition has (now : Z) (key : string) (st : State) : bool * State :=
  let '(d, st') := get now key st in (not_null d, st').

(** [delete(key)] *)
Definition delete (key : string) (st : State) : State :=
  let st1 :=
    match useRedis st, redisClient st with
    | true, Some r => with_redis (redis_del [key] r).2 st
    | _, _ => st
    end in
  with_memory (base.delete key (memoryCache st1)) st1.

(** [clear()] *)
Definition clear (st : State) : State :=
  let st1 :=
    match useRedis st, redisClient st with
    | true, Some r => with_redis (redis_flushDb r).2 st
    | _, _ => st
    end in
  with_memory ∅ st1.

(** [cleanup()]: para memória, fazemos manualmente *)
Definition cleanup (now : Z) (st : State) : State :=
  with_memory (CacheService.cleanup now (memoryCache st)) st.

End Client.

End RedisCacheOps.

Section RedisFacts.

Import CacheService.

Variable Redis : Type.
Variable redis_setEx : string -> Z -> string -> Redis -> option unit * Redis.
Variable redis_get : string -> Redis -> option (option string) * Redis.
Variable redis_del : list string -> Redis -> option unit * Redis.
Variable redis_flushDb : Redis -> option unit * Redis.
Variable JSON_stringify : CacheEntry -> string.
Variable JSON_parse : string -> option CacheEntry.

Local Abbreviation rset := (RedisCacheOps.set Redis redis_setEx JSON_stringify).
Local Abbreviation rget := (RedisCacheOps.get Redis redis_get redis_del JSON_parse).
Local Abbreviation rhas := (RedisCacheOps.has Redis redis_get redis_del JSON_parse).
Local Abbreviation rdelete := (RedisCacheOps.delete Redis redis_del).
Local Abbreviation rclear := (RedisCacheOps.clear Redis redis_flushDb).
Local Abbreviation memoryCache := (RedisCacheService.memoryCache Redis).
Local Abbreviation redisClient := (RedisCacheService.redisClient Redis).
Local Abbreviation useRedis := (RedisCacheService.useRedis Redis).

(** X7: with Redis off, [RedisCacheService] is [CacheService] on its
    in-memory map: [set], [get], [has] and [delete] return the same values
    and leave the same map, and never touch the client. *)
Theorem redis_off_is_CacheService (now : Z) (key : string) (d : JsVal) (t : option Z)
        (st : RedisCacheService.State Redis) :
  useRedis st = false →
  (memoryCache (rset now key d t st) = CacheService.set now key d t (memoryCache st) ∧
   redisClient (rset now key d t st) = redisClient st) ∧
  ((rget now key st).1 = (CacheService.get now key (memoryCache st)).1 ∧
   memoryCache (rget now key st).2 = (CacheService.get now key (memoryCache st)).2 ∧
   redisClient (rget now key st).2 = redisClient st) ∧
  (rhas now key st).1 = (CacheService.has now key (memoryCache st)).1 ∧
  (memoryCache (rdelete key st) = CacheService.delete key (memoryCache st) ∧
   redisClient (rdelete key st) = redisClient st).
Proof.
  intros Hoff.
  unfold RedisCacheOps.set, RedisCacheOps.has, RedisCacheOps.get, RedisCacheOps.delete,
    RedisCacheOps.get_memory, CacheService.has.
  rewrite Hoff.
  destruct (CacheService.get now key (memoryCache st)) as [v m].
  repeat split.
Qed.

(** X8: while Redis is in use but rejects both the write and the read, a
    value survives through the in-memory map: [get] after [set] returns the
    value until its ttl has elapsed, as with [CacheService]. *)
Theorem redis_outage_round_trip (now now' : Z) (key : string) (d : JsVal) (t : option Z)
        (st : RedisCacheService.State Redis) (r : Redis) :
  useRedis st = true →
  redisClient st = Some r →
  let written :=
    redis_setEx key (ttl_or_default t / 1000)
                (JSON_stringify (mkEntry d now (ttl_or_default t))) r in
  written.1 = None →
  (redis_get key written.2).1 = None →
  (rget now' key (rset now key d t st)).1
  = if now' - now >? ttl_or_default t then JNull else d.
Proof.
  intros Hon Hr written Hw Hg.
  unfold RedisCacheOps.set. rewrite Hon, Hr. fold written.
  destruct written as [[u|] r1] eqn:Hwr; [discriminate|]. cbn [snd] in Hg.
  unfold RedisCacheOps.get. cbn. rewrite Hon.
  destruct (redis_get key r1) as [[cached|] r2]; [discriminate|].
  unfold RedisCacheOps.get_memory. cbn.
  pose proof (get_set_same now now' key d t (memoryCache st)) as Hgs.
  unfold CacheService.set in Hgs. rewrite Hgs.
  by destruct (_ >? _).
Qed.

(** X9: the read does not fall back to the in-memory map when Redis answers
    that the key has no value. So a value that [set] could only write to
    memory, because Redis rejected the write, is not returned by a [get]
    that Redis answers - although the in-memory map still holds it. *)
Theorem redis_no_fallback_on_nil (now now' : Z) (key : string) (d : JsVal) (t : option Z)
        (st : RedisCacheService.State Redis) (r : Redis) :
  useRedis st = true →
  redisClient st = Some r →
  let written :=
    redis_setEx key (ttl_or_default t / 1000)
                (JSON_stringify (mkEntry d now (ttl_or_default t))) r in
  written.1 = None →
  (redis_get key written.2).1 = Some None →
  (rget now' key (rset now key d t st)).1 = JNull ∧
  memoryCache (rget now' key (rset now key d t st)).2 !! key
  = Some (mkEntry d now (ttl_or_default t)).
Proof.
  intros Hon Hr written Hw Hg.
  unfold RedisCacheOps.set. rewrite Hon, Hr. fold written.
  destruct written as [[u|] r1] eqn:Hwr; [discriminate|]. cbn [snd] in Hg.
  unfold RedisCacheOps.get. cbn. rewrite Hon.
  destruct (redis_get key r1) as [[[text|]|] r2]; try discriminate.
  cbn. split; [done|]. apply lookup_insert_eq.
Qed.

(** X10: [delete] and [clear] always take effect on the in-memory map,
    whatever Redis answers, including a rejection; after [delete(key)] the
    in-memory read of the key finds nothing. *)
Theorem redis_delete_clear_memory (now : Z) (key : string)
        (st : RedisCacheService.State Redis) :
  memoryCache (rdelete key st) = base.delete key (memoryCache st) ∧
  memoryCache (rclear st) = ∅ ∧
  (RedisCacheOps.get_memory Redis now key (rdelete key st)).1 = JNull.
Proof.
  assert (Hd : memoryCache (rdelete key st) = base.delete key (memoryCache st)).
  { unfold RedisCacheOps.delete.
    destruct (useRedis st); [|done]. by destruct (redisClient st). }
  split; [exact Hd|]. split.
  - unfold RedisCacheOps.clear.
    destruct (useRedis st); [|done]. by destruct (redisClient st).
  - unfold RedisCacheOps.get_memory. rewrite Hd.
    rewrite (get_miss now key _ (lookup_delete_eq _ _)). done.
Qed.

End RedisFacts.

(** A Redis that rejects every write and answers every read with "no
    value", and a codec that is never reached, for the examples. *)
Definition redis_down_setEx (k : string) (secs : Z) (text : string) (r : unit)
  : option unit * unit := (None, r).
Definition redis_nil_get (k : string) (r : unit) : option (option string) * unit :=
  (Some None, r).
Definition redis_down_get (k : string) (r : unit) : option (option string) * unit :=
  (None, r).
Definition redis_ok_del (ks : list string) (r : unit) : option unit * unit := (Some tt, r).
Definition entry_text (e : CacheService.CacheEntry) : string := "entry".
Definition text_entry (s : string) : option CacheService.CacheEntry := None.

Definition redis_on : RedisCacheService.State unit :=
  RedisCacheService.mkState unit ∅ (Some tt) true.
Definition redis_off : RedisCacheService.State unit :=
  RedisCacheService.mkState unit ∅ None false.

Lemma redis_off_is_CacheService_witness :
  RedisCacheService.useRedis unit redis_off = false ∧
  (RedisCacheOps.get unit redis_nil_get redis_ok_del text_entry 5 "k"
     (RedisCacheOps.set unit redis_down_setEx entry_text 0 "k" (JStr "x") (Some 10)
        redis_off)).1 = JStr "x".
Proof.
  split; [reflexivity|].
  destruct (redis_off_is_CacheService unit redis_down_setEx redis_nil_get redis_ok_del
              entry_text text_entry 5 "k" (JStr "x") (Some 10)
              (RedisCacheOps.set unit redis_down_setEx entry_text 0 "k" (JStr "x")
                 (Some 10) redis_off) eq_refl) as (_ & (Hget & _) & _).
  rewrite Hget. reflexivity.
Defined.

Lemma redis_outage_round_trip_witness :
  RedisCacheService.useRedis unit redis_on = true ∧
  (RedisCacheOps.get unit redis_down_get redis_ok_del text_entry 5 "k"
     (RedisCacheOps.set unit redis_down_setEx entry_text 0 "k" (JStr "x") (Some 10)
        redis_on)).1 = JStr "x".
Proof.
  split; [reflexivity|].
  rewrite (redis_outage_round_trip unit redis_down_setEx redis_down_get redis_ok_del
             entry_text text_entry 0 5 "k" (JStr "x") (Some 10) redis_on tt
             eq_refl eq_refl eq_refl eq_refl).
  reflexivity.
Defined.

Lemma redis_no_fallback_on_nil_witness :
  RedisCacheService.useRedis unit redis_on = true ∧
  (RedisCacheOps.get unit redis_nil_get redis_ok_del text_entry 5 "k"
     (RedisCacheOps.set unit redis_down_setEx entry_text 0 "k" (JStr "x") (Some 10)
        redis_on)).1 = JNull.
Proof.
  split; [reflexivity|].
  destruct (redis_no_fallback_on_nil unit redis_down_setEx redis_nil_get redis_ok_del
              entry_text text_entry 0 5 "k" (JStr "x") (Some 10) redis_on tt
              eq_refl eq_refl eq_refl eq_refl) as [H _].
  exact H.
Defined.

(* ===================================================================== *)
(** ** The token manager and the request executor: outcomes and bounds *)
(* ===================================================================== *)

Section ExecutorMore.

Import ProdutosService.
Local Open Scope js_scope.

Variable net : nat -> Exchange.
Variable Number_toString : float -> string.

Local Abbreviation obterToken_rec := (ProdutosService.obterToken_rec net Number_toString).
Local Abbreviation obterToken := (ProdutosService.obterToken net Number_toString).
Local Abbreviation fazerRequisicaoAutenticada_rec :=
  (ProdutosService.fazerRequisicaoAutenticada_rec net Number_toString).
Local Abbreviation fazerRequisicaoAutenticada :=
  (ProdutosService.fazerRequisicaoAutenticada net Number_toString).
Local Abbreviation http := (ProdutosService.http net).
Local Abbreviation called := (ProdutosService.called net).
Local Abbreviation req_try := (req_attempt net Number_toString).

(** A plain [Error] with a message: no [code], no [response]. *)
Definition plain_error (e : Exn) : Prop :=
  code e = None ∧ response e = None ∧ message e ≠ "".

(** The condition of the second [if] of the handler of
    [fazerRequisicaoAutenticada], for an error that is not a 401/403. *)
Definition is_transient (erro : Exn) : bool :=
  negb (is_auth_failure erro)
  && (code_is erro "ECONNABORTED" || code_is erro "ENOTFOUND" || status_ge_500 erro).

(** What [fazerRequisicaoAutenticada] throws for an error that is not a
    401/403 once it does not retry. *)
Definition request_failure (erro : Exn) : Exn :=
  if code_is erro "ECONNABORTED" then
    Error "Tempo de resposta excedido. Tente novamente."
  else if status_ge_500 erro then
    Error "Serviço temporariamente indisponível. Tente novamente."
  else
    Error (js_String Number_toString
             (or_else (opt_member (response_data erro) "statusMessage")
                (or_else (JStr (message erro))
                         (JStr "Erro na comunicação com o servidor")))).

(** The world after [j] requests, each followed by the back-off of
    [fazerRequisicaoAutenticada], the first made with [retryCount = rc]. *)
Fixpoint after_transients (j rc : nat) (w : World) : World :=
  match j with
  | O => w
  | S j' =>
      after_transients j' (S rc)
        (slept (REQ_RETRY_DELAY * (Z.of_nat rc + 1)) (called EvQuery w))
  end.

(** The number of requests to the query service in a trace. *)
Fixpoint queries (t : list Event) : nat :=
  match t with
  | [] => 0
  | EvQuery :: t' => S (queries t')
  | _ :: t' => queries t'
  end.

Lemma login_failure_plain (e : Exn) : plain_error (login_failure Number_toString e).
Proof.
  unfold login_failure, plain_error. destruct (status_is e 500); cbn; by repeat split.
Qed.

Lemma obterToken_rec_outcome (fuel : nat) :
  ∀ rc w,
    (calls (obterToken_rec fuel rc w).2 <= calls w + fuel)%nat ∧
    queries (trace (obterToken_rec fuel rc w).2) = queries (trace w) ∧
    match (obterToken_rec fuel rc w).1 with
    | Ret token => cachedToken (obterToken_rec fuel rc w).2 = token ∧ truthy token = true
    | Throw e => cachedToken (obterToken_rec fuel rc w).2 = JNull ∧ plain_error e
    | OutOfFuel => True
    end.
Proof.
  induction fuel as [|fuel IH]; intros rc w.
  - cbn. destruct (truthy (cachedToken w)) eqn:Hc; cbn; (split; [lia|]); by split.
  - destruct (truthy (cachedToken w)) eqn:Hc.
    + rewrite obterToken_rec_cached by done. cbn. split; [lia|]. by split.
    + rewrite obterToken_rec_step by done. unfold login_outcome.
      destruct (reply (net (calls w))) as [d|e].
      * destruct (nullish d).
        -- cbn [fst snd]. split; [cbn; lia|]. split; [done|]. split; [done|].
           apply login_failure_plain.
        -- destruct (truthy (or_else _ _)) eqn:Ht.
           ++ cbn [fst snd]. split; [cbn; lia|]. by split.
           ++ cbn [fst snd]. split; [cbn; lia|]. split; [done|]. split; [done|].
              apply login_failure_plain.
      * destruct (status_is e 500 && _).
        -- destruct (IH (S rc) (slept (LOGIN_RETRY_DELAY * (Z.of_nat rc + 1))
                                   (called EvLogin w))) as (Hn & Hq & Hr).
           cbn in Hn, Hq. split; [lia|]. split; [done|]. exact Hr.
        -- cbn [fst snd]. split; [cbn; lia|]. split; [done|]. split; [done|].
           apply login_failure_plain.
Qed.

(** X11: whatever the ERP answers, [obterToken] ends after at most 4 login
    calls and leaves the credential cache in step with its outcome: when it
    returns a credential, that credential is truthy and is the one cached;
    when it throws, nothing is cached. It never touches the response
    cache. *)
Theorem obterToken_outcome (w : World) :
  ∃ r w', obterToken w = (r, w') ∧
    (calls w' <= calls w + 4)%nat ∧ cache w' = cache w ∧
    match r with
    | Ret token => cachedToken w' = token ∧ truthy token = true
    | Throw e => cachedToken w' = JNull
    | OutOfFuel => False
    end.
Proof.
  pose proof (obterToken_rec_outcome (S (LOGIN_MAX_RETRIES - 0)) 0 w) as (Hn & _ & Hr).
  pose proof (keeps_obterToken net Number_toString w) as [Hc _].
  pose proof (ends_obterToken net Number_toString w) as He.
  unfold ProdutosService.obterToken, ProdutosService.obterToken_from in *.
  destruct (obterToken_rec (S (LOGIN_MAX_RETRIES - 0)) 0 w) as [r w'].
  exists r, w'. split; [done|]. cbn [fst snd] in *.
  split; [exact Hn|]. split; [exact Hc|].
  destruct r; [done | by destruct Hr | done].
Qed.

(** X12: once [obterToken] has returned a credential, calling it again
    returns the same credential without any HTTP call and without changing
    anything. *)
Theorem obterToken_second_call (w w' : World) (token : JsVal) :
  obterToken w = (Ret token, w') →
  obterToken w' = (Ret token, w').
Proof.
  intros H.
  pose proof (obterToken_rec_outcome (S (LOGIN_MAX_RETRIES - 0)) 0 w) as (_ & _ & Hr).
  unfold ProdutosService.obterToken, ProdutosService.obterToken_from in *.
  rewrite H in Hr. cbn [fst snd] in Hr. destruct Hr as [Hc Ht].
  rewrite obterToken_rec_cached by (by rewrite Hc). by rewrite Hc.
Qed.

Lemma req_attempt_cached (w : World) :
  truthy (cachedToken w) = true → req_try w = http EvQuery w.
Proof.
  intros Hc. unfold req_attempt.
  unfold ProdutosService.obterToken, ProdutosService.obterToken_from.
  erewrite bind_ret_eq; [reflexivity|]. by apply obterToken_rec_cached.
Qed.

(** The handler of [fazerRequisicaoAutenticada] on an error that is not a
    401/403. *)
Lemma req_attempt_other (fuel rc : nat) (w w1 : World) (e : Exn) :
  req_try w = (Throw e, w1) →
  is_auth_failure e = false →
  fazerRequisicaoAutenticada_rec (S fuel) rc w =
    if (code_is e "ECONNABORTED" || code_is e "ENOTFOUND" || status_ge_500 e)
       && (rc <? REQ_MAX_RETRIES)%nat
    then fazerRequisicaoAutenticada_rec fuel (S rc)
           (slept (REQ_RETRY_DELAY * (Z.of_nat rc + 1)) w1)
    else (Throw (request_failure e), w1).
Proof.
  intros H Ha. cbn [ProdutosService.fazerRequisicaoAutenticada_rec].
  unfold try_catch. fold req_try. rewrite H.
  unfold is_auth_failure in Ha. rewrite Ha.
  destruct (_ && _); [reflexivity|].
  unfold request_failure. destruct (code_is e "ECONNABORTED"); [reflexivity|].
  destruct (status_ge_500 e); reflexivity.
Qed.

Lemma after_transients_fields (j : nat) :
  ∀ rc w,
    cachedToken (after_transients j rc w) = cachedToken w ∧
    cache (after_transients j rc w) = cache w ∧
    calls (after_transients j rc w) = (calls w + j)%nat ∧
    queries (trace (after_transients j rc w)) = (queries (trace w) + j)%nat ∧
    sleeps (trace (after_transients j rc w))
    = map (λ a, REQ_RETRY_DELAY * Z.of_nat a) (rev (seq (S rc) j)) ++ sleeps (trace w).
Proof.
  induction j as [|j IH]; intros rc w; cbn [after_transients].
  - repeat split; cbn; lia.
  - destruct (IH (S rc) (slept (REQ_RETRY_DELAY * (Z.of_nat rc + 1)) (called EvQuery w)))
      as (-> & -> & -> & -> & ->).
    repeat split; [cbn; lia | cbn; lia |].
    replace (rev (seq (S rc) (S j))) with (rev (seq (S (S rc)) j) ++ [S rc])
      by reflexivity.
    rewrite map_app, <- app_assoc. f_equal. cbn. f_equal. f_equal. lia.
Qed.

Lemma fazerRequisicaoAutenticada_rec_retries (j : nat) :
  ∀ fuel rc w,
    truthy (cachedToken w) = true →
    (rc + j <= REQ_MAX_RETRIES)%nat →
    (∀ i, (i < j)%nat →
       ∃ e, reply (net (calls w + i)) = Rejected e ∧ is_transient e = true) →
    fazerRequisicaoAutenticada_rec (j + fuel) rc w
    = fazerRequisicaoAutenticada_rec fuel (rc + j) (after_transients j rc w).
Proof.
  induction j as [|j IH]; intros fuel rc w Hc Hle Hfail.
  - cbn. by rewrite Nat.add_0_r.
  - cbn [Nat.add after_transients].
    destruct (Hfail 0%nat ltac:(lia)) as (e & He & Ht). rewrite Nat.add_0_r in He.
    apply andb_true_iff in Ht as [Hna Hcond]. apply negb_true_iff in Hna.
    assert (Hatt : req_try w = (Throw e, called EvQuery w)).
    { rewrite req_attempt_cached by done. unfold ProdutosService.http. by rewrite He. }
    rewrite (req_attempt_other _ _ _ _ _ Hatt Hna). rewrite Hcond. cbn [andb].
    destruct (Nat.ltb_spec rc REQ_MAX_RETRIES); [|lia].
    rewrite IH.
    + f_equal. lia.
    + exact Hc.
    + lia.
    + intros i Hi. destruct (Hfail (S i) ltac:(lia)) as (e' & He' & Ht').
      exists e'. split; [|done]. cbn [calls slept ProdutosService.called].
      by replace (S (calls w) + i)%nat with (calls w + S i)%nat by lia.
Qed.

(** X13: with a cached credential, a request that fails with a timeout, a
    DNS failure or an HTTP status of 500 or more is retried, at most twice,
    the k-th retry after k times 1000 ms, and the credential stays cached.
    If the request number [j] (after [j] such failures) is answered, its data
    is returned. If the third request fails in this way again the call
    throws: "Tempo de resposta excedido" for a timeout, "Serviço
    temporariamente indisponível" for a status of 500 or more, and the
    upstream message for a DNS failure. *)
Theorem fazerRequisicaoAutenticada_transient_policy (w : World) (j : nat) :
  truthy (cachedToken w) = true →
  (j <= 2)%nat →
  (∀ i, (i < j)%nat →
     ∃ e, reply (net (calls w + i)) = Rejected e ∧ is_transient e = true) →
  let wj := after_transients j 0 w in
  (cachedToken wj = cachedToken w ∧
   queries (trace wj) = (queries (trace w) + j)%nat ∧
   sleeps (trace wj) = map (λ k, 1000 * Z.of_nat k) (rev (seq 1 j)) ++ sleeps (trace w)) ∧
  (∀ d, reply (net (calls w + j)) = Resolved d →
     fazerRequisicaoAutenticada w = (Ret d, called EvQuery wj)) ∧
  (j = 2%nat → ∀ e, reply (net (calls w + j)) = Rejected e → is_transient e = true →
     fazerRequisicaoAutenticada w = (Throw (request_failure e), called EvQuery wj)).
Proof.
  intros Hc Hj Hfail wj.
  destruct (after_transients_fields j 0 w) as (Htok & _ & Hcalls & Hq & Hs).
  fold wj in Htok, Hcalls, Hq, Hs.
  assert (Hrun : fazerRequisicaoAutenticada w
                 = fazerRequisicaoAutenticada_rec (S (2 - j)) j wj).
  { unfold ProdutosService.fazerRequisicaoAutenticada,
      ProdutosService.fazerRequisicaoAutenticada_from.
    change (S (REQ_MAX_RETRIES - 0)) with 3%nat.
    replace 3%nat with (j + S (2 - j))%nat by lia.
    rewrite fazerRequisicaoAutenticada_rec_retries;
      [done | done | unfold REQ_MAX_RETRIES; lia | done]. }
  assert (Hcj : truthy (cachedToken wj) = true) by (by rewrite Htok).
  split; [by repeat split|]. split.
  - intros d Hd. rewrite Hrun. apply req_attempt_ok.
    rewrite req_attempt_cached by done. unfold ProdutosService.http.
    by rewrite Hcalls, Hd.
  - intros -> e He Ht. rewrite Hrun.
    apply andb_true_iff in Ht as [Hna Hcond]. apply negb_true_iff in Hna.
    assert (Hatt : req_try wj = (Throw e, called EvQuery wj)).
    { rewrite req_attempt_cached by done. unfold ProdutosService.http.
      by rewrite Hcalls, He. }
    rewrite (req_attempt_other _ _ _ _ _ Hatt Hna). by rewrite Hcond.
Qed.

(** X14: when the login made inside [fazerRequisicaoAutenticada] fails, the
    call throws that same error at once: no request is made, nothing is
    retried - also when the login was rejected with 401 or 403, since the
    error of [obterToken] carries no response. *)
Theorem fazerRequisicaoAutenticada_login_failure (w w1 : World) (e : Exn) :
  obterToken w = (Throw e, w1) →
  fazerRequisicaoAutenticada w = (Throw e, w1).
Proof.
  intros H.
  pose proof (obterToken_rec_outcome (S (LOGIN_MAX_RETRIES - 0)) 0 w) as (_ & _ & Hr).
  unfold ProdutosService.obterToken, ProdutosService.obterToken_from in H.
  rewrite H in Hr. cbn [fst snd] in Hr. destruct Hr as (_ & Hcode & Hresp & Hmsg).
  assert (Hatt : req_try w = (Throw e, w1)).
  { unfold req_attempt. by apply bind_throw_eq. }
  assert (Hna : is_auth_failure e = false).
  { unfold is_auth_failure, status_is. by rewrite Hresp. }
  unfold ProdutosService.fazerRequisicaoAutenticada,
    ProdutosService.fazerRequisicaoAutenticada_from.
  rewrite (req_attempt_other _ _ _ _ _ Hatt Hna).
  unfold code_is, status_ge_500, request_failure, code_is, status_ge_500, response_data.
  rewrite Hcode, Hresp. cbn [orb andb opt_member member].
  unfold or_else. cbn [truthy].
  destruct e as [c m r]. cbn in *. subst.
  destruct (String.eqb_spec m ""); [done|]. reflexivity.
Qed.

(** X15: a request that fails with an error that is neither a 401/403 nor
    a timeout, DNS failure or status of 500 or more (an HTTP 404, say) is not
    retried: the call throws at once an error whose message is the
    [statusMessage] of the answer when it has one, else the message of the
    error; the cached credential is left as it is. *)
Theorem fazerRequisicaoAutenticada_other_error (w w1 : World) (e : Exn) :
  req_try w = (Throw e, w1) →
  is_auth_failure e = false →
  code_is e "ECONNABORTED" = false →
  code_is e "ENOTFOUND" = false →
  status_ge_500 e = false →
  fazerRequisicaoAutenticada w =
    (Throw (Error (js_String Number_toString
                     (or_else (opt_member (response_data e) "statusMessage")
                        (or_else (JStr (message e))
                                 (JStr "Erro na comunicação com o servidor"))))),
     w1).
Proof.
  intros Hatt Hna Hab Hnf Hs.
  unfold ProdutosService.fazerRequisicaoAutenticada,
    ProdutosService.fazerRequisicaoAutenticada_from.
  rewrite (req_attempt_other _ _ _ _ _ Hatt Hna). rewrite Hab, Hnf, Hs. cbn [orb andb].
  unfold request_failure. by rewrite Hab, Hs.
Qed.

Lemma req_try_queries (w : World) :
  (queries (trace (req_try w).2) <= queries (trace w) + 1)%nat ∧
  (calls w <= calls (req_try w).2)%nat.
Proof.
  unfold req_attempt, bind.
  pose proof (obterToken_rec_outcome (S (LOGIN_MAX_RETRIES - 0)) 0 w) as (_ & Hq & _).
  pose proof (keeps_obterToken net Number_toString w) as [_ Hn].
  unfold ProdutosService.obterToken, ProdutosService.obterToken_from in *.
  destruct (obterToken_rec (S (LOGIN_MAX_RETRIES - 0)) 0 w) as [[tok|e|] w1];
    cbn [fst snd] in *; [| split; lia | split; lia].
  unfold ProdutosService.http. destruct (reply (net (calls w1))); cbn; split; lia.
Qed.

Lemma fazerRequisicaoAutenticada_rec_queries (fuel : nat) :
  ∀ rc w,
    (queries (trace (fazerRequisicaoAutenticada_rec fuel rc w).2)
     <= queries (trace w) + fuel)%nat.
Proof.
  induction fuel as [|fuel IH]; intros rc w; [cbn; lia|].
  pose proof (req_try_queries w) as [Hq _].
  destruct (req_try w) as [[d|e|] w1] eqn:Hatt; cbn [snd] in Hq.
  - rewrite (req_attempt_ok net Number_toString fuel rc w w1 d Hatt). cbn. lia.
  - destruct (is_auth_failure e) eqn:Ha.
    + rewrite (req_attempt_auth net Number_toString fuel rc w w1 e Hatt Ha).
      destruct (rc <? 1)%nat; [|cbn; lia].
      specialize (IH (S rc) (slept 500 (with_token JNull w1))). cbn in IH. lia.
    + rewrite (req_attempt_other fuel rc w w1 e Hatt Ha).
      destruct (_ && _); [|cbn; lia].
      specialize (IH (S rc) (slept (REQ_RETRY_DELAY * (Z.of_nat rc + 1)) w1)).
      cbn in IH. lia.
  - cbn [ProdutosService.fazerRequisicaoAutenticada_rec]. unfold try_catch.
    fold req_try. rewrite Hatt. cbn. lia.
Qed.

(** X16: whatever the ERP answers, one call of [fazerRequisicaoAutenticada]
    ends - it returns or throws - after at most 3 requests to the query
    service, and it never touches the response cache. *)
Theorem fazerRequisicaoAutenticada_bounded (w : World) :
  ∃ r w', fazerRequisicaoAutenticada w = (r, w') ∧
    r ≠ OutOfFuel ∧
    (queries (trace w') <= queries (trace w) + 3)%nat ∧
    cache w' = cache w.
Proof.
  pose proof (fazerRequisicaoAutenticada_rec_queries (S (REQ_MAX_RETRIES - 0)) 0 w) as Hq.
  pose proof (ends_fazerRequisicaoAutenticada net Number_toString w) as He.
  pose proof (keeps_fazerRequisicaoAutenticada net Number_toString w) as [Hc _].
  unfold ProdutosService.fazerRequisicaoAutenticada,
    ProdutosService.fazerRequisicaoAutenticada_from in *.
  destruct (fazerRequisicaoAutenticada_rec (S (REQ_MAX_RETRIES - 0)) 0 w) as [r w'].
  exists r, w'. cbn [fst snd] in *. by repeat split.
Qed.

(** Every call of [fazerRequisicaoAutenticada] makes an HTTP call. *)
Lemma fazerRequisicaoAutenticada_contacts (w : World) :
  (calls w < calls (fazerRequisicaoAutenticada w).2)%nat.
Proof.
  unfold ProdutosService.fazerRequisicaoAutenticada,
    ProdutosService.fazerRequisicaoAutenticada_from.
  change (S (REQ_MAX_RETRIES - 0)) with (S 2).
  assert (Hlt : (calls w < calls (req_try w).2)%nat).
  { unfold req_attempt, bind. destruct (truthy (cachedToken w)) eqn:Hc.
    - unfold ProdutosService.obterToken, ProdutosService.obterToken_from.
      rewrite obterToken_rec_cached by done. unfold ProdutosService.http.
      destruct (reply (net (calls w))); cbn; lia.
    - pose proof (obterToken_contacts net Number_toString w Hc) as Hlt.
      destruct (obterToken w) as [[tok|e|] w1]; cbn [snd] in *; [|done|done].
      unfold ProdutosService.http. destruct (reply (net (calls w1))); cbn; lia. }
  assert (Hends : (req_try w).1 ≠ OutOfFuel).
  { apply ends_bind; [apply ends_obterToken | intros _; apply ends_http]. }
  destruct (req_try w) as [[d|e|] w1] eqn:Hatt; cbn [fst snd] in *; [| |done].
  - by rewrite (req_attempt_ok net Number_toString 2 0 w w1 d Hatt).
  - destruct (is_auth_failure e) eqn:Ha.
    + rewrite (req_attempt_auth net Number_toString 2 0 w w1 e Hatt Ha).
      change (0 <? 1)%nat with true. cbv iota.
      destruct (keeps_fazerRequisicaoAutenticada_rec net Number_toString 2 1
                  (slept 500 (with_token JNull w1))) as [_ Hn].
      change (calls (slept 500 (with_token JNull w1))) with (calls w1) in Hn. lia.
    + rewrite (req_attempt_other 2 0 w w1 e Hatt Ha).
      destruct (_ && _); [|cbn; lia].
      destruct (keeps_fazerRequisicaoAutenticada_rec net Number_toString 2 1
                  (slept (REQ_RETRY_DELAY * (Z.of_nat 0 + 1)) w1)) as [_ Hn].
      change (calls (slept (REQ_RETRY_DELAY * (Z.of_nat 0 + 1)) w1)) with (calls w1) in Hn.
      lia.
Qed.

End ExecutorMore.

Lemma obterToken_second_call_witness :
  let w' := ProdutosService.mkWorld (JStr "tok") ∅ 3030 3
              [ProdutosService.EvLogin; ProdutosService.EvSleep 2000;
               ProdutosService.EvLogin; ProdutosService.EvSleep 1000;
               ProdutosService.EvLogin] in
  ProdutosService.obterToken Examples.net_500_500_ok Examples.Number_toString_int
    Examples.w0 = (ProdutosService.Ret (JStr "tok"), w') ∧
  ProdutosService.obterToken Examples.net_500_500_ok Examples.Number_toString_int w'
  = (ProdutosService.Ret (JStr "tok"), w').
Proof.
  split; [reflexivity|].
  apply (obterToken_second_call Examples.net_500_500_ok Examples.Number_toString_int
           Examples.w0).
  reflexivity.
Defined.

(** A request answered with 503 and then with data. *)
Definition net_503_ok : nat -> ProdutosService.Exchange :=
  Examples.script [Examples.http_error 503 JNull; Examples.answered (JStr "data")].

Lemma fazerRequisicaoAutenticada_transient_policy_witness :
  truthy (ProdutosService.cachedToken Examples.wT) = true ∧
  ProdutosService.fazerRequisicaoAutenticada net_503_ok Examples.Number_toString_int
    Examples.wT
  = (ProdutosService.Ret (JStr "data"),
     ProdutosService.mkWorld (JStr "T") ∅ 1020 2
       [ProdutosService.EvQuery; ProdutosService.EvSleep 1000; ProdutosService.EvQuery]).
Proof.
  split; [reflexivity|].
  assert (Hfail : ∀ i, (i < 1)%nat →
            ∃ e, ProdutosService.reply
                   (net_503_ok (ProdutosService.calls Examples.wT + i))
                 = ProdutosService.Rejected e ∧ is_transient e = true).
  { intros i Hi. destruct i as [|i]; [eexists; split; reflexivity | lia]. }
  destruct (fazerRequisicaoAutenticada_transient_policy net_503_ok
              Examples.Number_toString_int Examples.wT 1 eq_refl ltac:(lia) Hfail)
    as (_ & Hok & _).
  rewrite (Hok (JStr "data") eq_refl). reflexivity.
Defined.

(** A login rejected with HTTP 401. *)
Definition net_login_401 : nat -> ProdutosService.Exchange :=
  Examples.script [Examples.http_error 401 (JObj [("error", JStr "bad credentials")])].

Lemma fazerRequisicaoAutenticada_login_failure_witness :
  let r := ProdutosService.fazerRequisicaoAutenticada net_login_401
             Examples.Number_toString_int Examples.w0 in
  r.1 = ProdutosService.Throw
          (ProdutosService.Error "Falha na autenticação Sankhya: bad credentials") ∧
  ProdutosService.trace r.2 = [ProdutosService.EvLogin].
Proof.
  rewrite (fazerRequisicaoAutenticada_login_failure net_login_401
             Examples.Number_toString_int Examples.w0
             (ProdutosService.mkWorld JNull ∅ 10 1 [ProdutosService.EvLogin])
             (ProdutosService.Error "Falha na autenticação Sankhya: bad credentials")
             eq_refl).
  split; reflexivity.
Defined.

(** A request answered with HTTP 404 and a status message. *)
Definition net_404 : nat -> ProdutosService.Exchange :=
  Examples.script
    [Examples.http_error 404 (JObj [("statusMessage", JStr "Entidade desconhecida")])].

Lemma fazerRequisicaoAutenticada_other_error_witness :
  let r := ProdutosService.fazerRequisicaoAutenticada net_404
             Examples.Number_toString_int Examples.wT in
  r.1 = ProdutosService.Throw (ProdutosService.Error "Entidade desconhecida") ∧
  ProdutosService.trace r.2 = [ProdutosService.EvQuery] ∧
  ProdutosService.cachedToken r.2 = JStr "T".
Proof.
  rewrite (fazerRequisicaoAutenticada_other_error net_404 Examples.Number_toString_int
             Examples.wT (ProdutosService.mkWorld (JStr "T") ∅ 10 1 [ProdutosService.EvQuery])
             (ProdutosService.mkExn (Some "ERR_BAD_RESPONSE") "Request failed"
                (Some (ProdutosService.mkResponse 404
                         (JObj [("statusMessage", JStr "Entidade desconhecida")]))))
             eq_refl eq_refl eq_refl eq_refl eq_refl).
  repeat split.
Defined.

(* ===================================================================== *)
(** ** The record normaliser: purity and malformed rows *)
(* ===================================================================== *)

Section NormalizerMore.

Import ProdutosService.
Local Open Scope js_scope.

Variable Number_toString : float -> string.

Local Abbreviation String_ := (js_String Number_toString).
Local Abbreviation mapearEntidades := (ProdutosService.mapearEntidades Number_toString).
Local Abbreviation map_entities := (ProdutosService.map_entities Number_toString).

Lemma keeps_eq_field_names (fields : list JsVal) : keeps eq (field_names fields).
Proof.
  induction fields as [|f fields IH]; cbn; [apply keeps_ret|].
  apply keeps_bind; [apply keeps_prop | intros n].
  apply keeps_bind; [apply IH | intros ns; apply keeps_ret].
Qed.

Lemma keeps_eq_fill_fields (row : JsVal) (names : list JsVal) :
  ∀ i acc, keeps eq (fill_fields Number_toString row names i acc).
Proof.
  induction names as [|n names IH]; intros i acc; cbn; [apply keeps_ret|].
  apply keeps_bind; [apply keeps_prop | intros slot; apply IH].
Qed.

Lemma keeps_eq_map_entities (names rows : list JsVal) :
  ∀ index, keeps eq (map_entities names rows index).
Proof.
  induction rows as [|row rows IH]; intros index; cbn; [apply keeps_ret|].
  apply keeps_bind.
  - unfold map_entity. apply keeps_bind; [apply keeps_eq_fill_fields | intros o; apply keeps_ret].
  - intros o. apply keeps_bind; [apply IH | intros os; apply keeps_ret].
Qed.

(** [mapearEntidades] leaves the world as it is. *)
Lemma mapearEntidades_frame (entities : JsVal) (w : World) :
  (mapearEntidades entities w).2 = w.
Proof.
  symmetry. revert w. change (keeps eq (mapearEntidades entities)).
  unfold ProdutosService.mapearEntidades.
  apply keeps_bind; [apply keeps_prop | intros metadata].
  apply keeps_bind; [apply keeps_prop | intros fields].
  apply keeps_bind; [apply keeps_prop | intros field].
  apply keeps_bind.
  { destruct field; try apply keeps_throw. apply keeps_eq_field_names. }
  intros names. apply keeps_bind; [apply keeps_prop | intros entity].
  apply keeps_eq_map_entities.
Qed.

(** X17: [mapearEntidades] is pure: for every input, well formed or not, it
    returns or throws without an HTTP call, a timer, or a change to the
    credential or the response cache. *)
Theorem mapearEntidades_pure (entities : JsVal) (w : World) :
  (mapearEntidades entities w).2 = w ∧ (mapearEntidades entities w).1 ≠ OutOfFuel.
Proof.
  split; [apply mapearEntidades_frame | apply ends_mapearEntidades].
Qed.

(** The normalisation of a well-formed response, as a run. *)
Lemma mapearEntidades_run (entities : JsVal) (fields : list JsVal) (w : World) :
  let names := map (λ f, String_ (member f "name")) fields in
  let rows := entity_rows (member entities "entity") in
  nullish entities = false →
  nullish (member entities "metadata") = false →
  nullish (member (member entities "metadata") "fields") = false →
  member (member (member entities "metadata") "fields") "field" = JArr fields →
  Forall (λ f, nullish f = false) fields →
  Forall (λ row, nullish row = false) rows →
  NoDup names →
  "_id" ∉ names →
  mapearEntidades entities w = (Ret (normalized Number_toString names rows), w).
Proof.
  intros names rows He Hm Hf Hfield Hfs Hrows Hnd Hid.
  assert (Hnames : names = map String_ (map (λ f, member f "name") fields)).
  { subst names. by rewrite map_map. }
  unfold ProdutosService.mapearEntidades.
  rewrite (bind_ret_eq _ _ _ _ _ (prop_ok _ _ _ He)).
  rewrite (bind_ret_eq _ _ _ _ _ (prop_ok _ _ _ Hm)).
  rewrite (bind_ret_eq _ _ _ _ _ (prop_ok _ _ _ Hf)).
  rewrite Hfield.
  rewrite (bind_ret_eq _ _ _ _ _ (field_names_spec _ _ Hfs)).
  rewrite (bind_ret_eq _ _ _ _ _ (prop_ok _ _ _ He)).
  fold rows.
  rewrite map_entities_spec by (rewrite <- ?Hnames; done).
  rewrite <- Hnames. reflexivity.
Qed.

Lemma map_entities_null_row (names : list JsVal) (n : JsVal) (pre post : list JsVal)
      (r : JsVal) :
  ∀ index w,
    Forall (λ row, nullish row = false) pre →
    nullish r = true →
    NoDup (map String_ (n :: names)) →
    "_id" ∉ map String_ (n :: names) →
    map_entities (n :: names) (pre ++ r :: post) index w
    = (Throw (TypeError_read r "f0"), w).
Proof.
  induction pre as [|row pre IH]; intros index w Hpre Hr Hnd Hid.
  - cbn [app ProdutosService.map_entities]. apply bind_throw_eq.
    unfold map_entity. apply bind_throw_eq.
    cbn [ProdutosService.fill_fields]. apply bind_throw_eq.
    unfold prop. by rewrite Hr.
  - apply Forall_cons in Hpre as [Hrow Hpre].
    cbn [app ProdutosService.map_entities].
    rewrite (bind_ret_eq _ _ _ _ _ (map_entity_spec Number_toString _ _ _ _ Hrow Hnd Hid)).
    apply bind_throw_eq. by apply IH.
Qed.

(** X18: a row that is [null] (or [undefined]) is not skipped: when at
    least one field is declared, the first such row makes the whole
    normalisation throw the TypeError of reading [f0] of it, and no record is
    returned for any row. *)
Theorem mapearEntidades_null_row (entities f : JsVal) (fields pre post : list JsVal)
        (r : JsVal) (w : World) :
  let names := map (λ f, String_ (member f "name")) (f :: fields) in
  nullish entities = false →
  nullish (member entities "metadata") = false →
  nullish (member (member entities "metadata") "fields") = false →
  member (member (member entities "metadata") "fields") "field" = JArr (f :: fields) →
  Forall (λ f, nullish f = false) (f :: fields) →
  entity_rows (member entities "entity") = pre ++ r :: post →
  Forall (λ row, nullish row = false) pre →
  nullish r = true →
  NoDup names →
  "_id" ∉ names →
  mapearEntidades entities w = (Throw (TypeError_read r "f0"), w).
Proof.
  intros names He Hm Hf Hfield Hfs Hrows Hpre Hr Hnd Hid.
  assert (Hnames : names = map String_ (map (λ f, member f "name") (f :: fields))).
  { subst names. by rewrite map_map. }
  unfold ProdutosService.mapearEntidades.
  rewrite (bind_ret_eq _ _ _ _ _ (prop_ok _ _ _ He)).
  rewrite (bind_ret_eq _ _ _ _ _ (prop_ok _ _ _ Hm)).
  rewrite (bind_ret_eq _ _ _ _ _ (prop_ok _ _ _ Hf)).
  rewrite Hfield.
  rewrite (bind_ret_eq _ _ _ _ _ (field_names_spec _ _ Hfs)).
  rewrite (bind_ret_eq _ _ _ _ _ (prop_ok _ _ _ He)).
  rewrite Hrows. cbn [map].
  apply map_entities_null_row; try done.
  - rewrite Hnames in Hnd. exact Hnd.
  - rewrite Hnames in Hid. exact Hid.
Qed.

End NormalizerMore.

Lemma mapearEntidades_null_row_witness :
  let entities := Examples.raw_entities ["A"; "B"]
                    (JArr [Examples.row2 "x" "y"; JNull; Examples.row2 "u" "v"]) in
  nullish JNull = true ∧
  ProdutosService.mapearEntidades Examples.Number_toString_int entities Examples.w0
  = (ProdutosService.Throw
       (ProdutosService.Error "Cannot read properties of null (reading 'f0')"),
     Examples.w0).
Proof.
  split; [reflexivity|].
  assert (Hnd : NoDup ["A"; "B"]).
  { apply NoDup_cons. split; [|apply NoDup_singleton].
    intros H. apply list_elem_of_singleton in H. discriminate. }
  rewrite (mapearEntidades_null_row Examples.Number_toString_int
             (Examples.raw_entities ["A"; "B"]
                (JArr [Examples.row2 "x" "y"; JNull; Examples.row2 "u" "v"]))
             (JObj [("name", JStr "A")]) [JObj [("name", JStr "B")]]
             [Examples.row2 "x" "y"] [Examples.row2 "u" "v"] JNull Examples.w0
             eq_refl eq_refl eq_refl eq_refl).
  - reflexivity.
  - repeat constructor.
  - reflexivity.
  - repeat constructor.
  - reflexivity.
  - exact Hnd.
  - intros H. apply elem_of_cons in H as [H|H]; [discriminate|].
    apply list_elem_of_singleton in H. discriminate.
Defined.

(* ===================================================================== *)
(** ** Price and stock lookups, product listing: cache round trips *)
(* ===================================================================== *)

Section LookupMore.

Import ProdutosService.
Local Open Scope js_scope.

Variable net : nat -> Exchange.
Variable Number_toString : float -> string.
Variable parseInt : JsVal -> float.
Variable Math_ceil : float -> float.

Local Abbreviation String_ := (js_String Number_toString).
Local Abbreviation obterToken := (ProdutosService.obterToken net Number_toString).
Local Abbreviation fazerRequisicaoAutenticada :=
  (ProdutosService.fazerRequisicaoAutenticada net Number_toString).
Local Abbreviation mapearEntidades := (ProdutosService.mapearEntidades Number_toString).
Local Abbreviation buscarPrecoProduto :=
  (ProdutosService.buscarPrecoProduto net Number_toString).
Local Abbreviation buscarPrecoProduto_rec :=
  (ProdutosService.buscarPrecoProduto_rec net Number_toString).
Local Abbreviation consultarProdutos :=
  (ProdutosService.consultarProdutos net Number_toString parseInt Math_ceil).
Local Abbreviation consultarEstoqueProduto :=
  (ProdutosService.consultarEstoqueProduto net Number_toString).

(** X19: after a price lookup that was answered, a later lookup of the same
    code that finds the cache as that lookup left it returns the same price
    without any HTTP call while no more than 10 minutes have passed, and
    contacts the ERP again once more than 10 minutes have passed. *)
Theorem buscarPrecoProduto_round_trip (codProd : string) (w w1 : World) (tok d : JsVal)
        (p : float) :
  cache w !! preco_key codProd = None →
  obterToken w = (Ret tok, w1) →
  reply (net (calls w1)) = Resolved d →
  (extrair_preco d w).1 = Ret p →
  let w' := (buscarPrecoProduto codProd w).2 in
  ∀ w'', cache w'' = cache w' →
    (now w'' - now w' <= 10 * 60 * 1000 →
       buscarPrecoProduto codProd w'' = (Ret (JNum p), w'')) ∧
    (now w'' - now w' > 10 * 60 * 1000 →
       (calls w'' < calls (buscarPrecoProduto codProd w'').2)%nat).
Proof.
  intros Hnone Hob Hrep Hp w' w'' Hc.
  subst w'.
  rewrite (buscarPrecoProduto_resolved net Number_toString codProd w w1 tok d p
             Hnone Hob Hrep Hp) in *.
  cbn [snd now cache with_cache] in *.
  set (ts := now (called net (EvPreco codProd) w1)) in *.
  assert (Hget : CacheService.get (now w'') (preco_key codProd) (cache w'')
                 = if now w'' - ts >? 10 * 60 * 1000
                   then (JNull, base.delete (preco_key codProd) (cache w''))
                   else (JNum p, cache w'')).
  { unfold CacheService.get. rewrite Hc, lookup_insert_eq. cbn.
    by destruct (_ >? _). }
  split.
  - intros Hage.
    unfold ProdutosService.buscarPrecoProduto, ProdutosService.buscarPrecoProduto_from.
    cbn [Nat.sub]. rewrite buscarPrecoProduto_rec_unfold. cbn zeta.
    unfold after_get. rewrite Hget.
    destruct (Z.gtb_spec (now w'' - ts) (10 * 60 * 1000)); [lia|].
    cbn [fst snd not_null]. by rewrite with_cache_same.
  - intros Hage. apply buscarPrecoProduto_contacts. rewrite Hget.
    destruct (Z.gtb_spec (now w'' - ts) (10 * 60 * 1000)); [done | lia].
Qed.

(** A stock lookup that the cache cannot serve contacts the ERP. *)
Lemma consultarEstoqueProduto_contacts (codProd searchLocal : string) (w : World) :
  (CacheService.get (now w) (estoque_key codProd searchLocal) (cache w)).1 = JNull →
  (calls w < calls (consultarEstoqueProduto codProd searchLocal w).2)%nat.
Proof.
  intros Hmiss. unfold ProdutosService.consultarEstoqueProduto.
  fold (estoque_key codProd searchLocal). unfold bind at 1, cache_get.
  destruct (CacheService.get (now w) (estoque_key codProd searchLocal) (cache w))
    as [v c]. cbn [fst] in Hmiss. subst v. cbn [not_null].
  set (w0 := with_cache c w). unfold bind at 1.
  pose proof (fazerRequisicaoAutenticada_contacts net Number_toString w0) as Hlt.
  change (calls w0) with (calls w) in Hlt.
  destruct (fazerRequisicaoAutenticada w0) as [[resp|e|] w1]; cbn [snd] in *;
    [|done|done].
  destruct (negb _); [done|]. destruct (_ || _); [done|].
  unfold bind at 1.
  pose proof (mapearEntidades_frame Number_toString (entities_of resp) w1) as Hw.
  destruct (mapearEntidades (entities_of resp) w1) as [[lista|e|] w2];
    cbn [snd] in *; subst; cbn; lia.
Qed.

(** X20: after a stock lookup that returned rows, a later lookup of the same
    code and filter that finds the cache as that lookup left it returns the
    same result without any HTTP call while no more than 5 minutes have
    passed, and contacts the ERP again afterwards. *)
Theorem consultarEstoqueProduto_round_trip (codProd searchLocal : string) (w w1 : World)
        (resp : JsVal) (lista : list JsVal) :
  cache w !! estoque_key codProd searchLocal = None →
  fazerRequisicaoAutenticada w = (Ret resp, w1) →
  truthy (entities_of resp) = true →
  truthy (member (entities_of resp) "entity") = true →
  mapearEntidades (entities_of resp) w1 = (Ret lista, w1) →
  let r := consultarEstoqueProduto codProd searchLocal w in
  ∃ resultado, r.1 = Ret resultado ∧
    member resultado "estoqueTotal" = JNum (estoqueTotal lista) ∧
    member resultado "total" = num (Z.of_nat (length lista)) ∧
    ∀ w'', cache w'' = cache r.2 →
      (now w'' - now r.2 <= 5 * 60 * 1000 →
         consultarEstoqueProduto codProd searchLocal w'' = (Ret resultado, w'')) ∧
      (now w'' - now r.2 > 5 * 60 * 1000 →
         (calls w'' < calls (consultarEstoqueProduto codProd searchLocal w'').2)%nat).
Proof.
  intros Hnone Hreq He Hent Hmap r. subst r.
  rewrite (consultarEstoqueProduto_rows net Number_toString codProd searchLocal w w1
             resp lista Hnone Hreq He Hent Hmap).
  cbn [fst snd now cache with_cache].
  eexists. split; [reflexivity|]. split; [reflexivity|]. split; [reflexivity|].
  intros w'' Hc.
  set (resultado := JObj [("estoques", JArr lista);
                          ("total", num (Z.of_nat (length lista)));
                          ("estoqueTotal", JNum (estoqueTotal lista))]) in *.
  assert (Hget : CacheService.get (now w'') (estoque_key codProd searchLocal) (cache w'')
                 = if now w'' - now w1 >? 5 * 60 * 1000
                   then (JNull, base.delete (estoque_key codProd searchLocal) (cache w''))
                   else (resultado, cache w'')).
  { unfold CacheService.get, CacheService.set in *. rewrite Hc, lookup_insert_eq. cbn.
    by destruct (_ >? _). }
  split.
  - intros Hage. unfold ProdutosService.consultarEstoqueProduto.
    fold (estoque_key codProd searchLocal). unfold bind at 1, cache_get.
    rewrite Hget.
    destruct (Z.gtb_spec (now w'' - now w1) (5 * 60 * 1000)); [lia|].
    cbn [not_null resultado]. by rewrite with_cache_same.
  - intros Hage. apply consultarEstoqueProduto_contacts. rewrite Hget.
    destruct (Z.gtb_spec (now w'' - now w1) (5 * 60 * 1000)); [done | lia].
Qed.

(** X21: an answer without entities is returned as the empty stock result
    but is not cached: the response cache is left as it was, and a later
    lookup that finds it so contacts the ERP again. *)
Theorem consultarEstoqueProduto_empty_not_cached (codProd searchLocal : string)
        (w w1 : World) (resp : JsVal) :
  cache w !! estoque_key codProd searchLocal = None →
  fazerRequisicaoAutenticada w = (Ret resp, w1) →
  lacks_entities resp →
  consultarEstoqueProduto codProd searchLocal w = (Ret estoque_vazio, w1) ∧
  cache w1 = cache w ∧
  ∀ w'', cache w'' = cache w1 →
    (calls w'' < calls (consultarEstoqueProduto codProd searchLocal w'').2)%nat.
Proof.
  intros Hnone Hreq Hlack.
  pose proof (keeps_fazerRequisicaoAutenticada net Number_toString w) as [Hc _].
  rewrite Hreq in Hc. cbn [snd] in Hc.
  split; [|split; [exact Hc|]].
  - unfold ProdutosService.consultarEstoqueProduto.
    fold (estoque_key codProd searchLocal). unfold bind at 1, cache_get.
    rewrite (get_miss _ _ _ Hnone). cbn [not_null]. rewrite with_cache_same.
    rewrite (bind_ret_eq _ _ _ _ _ Hreq).
    destruct (truthy (entities_of resp)) eqn:He; cbn [negb]; [|reflexivity].
    destruct Hlack as [Hl|Hl]; [congruence|]. by rewrite Hl.
  - intros w'' Hc''. apply consultarEstoqueProduto_contacts.
    rewrite get_miss; [done|]. by rewrite Hc'', Hc.
Qed.

(** X22: the product listing and the stock lookup pass an error of the
    executor on as it is, and cache nothing. *)
Theorem queries_propagate_errors (page pageSize : Z) (codProd searchLocal : string)
        (w w1 : World) (e : Exn) :
  cache w !! estoque_key codProd searchLocal = None →
  fazerRequisicaoAutenticada w = (Throw e, w1) →
  consultarProdutos page pageSize w = (Throw e, w1) ∧
  consultarEstoqueProduto codProd searchLocal w = (Throw e, w1) ∧
  cache w1 = cache w.
Proof.
  intros Hnone Hreq.
  pose proof (keeps_fazerRequisicaoAutenticada net Number_toString w) as [Hc _].
  rewrite Hreq in Hc. cbn [snd] in Hc.
  split; [|split; [|exact Hc]].
  - unfold ProdutosService.consultarProdutos. by apply bind_throw_eq.
  - unfold ProdutosService.consultarEstoqueProduto.
    fold (estoque_key codProd searchLocal). unfold bind at 1, cache_get.
    rewrite (get_miss _ _ _ Hnone). cbn [not_null]. rewrite with_cache_same.
    by apply bind_throw_eq.
Qed.

(** X23: after [invalidatePrecos()] no price lookup, and after
    [invalidateEstoque()] no stock lookup, is served from the cache: each
    contacts the ERP, whatever the code and the filter. *)
Theorem invalidate_then_lookup (codProd searchLocal : string) (w : World) :
  let w_precos := with_cache (CacheService.invalidatePrecos (cache w)).2 w in
  let w_estoque := with_cache (CacheService.invalidateEstoque (cache w)).2 w in
  (calls w_precos < calls (buscarPrecoProduto codProd w_precos).2)%nat ∧
  (calls w_estoque
   < calls (consultarEstoqueProduto codProd searchLocal w_estoque).2)%nat.
Proof.
  split.
  - apply buscarPrecoProduto_contacts. rewrite get_miss; [done|].
    cbn [cache with_cache].
    destruct (invalidate_keys "preco" 0 (cache w)) as [Hl _].
    unfold CacheService.invalidatePrecos, CacheService.invalidatePattern.
    rewrite Hl. reflexivity.
  - apply consultarEstoqueProduto_contacts. rewrite get_miss; [done|].
    cbn [cache with_cache].
    destruct (invalidate_keys "estoque" 0 (cache w)) as [Hl _].
    unfold CacheService.invalidateEstoque, CacheService.invalidatePattern.
    rewrite Hl. reflexivity.
Qed.

Lemma obj_lookup_obj_set_eq (k : string) (v : JsVal) (o : list (string * JsVal)) :
  obj_lookup k (obj_set k v o) = v.
Proof.
  induction o as [|[k0 v0] o IH]; cbn.
  - by rewrite String.eqb_refl.
  - destruct (String.eqb_spec k k0) as [->|Hne]; cbn.
    + by rewrite String.eqb_refl.
    + destruct (String.eqb_spec k k0); [done|]. exact IH.
Qed.

Lemma obj_lookup_obj_set_ne (k k' : string) (v : JsVal) (o : list (string * JsVal)) :
  k ≠ k' → obj_lookup k' (obj_set k v o) = obj_lookup k' o.
Proof.
  intros Hne. induction o as [|[k0 v0] o IH]; cbn.
  - destruct (String.eqb_spec k' k); [congruence | done].
  - destruct (String.eqb_spec k k0) as [->|Hne0]; cbn.
    + destruct (String.eqb_spec k' k0); [congruence | done].
    + destruct (String.eqb_spec k' k0); [done | exact IH].
Qed.

(** What [com_estoque] makes of a record. *)
Lemma com_estoque_members (props : list (string * JsVal)) :
  member (com_estoque (JObj props)) "ESTOQUE" = JStr "0" ∧
  member (com_estoque (JObj props)) "VLRCOMERC"
  = (if truthy (obj_lookup "VLRCOMERC" props) then obj_lookup "VLRCOMERC" props
     else JStr "0") ∧
  ∀ k, k ≠ "ESTOQUE" → k ≠ "VLRCOMERC" →
       member (com_estoque (JObj props)) k = member (JObj props) k.
Proof.
  unfold com_estoque. cbn [member]. split; [|split].
  - rewrite obj_lookup_obj_set_ne by discriminate. apply obj_lookup_obj_set_eq.
  - rewrite obj_lookup_obj_set_eq. reflexivity.
  - intros k H1 H2. by rewrite !obj_lookup_obj_set_ne by done.
Qed.

(** X24: for an answer with rows and no [total], the listing returns the
    first [pageSize] normalised rows at most, in order, each with [ESTOQUE]
    set to ['0'], with the [VLRCOMERC] of the normalised row when that is
    truthy and ['0'] when the row has none (or a falsy one), so always a
    truthy [VLRCOMERC], and otherwise as normalised; [total] is the number of
    products returned and [totalPages] is 1. *)
Theorem consultarProdutos_page (page pageSize : Z) (w w1 : World) (resp : JsVal)
        (fields : list JsVal) :
  let entities := entities_of resp in
  let names := map (λ f, String_ (member f "name")) fields in
  let rows := entity_rows (member entities "entity") in
  fazerRequisicaoAutenticada w = (Ret resp, w1) →
  truthy entities = true →
  truthy (member entities "entity") = true →
  truthy (member entities "total") = false →
  nullish (member entities "metadata") = false →
  nullish (member (member entities "metadata") "fields") = false →
  member (member (member entities "metadata") "fields") "field" = JArr fields →
  Forall (λ f, nullish f = false) fields →
  Forall (λ row, nullish row = false) rows →
  NoDup names →
  "_id" ∉ names →
  0 <= pageSize →
  ∃ produtos,
    consultarProdutos page pageSize w =
      (Ret (JObj [("produtos", JArr produtos);
                  ("total", num (Z.of_nat (length produtos)));
                  ("page", num page);
                  ("pageSize", num pageSize);
                  ("totalPages", num 1)]), w1) ∧
    length produtos = Nat.min (Z.to_nat pageSize) (length rows) ∧
    ∀ i p, produtos !! i = Some p →
      member p "ESTOQUE" = JStr "0" ∧
      truthy (member p "VLRCOMERC") = true ∧
      ∃ row, rows !! i = Some row ∧
        let q := normalized_record Number_toString names row i in
        member p "VLRCOMERC"
        = (if truthy (member q "VLRCOMERC") then member q "VLRCOMERC" else JStr "0") ∧
        ∀ k, k ≠ "ESTOQUE" → k ≠ "VLRCOMERC" → member p k = member q k.
Proof.
  intros entities names rows Hreq He Hent Htot Hm Hf Hfield Hfs Hrows Hnd Hid Hps.
  assert (Hne : nullish entities = false) by (by destruct entities).
  pose proof (mapearEntidades_run Number_toString entities fields w1
                Hne Hm Hf Hfield Hfs Hrows Hnd Hid) as Hrun.
  fold names rows in Hrun.
  set (lista := normalized Number_toString names rows) in *.
  assert (Hlen : length lista = length rows).
  { subst lista. unfold normalized. by rewrite length_imap. }
  exists (map com_estoque (firstn (Z.to_nat pageSize) lista)).
  split; [|split].
  - unfold ProdutosService.consultarProdutos.
    rewrite (bind_ret_eq _ _ _ _ _ Hreq). fold entities.
    rewrite He, Hent. cbn [negb orb].
    rewrite (bind_ret_eq _ _ _ _ _ Hrun). rewrite Htot.
    assert (Hcut : (if pageSize <? Z.of_nat (length lista)
                    then slice0 lista pageSize else lista)
                   = firstn (Z.to_nat pageSize) lista).
    { destruct (Z.ltb_spec pageSize (Z.of_nat (length lista))).
      - unfold slice0. destruct (Z.ltb_spec pageSize 0); [lia | done].
      - symmetry. apply firstn_all2. lia. }
    rewrite Hcut. reflexivity.
  - rewrite length_map, length_firstn, Hlen. lia.
  - intros i p Hp. rewrite list_lookup_fmap in Hp.
    destruct (firstn (Z.to_nat pageSize) lista !! i) as [q|] eqn:Hq; [|discriminate].
    injection Hp as <-.
    assert (Hq' : lista !! i = Some q).
    { destruct (decide (i < Z.to_nat pageSize)%nat) as [Hi|Hi].
      - by rewrite lookup_take_lt in Hq.
      - rewrite lookup_take_ge in Hq by lia. discriminate. }
    subst lista. unfold normalized in Hq'. rewrite list_lookup_imap in Hq'.
    destruct (rows !! i) as [row|] eqn:Hrow; [|discriminate].
    cbn in Hq'. injection Hq' as <-.
    unfold normalized_record. cbn zeta.
    destruct (com_estoque_members
                (named_slots names row 0 ++
                 [("_id", JStr (if truthy (obj_lookup "CODPROD" (named_slots names row 0))
                                then String_ (obj_lookup "CODPROD" (named_slots names row 0))
                                else pretty i))])) as (H1 & H2 & H3).
    split; [exact H1|]. split.
    { rewrite H2. by destruct (truthy (obj_lookup "VLRCOMERC" _)) eqn:Ht. }
    exists row. split; [done|]. split; [exact H2|].
    intros k Hk1 Hk2. exact (H3 k Hk1 Hk2).
Qed.

End LookupMore.

(* ===================================================================== *)
(** ** Batch endpoint: validation and the warm cache *)
(* ===================================================================== *)

Section BatchMore.

Import ProdutosService EventLoop BatchInfo.
Import Async(Run, Settled, Awaiting, at_time).
Local Open Scope loop_scope.

Variable net : nat -> Exchange.
Variable Number_toString : float -> string.
Variable sched : Scheduler.

Local Abbreviation String_ := (js_String Number_toString).
Local Abbreviation batch_item := (BatchInfo.batch_item net Number_toString sched).
Local Abbreviation batch_loop := (BatchInfo.batch_loop net Number_toString sched).
Local Abbreviation pass := (batch_pass net Number_toString sched).
Local Abbreviation POST := (BatchInfo.POST net Number_toString sched).

(** A wait of the driving code while no call is parked: the next turn is
    its own. *)
Lemma wait_idle (fuel : nat) (wake : Z) (turn : nat) (st : Loop) :
  parked 0 (tasks st) = [] →
  wait sched (S fuel) wake turn st
  = (Ret tt, mkLoop (at_time wake (world st)) (tasks st) (S (turns st))).
Proof.
  intros Hidle. cbn [wait]. unfold next. rewrite Hidle. cbn [app length fmap list_fmap].
  rewrite Nat.mod_1_r. cbn [lookup list_lookup fmap option_fmap option_map fst].
  by rewrite Nat.ltb_irrefl.
Qed.

Lemma tick_idle (st : Loop) :
  parked 0 (tasks st) = [] →
  tick sched st
  = (Ret tt, mkLoop (at_time (now (world st)) (world st)) (tasks st) (S (S (turns st)))).
Proof. intros Hidle. unfold tick, TURNS. by rewrite wait_idle. Qed.

Lemma at_time_now (w : World) : at_time (now w) w = w.
Proof. destruct w. unfold at_time. cbn. by rewrite Z.max_id. Qed.

(** X25: the endpoint always answers and never throws, whichever turns the
    event loop takes. The answer is 200 exactly when the body is not null
    and its [codigos] is an array; a null body is answered 500 and any other
    [codigos] 400, in both cases without a lookup, a timer or any other
    effect. *)
Theorem POST_always_answers (requestBody : JsVal) (w : World) :
  ∃ resp st', POST requestBody (idle w) = (Ret resp, st') ∧
    (http_status resp = 200 ↔
       nullish requestBody = false ∧ isArray (member requestBody "codigos") = true) ∧
    (http_status resp ≠ 200 →
       world st' = w ∧ tasks st' = [] ∧
       http_status resp = if nullish requestBody then 500 else 400).
Proof.
  pose proof (tick_idle (idle w) eq_refl) as Htick.
  cbn [idle world tasks turns] in Htick. rewrite at_time_now in Htick.
  destruct (nullish requestBody) eqn:Hn.
  - eexists _, _. split.
    + unfold BatchInfo.POST. rewrite Hn.
      erewrite loop_try_throw; [reflexivity|].
      rewrite (loop_bind_ret _ _ _ _ _ Htick). apply loop_bind_throw. reflexivity.
    + cbn. split; [split; [lia | intros [? _]; done] | done].
  - destruct (member requestBody "codigos") as [| |b|n|s|l|o] eqn:Hm;
      try (eexists _, _; split;
           [ unfold BatchInfo.POST; rewrite Hn, Hm;
             apply loop_try_ret; rewrite (loop_bind_ret _ _ _ _ _ Htick); reflexivity
           | cbn; split; [split; [lia | intros [_ ?]; done] | done] ]).
    destruct (POST_array net Number_toString sched l w)
      as (results & st0 & st' & _ & Hrun & _).
    exists (mkHttp 200 (JObj results)), st'. split.
    + rewrite <- Hrun. unfold BatchInfo.POST. rewrite Hn, Hm. reflexivity.
    + cbn. split; [done|]. intros H. done.
Qed.

(** A code is warm until [t]: the cache holds a price and a stock result
    for it, neither of them [null], and both still fresh at time [t]. *)
Definition warm (t : Z) (c : gmap string CacheService.CacheEntry) (codProd : string) : Prop :=
  ∃ ep ee,
    c !! preco_key codProd = Some ep ∧
    c !! estoque_key codProd "" = Some ee ∧
    not_null (CacheService.data ep) = true ∧
    not_null (CacheService.data ee) = true ∧
    t - CacheService.timestamp ep <= CacheService.ttl ep ∧
    t - CacheService.timestamp ee <= CacheService.ttl ee.

Lemma get_fresh_entry (t : Z) (k : string) (c : gmap string CacheService.CacheEntry)
      (e : CacheService.CacheEntry) :
  c !! k = Some e →
  t - CacheService.timestamp e <= CacheService.ttl e →
  CacheService.get t k c = (CacheService.data e, c).
Proof.
  intros He Hf. unfold CacheService.get. rewrite He.
  destruct (Z.gtb_spec (t - CacheService.timestamp e) (CacheService.ttl e)); [lia | done].
Qed.

(** A lookup that the cache serves settles at once, before any [await]. *)
Lemma buscarPrecoProduto_served (codProd : string) (w : World)
      (e : CacheService.CacheEntry) :
  cache w !! preco_key codProd = Some e →
  now w - CacheService.timestamp e <= CacheService.ttl e →
  not_null (CacheService.data e) = true →
  Async.buscarPrecoProduto net Number_toString codProd w
  = Settled (Ret (CacheService.data e)) w.
Proof.
  intros He Hf Hn.
  unfold Async.buscarPrecoProduto, Async.buscarPrecoProduto_from.
  cbn [Nat.sub Async.buscarPrecoProduto_rec]. fold (preco_key codProd).
  unfold Async.bind at 1, Async.sync at 1, cache_get.
  rewrite (get_fresh_entry _ _ _ _ He Hf). cbn [Async.then_]. rewrite Hn.
  by rewrite with_cache_same.
Qed.

Lemma consultarEstoqueProduto_served (codProd searchLocal : string) (w : World)
      (e : CacheService.CacheEntry) :
  cache w !! estoque_key codProd searchLocal = Some e →
  now w - CacheService.timestamp e <= CacheService.ttl e →
  not_null (CacheService.data e) = true →
  Async.consultarEstoqueProduto net Number_toString codProd searchLocal w
  = Settled (Ret (CacheService.data e)) w.
Proof.
  intros He Hf Hn. unfold Async.consultarEstoqueProduto.
  fold (estoque_key codProd searchLocal).
  unfold Async.bind at 1, Async.sync at 1, cache_get.
  rewrite (get_fresh_entry _ _ _ _ He Hf). cbn [Async.then_]. rewrite Hn.
  by rewrite with_cache_same.
Qed.

Lemma parked_snoc_done (ts : list (Task JsVal)) (r : Res JsVal) :
  ∀ i, parked i ts = [] → parked i (ts ++ [Done r]) = [].
Proof.
  induction ts as [|[r'|wake turn k] ts IH]; intros i H; cbn in *; [done | auto | done].
Qed.

Lemma Promise_all_done (fuel p s : nat) (st : Loop) (r : Res (JsVal * JsVal)) :
  all_settled (tasks st !! p) (tasks st !! s) = Some r →
  Promise_all sched fuel p s st = (r, st).
Proof. intros H. destruct fuel; cbn [Promise_all]; by rewrite H. Qed.

(** One turn of the pass on a warm code while no call is parked: both
    lookups settle as they are started, so no HTTP call is made, the cache is
    left as it is, and at most the 100 ms timer runs. *)
Lemma batch_item_warm (t : Z) (codProd : JsVal) (i limit : nat)
      (results : list (string * JsVal)) (st : Loop) :
  warm t (cache (world st)) (String_ codProd) →
  now (world st) <= t →
  parked 0 (tasks st) = [] →
  ∃ results' st', batch_item codProd i limit results st = (Ret results', st') ∧
    parked 0 (tasks st') = [] ∧
    calls (world st') = calls (world st) ∧ cache (world st') = cache (world st) ∧
    now (world st') <= now (world st)
                      + (if Z.of_nat i <? Z.of_nat limit - 1 then 100 else 0).
Proof.
  intros (ep & ee & Hp & He & Hnp & Hne & Hfp & Hfe) Hnow Hidle.
  set (key := String_ codProd) in *.
  set (w := world st) in *.
  set (done := (tasks st ++ [Done (Ret (CacheService.data ep))])
               ++ [Done (Ret (CacheService.data ee))]).
  assert (Hstarted : both_started net Number_toString key st
                     = mkLoop w done (S (S (turns st)))).
  { unfold both_started, start. fold w.
    rewrite (buscarPrecoProduto_served key w ep Hp ltac:(lia) Hnp).
    cbn [park snd world tasks turns].
    by rewrite (consultarEstoqueProduto_served key "" w ee He ltac:(lia) Hne). }
  assert (Hdone : parked 0 done = []) by (by do 2 apply parked_snoc_done).
  assert (Hall : Promise_all sched TURNS (length (tasks st)) (S (length (tasks st)))
                   (mkLoop w done (S (S (turns st))))
                 = (Ret (CacheService.data ep, CacheService.data ee),
                    mkLoop w done (S (S (turns st))))).
  { apply Promise_all_done. cbn [tasks]. subst done.
    rewrite lookup_app_l by (rewrite length_app; cbn; lia).
    rewrite lookup_app_r by lia. rewrite Nat.sub_diag.
    rewrite lookup_app_r by (rewrite length_app; cbn; lia).
    rewrite length_app. cbn [length].
    replace (S (length (tasks st)) - (length (tasks st) + 1))%nat with 0%nat by lia.
    reflexivity. }
  assert (Hfetch : fetch_both net Number_toString sched key st
                   = (Ret (CacheService.data ep, CacheService.data ee),
                      mkLoop w done (S (S (S (S (turns st))))))).
  { rewrite fetch_both_started, Hstarted. unfold await. rewrite Hall.
    rewrite tick_idle by done. cbn [world tasks turns]. by rewrite at_time_now. }
  unfold BatchInfo.batch_item. fold key.
  destruct (nullish (CacheService.data ee)) eqn:Hnull.
  - eexists _, _. split.
    + erewrite loop_try_throw; [reflexivity|].
      rewrite (loop_bind_ret _ _ _ _ _ Hfetch). cbn [fst snd].
      apply loop_bind_throw. unfold sync, prop. rewrite Hnull. reflexivity.
    + cbn [world tasks]. fold w. split; [done|]. split; [done|]. split; [done|].
      destruct (_ <? _); lia.
  - assert (Hprop : sync (prop (CacheService.data ee) "estoqueTotal")
                         (mkLoop w done (S (S (S (S (turns st))))))
                    = (Ret (member (CacheService.data ee) "estoqueTotal"),
                       mkLoop w done (S (S (S (S (turns st))))))).
    { unfold sync, prop. rewrite Hnull. reflexivity. }
    destruct (Z.of_nat i <? Z.of_nat limit - 1) eqn:Hi.
    + eexists _, _. split.
      * apply loop_try_ret.
        rewrite (loop_bind_ret _ _ _ _ _ Hfetch). cbn [fst snd].
        rewrite (loop_bind_ret _ _ _ _ _ Hprop).
        erewrite loop_bind_ret; [reflexivity|].
        unfold sleep, TURNS. by rewrite wait_idle.
      * cbn [world tasks at_time calls cache now]. fold w.
        split; [done|]. split; [done|]. split; [done|]. lia.
    + eexists _, _. split.
      * apply loop_try_ret.
        rewrite (loop_bind_ret _ _ _ _ _ Hfetch). cbn [fst snd].
        rewrite (loop_bind_ret _ _ _ _ _ Hprop). reflexivity.
      * cbn [world tasks]. fold w. split; [done|]. split; [done|]. split; [done|]. lia.
Qed.

Lemma batch_pass_warm (t : Z) (limit : nat) (items : list JsVal) :
  ∀ i results st,
    (i + length items <= limit)%nat →
    Forall (λ c, warm t (cache (world st)) (String_ c)) items →
    now (world st) + 100 * (Z.of_nat (length items) - 1) <= t →
    parked 0 (tasks st) = [] →
    ∃ results' st', pass items i limit results st = (Ret results', st') ∧
      calls (world st') = calls (world st) ∧ cache (world st') = cache (world st).
Proof.
  induction items as [|c items IH]; intros i results st Hlen Hwarm Ht Hidle.
  - exists results, st. done.
  - cbn [batch_pass]. cbn [length] in Hlen, Ht.
    apply Forall_cons in Hwarm as [Hc Hrest].
    destruct (batch_item_warm t c i limit results st Hc ltac:(lia) Hidle)
      as (r1 & st1 & Hrun & Hidle1 & Hcalls & Hcache & Hnow).
    rewrite (loop_bind_ret _ _ _ _ _ Hrun).
    destruct items as [|c' items'].
    { exists r1, st1. done. }
    destruct (IH (S i) r1 st1) as (r' & st' & Hrun' & Hcalls' & Hcache').
    + cbn [length] in *. lia.
    + by rewrite Hcache.
    + cbn [length] in *. destruct (Z.of_nat i <? Z.of_nat limit - 1); lia.
    + done.
    + exists r', st'. split; [done|]. split; congruence.
Qed.

(** X26: when each of the codes the endpoint looks at (the first ten) has a
    price and a stock result in the cache that stay fresh for the 900 ms
    the pauses between products can add up to, the endpoint answers 200
    without a single HTTP call and leaves the cache as it found it. *)
Theorem POST_warm_cache (codigos : list JsVal) (w : World) :
  Forall (λ c, warm (now w + 900) (cache w) (String_ c)) (firstn 10 codigos) →
  ∃ results st',
    POST (JObj [("codigos", JArr codigos)]) (idle w)
    = (Ret (mkHttp 200 (JObj results)), st') ∧
    calls (world st') = calls w ∧ cache (world st') = cache w.
Proof.
  intros Hwarm.
  set (limit := Nat.min (length codigos) 10).
  assert (Hitems : firstn limit codigos = firstn 10 codigos).
  { subst limit. destruct (Nat.min_spec (length codigos) 10) as [[Hlt ->]|[Hle ->]];
      [|done]. rewrite !firstn_all2 by lia. done. }
  pose proof (tick_idle (idle w) eq_refl) as Htick.
  cbn [idle world tasks turns] in Htick. rewrite at_time_now in Htick.
  destruct (batch_pass_warm (now w + 900) limit (firstn limit codigos) 0 []
              (mkLoop w [] 2))
    as (results & st' & Hrun & Hcalls & Hcache).
  - rewrite length_firstn. subst limit. lia.
  - by rewrite Hitems.
  - rewrite length_firstn. cbn [world]. subst limit. lia.
  - done.
  - exists results, st'. split; [|done].
    unfold BatchInfo.POST. apply loop_try_ret.
    rewrite (loop_bind_ret _ _ _ _ _ Htick).
    cbn [nullish member obj_lookup]. cbn [String.eqb Ascii.eqb Bool.eqb].
    unfold bind at 1, ret at 1. fold limit.
    assert (Hloop : batch_loop limit 0 limit codigos [] (mkLoop w [] 2)
                    = (Ret results, st')).
    { rewrite batch_loop_pass by (subst limit; lia). by rewrite skipn_O. }
    by rewrite (loop_bind_ret _ _ _ _ _ Hloop).
Qed.

End BatchMore.

(* ===================================================================== *)
(** ** Examples for the lookups and the batch endpoint *)
(* ===================================================================== *)

Module MoreExamples.

Import ProdutosService BatchInfo Examples.

Definition price_answer : JsVal :=
  JObj [("produtos", JArr [JObj [("valor", JStr "12.50")]])].

Lemma buscarPrecoProduto_round_trip_witness :
  cache wT !! preco_key "7" = None ∧
  let w' := (buscarPrecoProduto net_price_12_50 Number_toString_int "7" wT).2 in
  buscarPrecoProduto net_price_12_50 Number_toString_int "7" (slept 600000 w')
  = (Ret (JNum 12.5), slept 600000 w').
Proof.
  split; [reflexivity|]. intros w'.
  destruct (buscarPrecoProduto_round_trip net_price_12_50 Number_toString_int "7"
              wT wT (JStr "T") price_answer 12.5 eq_refl eq_refl eq_refl eq_refl
              (slept 600000 w') eq_refl) as [Hhit _].
  apply Hhit. vm_compute. discriminate.
Defined.

Definition stock_answer : JsVal := raw_response stock_names (JArr [row2 "3" "7"]).

Definition stock_rows : list JsVal :=
  [JObj [("ESTOQUE", JStr "3"); ("CODPROD", JStr "7"); ("_id", JStr "7")]].

Definition wT_queried : World := mkWorld (JStr "T") ∅ 10 1 [EvQuery].

Lemma consultarEstoqueProduto_round_trip_witness :
  let net := script [answered stock_answer] in
  let r := consultarEstoqueProduto net Number_toString_int "7" "" wT in
  cache wT !! estoque_key "7" "" = None ∧
  ∃ resultado, r.1 = Ret resultado ∧
    member resultado "estoqueTotal" = JNum 3 ∧
    consultarEstoqueProduto net Number_toString_int "7" "" (slept 300000 r.2)
    = (Ret resultado, slept 300000 r.2).
Proof.
  intros net r. split; [reflexivity|].
  destruct (consultarEstoqueProduto_round_trip net Number_toString_int "7" "" wT
              wT_queried stock_answer stock_rows
              eq_refl eq_refl eq_refl eq_refl eq_refl)
    as (resultado & Hrun & Htotal & _ & Hlater).
  exists resultado. split; [exact Hrun|]. split; [exact Htotal|].
  destruct (Hlater (slept 300000 r.2) eq_refl) as [Hhit _].
  apply Hhit. vm_compute. discriminate.
Defined.

Lemma consultarEstoqueProduto_empty_not_cached_witness :
  let net := script [answered (JObj [])] in
  cache wT !! estoque_key "7" "" = None ∧
  lacks_entities (JObj []) ∧
  consultarEstoqueProduto net Number_toString_int "7" "" wT
  = (Ret estoque_vazio, wT_queried).
Proof.
  intros net.
  assert (Hl : lacks_entities (JObj [])) by (left; reflexivity).
  split; [reflexivity|]. split; [exact Hl|].
  destruct (consultarEstoqueProduto_empty_not_cached net Number_toString_int "7" ""
              wT wT_queried (JObj []) eq_refl eq_refl Hl) as [Hrun _].
  exact Hrun.
Defined.

Lemma queries_propagate_errors_witness :
  let r := consultarProdutos net_404 Number_toString_int parseInt_dec Math_ceil_SF
             1 50 wT in
  cache wT !! estoque_key "7" "" = None ∧
  r.1 = Throw (Error "Entidade desconhecida") ∧
  consultarEstoqueProduto net_404 Number_toString_int "7" "" wT = r.
Proof.
  intros r. split; [reflexivity|].
  destruct (queries_propagate_errors net_404 Number_toString_int parseInt_dec
              Math_ceil_SF 1 50 "7" "" wT wT_queried (Error "Entidade desconhecida")
              eq_refl eq_refl) as (Hlist & Hstock & _).
  subst r. rewrite Hlist, Hstock. split; reflexivity.
Defined.

Definition listing_names : list string := ["CODPROD"; "VLRCOMERC"].

Definition listing_answer : JsVal :=
  raw_response listing_names (JArr [row2 "7" "10"; row2 "8" ""; row2 "9" "3"]).

Lemma consultarProdutos_page_witness :
  let net := script [answered listing_answer] in
  ∃ produtos,
    (consultarProdutos net Number_toString_int parseInt_dec Math_ceil_SF 1 2 wT).1
    = Ret (JObj [("produtos", JArr produtos); ("total", num 2); ("page", num 1);
                 ("pageSize", num 2); ("totalPages", num 1)]) ∧
    length produtos = 2%nat ∧
    produtos = [JObj [("CODPROD", JStr "7"); ("VLRCOMERC", JStr "10");
                      ("_id", JStr "7"); ("ESTOQUE", JStr "0")];
                JObj [("CODPROD", JStr "8"); ("VLRCOMERC", JStr "0");
                      ("_id", JStr "8"); ("ESTOQUE", JStr "0")]].
Proof.
  intros net.
  assert (Hnd : NoDup listing_names).
  { apply NoDup_cons. split; [|apply NoDup_singleton].
    intros H. apply list_elem_of_singleton in H. discriminate. }
  assert (Hid : "_id" ∉ listing_names).
  { intros H. apply elem_of_cons in H as [H|H]; [discriminate|].
    apply list_elem_of_singleton in H. discriminate. }
  destruct (consultarProdutos_page net Number_toString_int parseInt_dec Math_ceil_SF
              1 2 wT wT_queried listing_answer
              (map (λ n, JObj [("name", JStr n)]) listing_names)
              eq_refl eq_refl eq_refl eq_refl eq_refl eq_refl eq_refl
              ltac:(repeat constructor) ltac:(repeat constructor) Hnd Hid ltac:(lia))
    as (produtos & Hrun & Hlen & _).
  exists produtos. rewrite Hrun. cbn [fst]. rewrite Hlen.
  split; [reflexivity|]. split; [reflexivity|].
  vm_compute in Hrun. by injection Hrun as <-.
Defined.

(** A process whose cache holds a price and a stock result for code 7. *)
Definition w_warm : World :=
  mkWorld (JStr "T")
          (<["preco:7" := CacheService.mkEntry (JNum 12.5) 0 600000]>
             (<["estoque:7:" := CacheService.mkEntry
                                  (JObj [("estoqueTotal", JNum 3)]) 0 300000]> ∅))
          1000 0 [].

Lemma POST_warm_cache_witness :
  ∃ results st',
    POST (script []) Number_toString_int EventLoop.earliest
         (JObj [("codigos", JArr [JStr "7"])]) (EventLoop.idle w_warm)
    = (Ret (mkHttp 200 (JObj results)), st') ∧
    calls (EventLoop.world st') = 0%nat.
Proof.
  destruct (POST_warm_cache (script []) Number_toString_int EventLoop.earliest
              [JStr "7"] w_warm)
    as (results & st' & Hrun & Hcalls & _).
  - constructor; [|constructor].
    exists (CacheService.mkEntry (JNum 12.5) 0 600000),
           (CacheService.mkEntry (JObj [("estoqueTotal", JNum 3)]) 0 300000).
    repeat split; vm_compute; discriminate.
  - exists results, st'. split; [exact Hrun | exact Hcalls].
Defined.

(** An ERP that answers a login and a price request, each in 10 ms. *)
Definition net_login_price : nat -> Exchange :=
  script [login_ok; answered price_answer].

Lemma alone_is_sequential_witness :
  (∀ n, 0 <= took (net_login_price n)) ∧
  Async.alone (Async.buscarPrecoProduto net_login_price Number_toString_int "7" w0)
  = buscarPrecoProduto net_login_price Number_toString_int "7" w0 ∧
  (buscarPrecoProduto net_login_price Number_toString_int "7" w0).1 = Ret (JNum 12.5).
Proof.
  assert (Htook : ∀ n, 0 <= took (net_login_price n)).
  { intros [|[|[|n]]]; cbn; lia. }
  split; [exact Htook|].
  destruct (alone_is_sequential net_login_price Number_toString_int Htook "7" "" w0)
    as (_ & _ & Hprice & _).
  split; [exact Hprice | reflexivity].
Defined.

End MoreExamples.
